(** * The NIC layer of the network stack (stack/nic.go)

    A shallow embedding of [stack/nic.go]: the reference-counted network
    endpoint bindings of an interface, the registry and the primacy lists,
    address and subnet management, and the inbound network and transport
    dispatch.

    Conventions of the embedding.
    - A [*referencedNetworkEndpoint] is a [RefId], an index in the store
      [heap] of the stack; the registry, the primacy lists and the routes
      hold such indices, so that two holders of one binding see each
      other's updates of [refs] and [holdsInsertRef].
    - Every function runs in the monad [M]: it threads the [Stack] and
      either returns or panics.
    - Calls that leave this file (an endpoint's [Close] and
      [HandlePacket], a link driver's [WritePacket], the demultiplexers,
      the transport handlers, a route's [Release]) are recorded, in
      order, in the [trace] of the stack.
    - The locks of a NIC are not modelled: every function is one
      sequential run.  The atomic steps of the reference count are
      functions of their own ([atomicAddInt32], [removeEndpoint]), so a
      run in which another thread acts between the decrement and the
      removal is a sequence of such steps. *)

From stdpp Require Import gmap strings list fin_maps.
From Stdlib Require Import ZArith Ascii String.

Local Open Scope Z_scope.
Set Warnings "-clear-no-such-hyp".

(** ** Basic types of package tcpip *)

(** [tcpip.Address], [tcpip.AddressMask] and [tcpip.LinkAddress] are Go
    strings: immutable byte sequences. *)
Abbreviation Address := string (only parsing).
Abbreviation AddressMask := string (only parsing).
Abbreviation LinkAddress := string (only parsing).
(** [tcpip.NICID] is an int32, the protocol numbers are uint32. *)
Abbreviation NICID := Z (only parsing).
Abbreviation NetworkProtocolNumber := N (only parsing).
Abbreviation TransportProtocolNumber := N (only parsing).
(** [buffer.View] is a byte slice, [buffer.VectorisedView] a list of views. *)
Abbreviation View := (list Byte.byte) (only parsing).
Abbreviation VectorisedView := (list (list Byte.byte)) (only parsing).
(** A pointer to a [referencedNetworkEndpoint]. *)
Abbreviation RefId := nat (only parsing).

Inductive Error :=
| ErrUnknownProtocol
| ErrDuplicateAddress
| ErrBadLocalAddress
| ErrNoLinkAddress
| ErrNoRoute
| ErrBadAddress
| ErrNotSupported.

Global Instance Error_eq_dec : EqDecision Error.
Proof. solve_decision. Defined.

(** [vv.First()]: the first view, or nil when there is none. *)
Definition First (vv : VectorisedView) : View :=
  match vv with
  | [] => []
  | v :: _ => v
  end.

(** [vv.RemoveFirst()]: drops the first view, if any. *)
Definition RemoveFirst (vv : VectorisedView) : VectorisedView :=
  match vv with
  | [] => []
  | _ :: vs => vs
  end.

(** [len(s)] of a Go string or slice, as an int. *)
Definition len (s : string) : Z := Z.of_nat (String.length s).
Definition vlen (v : View) : Z := Z.of_nat (List.length v).

(** The string of the given bytes. *)
Fixpoint bytes (l : list N) : string :=
  match l with
  | [] => EmptyString
  | b :: l' => String (ascii_of_N b) (bytes l')
  end.

(** [a[i] & m[i] == d[i]] for all [i], on strings of equal length; used
    by [Subnet.Contains] and by [Route.Match]. *)
Fixpoint masked_eq (a m d : string) : bool :=
  match a, m, d with
  | EmptyString, _, EmptyString => true
  | String x a', String y m', String z d' =>
      N.eqb (N.land (N_of_ascii x) (N_of_ascii y)) (N_of_ascii z)
      && masked_eq a' m' d'
  | _, _, _ => false
  end.

(** Modelled from the spec: [tcpip.Subnet] is declared in package tcpip,
    outside this file.  A subnet is an address-range descriptor, an
    address together with a mask; [Contains] holds of the addresses of the
    same length that agree with the subnet address under the mask, [ID] is
    the subnet address, and the zero value [Subnet{}] has the empty address
    and mask.  [NewSubnet] makes the mask as long as the address; a shorter
    mask is a mismatch here. *)
Record Subnet := mkSubnet {
  sn_address : Address;
  sn_mask : AddressMask
}.

Global Instance Subnet_eq_dec : EqDecision Subnet.
Proof. solve_decision. Defined.

Definition zeroSubnet : Subnet := mkSubnet EmptyString EmptyString.

Definition Contains (s : Subnet) (a : Address) : bool :=
  masked_eq a (sn_mask s) (sn_address s).

Definition ID (s : Subnet) : Address := sn_address s.

(** [a[i] &^ m[i] == 0] for all [i], on strings of equal length. *)
Fixpoint mask_clear (a m : string) : bool :=
  match a, m with
  | EmptyString, EmptyString => true
  | String x a', String y m' =>
      N.eqb (N.land (N_of_ascii x) (N.lxor 255 (N_of_ascii y))) 0
      && mask_clear a' m'
  | _, _ => false
  end.

(** [tcpip.NewSubnet]: fails when the lengths differ or the address has
    bits outside the mask. *)
Definition NewSubnet (a : Address) (m : AddressMask) : option Subnet :=
  if mask_clear a m then Some (mkSubnet a m) else None.

(** [strings.Repeat("\xff", n)]. *)
Fixpoint repeat_ff (n : nat) : string :=
  match n with
  | O => EmptyString
  | S n' => String (ascii_of_N 255) (repeat_ff n')
  end.

(** Constants of package header. *)
Definition IPv4ProtocolNumber : NetworkProtocolNumber := 0x0800%N.
Definition IPv6ProtocolNumber : NetworkProtocolNumber := 0x86dd%N.
Definition IPv4Broadcast : Address := bytes [255; 255; 255; 255]%N.
Definition IPv4Any : Address := bytes [0; 0; 0; 0]%N.

(** ** Routes *)

(** Modelled from the spec: [Route] and [makeRoute] are declared in
    stack/route.go.  A route carries the network protocol, the local and
    remote network addresses, the local and remote link addresses, the next
    hop, and the binding it was built on. *)
Record Route := mkRoute {
  NetProto : NetworkProtocolNumber;
  LocalAddress : Address;
  LocalLinkAddress : LinkAddress;
  RemoteAddress : Address;
  RemoteLinkAddress : LinkAddress;
  NextHop : Address;
  rt_ref : option RefId
}.

Definition zeroRoute : Route :=
  mkRoute 0%N EmptyString EmptyString EmptyString EmptyString EmptyString None.

Definition makeRoute (netProto : NetworkProtocolNumber)
    (localAddr remoteAddr : Address) (localLinkAddr : LinkAddress)
    (ref : RefId) : Route :=
  mkRoute netProto localAddr localLinkAddr remoteAddr EmptyString EmptyString
          (Some ref).

Definition set_LocalLinkAddress (a : LinkAddress) (r : Route) : Route :=
  mkRoute (NetProto r) (LocalAddress r) a (RemoteAddress r)
          (RemoteLinkAddress r) (NextHop r) (rt_ref r).

Definition set_RemoteLinkAddress (a : LinkAddress) (r : Route) : Route :=
  mkRoute (NetProto r) (LocalAddress r) (LocalLinkAddress r) (RemoteAddress r)
          a (NextHop r) (rt_ref r).

Definition set_NextHop (a : Address) (r : Route) : Route :=
  mkRoute (NetProto r) (LocalAddress r) (LocalLinkAddress r) (RemoteAddress r)
          (RemoteLinkAddress r) a (rt_ref r).

(** An entry of the routing table of the stack ([tcpip.Route]). *)
Record RouteEntry := mkRouteEntry {
  re_Destination : Address;
  re_Mask : AddressMask;
  re_Gateway : Address;
  re_NIC : NICID
}.

Definition Match (e : RouteEntry) (addr : Address) : bool :=
  masked_eq addr (re_Mask e) (re_Destination e).

(** [TransportEndpointID] of stack/registration.go. *)
Record TransportEndpointID := mkTransportEndpointID {
  LocalPort : N;
  te_LocalAddress : Address;
  RemotePort : N;
  te_RemoteAddress : Address
}.

(** ** Collaborators *)

(** A network protocol of the stack: its number, its minimum packet size,
    its address parser (source, destination) and its endpoint factory.
    The factory either fails or makes an endpoint; an endpoint is known
    here by its [ID().LocalAddress]. *)
Record NetworkProtocol := mkNetworkProtocol {
  np_Number : NetworkProtocolNumber;
  np_MinimumPacketSize : Z;
  np_ParseAddresses : View -> Address * Address;
  np_NewEndpoint : NICID -> Address -> Error + Address
}.

(** A transport protocol: its minimum packet size, its port parser
    (source, destination; [None] is a parse error) and its handler of
    packets with no destination. *)
Record TransportProtocol := mkTransportProtocol {
  tp_MinimumPacketSize : Z;
  tp_ParsePorts : View -> option (N * N);
  tp_HandleUnknownDestinationPacket :
    Route -> TransportEndpointID -> VectorisedView -> bool
}.

Record transportProtocolState := mkTransportProtocolState {
  proto : TransportProtocol;
  defaultHandler :
    option (Route -> TransportEndpointID -> VectorisedView -> bool)
}.

(** [ControlType] of stack/registration.go. *)
Inductive ControlType := ControlPacketTooBig | ControlPortUnreachable | ControlUnknown.

(** A transport demultiplexer, by what it answers: whether it delivered. *)
Record transportDemuxer := mkTransportDemuxer {
  deliverPacket :
    Route -> TransportProtocolNumber -> VectorisedView ->
    TransportEndpointID -> bool;
  deliverControlPacket :
    NetworkProtocolNumber -> TransportProtocolNumber -> ControlType -> N ->
    VectorisedView -> TransportEndpointID -> bool
}.

(** A link endpoint, by its link address and by whether its capabilities
    include [CapabilityResolutionRequired]. *)
Record LinkEndpoint := mkLinkEndpoint {
  le_LinkAddress : LinkAddress;
  le_ResolutionRequired : bool
}.

(** ** The data of nic.go *)

Inductive PrimaryEndpointBehavior :=
| CanBePrimaryEndpoint
| FirstPrimaryEndpoint
| NeverPrimaryEndpoint.

(** [referencedNetworkEndpoint].  The embedded [ilist.Entry] is the
    position of the binding in the primacy list of its protocol; [ep] is
    the wrapped endpoint, by its [ID().LocalAddress]. *)
Record referencedNetworkEndpoint := mkRef {
  refs : Z;
  ep : Address;
  nic : NICID;
  protocol : NetworkProtocolNumber;
  linkCache : bool;
  holdsInsertRef : bool
}.

Record NIC := mkNIC {
  id : NICID;
  name : string;
  linkEP : LinkEndpoint;
  demux : transportDemuxer;
  spoofing : bool;
  promiscuous : bool;
  primary : gmap N (list nat);
  endpoints : gmap string nat;
  subnets : list Subnet
}.

(** The counters of [tcpip.Stats] that nic.go increments (uint64). *)
Record Stats := mkStats {
  UnknownProtocolRcvdPackets : N;
  MalformedRcvdPackets : N;
  IP_PacketsReceived : N;
  IP_InvalidAddressesReceived : N
}.

(** [StatCounter.Increment]. *)
Definition Increment (c : N) : N := ((c + 1) mod 2 ^ 64)%N.

(** What leaves this file, in the order of the calls. *)
Inductive Event :=
| EvClose (r : RefId)
| EvHandlePacket (r : RefId) (rt : Route) (vv : VectorisedView)
| EvWritePacket (n : NICID) (rt : Route) (hdr : View)
    (payload : VectorisedView) (protocol : NetworkProtocolNumber)
| EvRelease (rt : Route)
| EvNICDemux (n : NICID) (rt : Route) (protocol : TransportProtocolNumber)
    (vv : VectorisedView) (id : TransportEndpointID)
| EvStackDemux (rt : Route) (protocol : TransportProtocolNumber)
    (vv : VectorisedView) (id : TransportEndpointID)
| EvDefaultHandler (rt : Route) (id : TransportEndpointID)
    (vv : VectorisedView)
| EvUnknownDestination (rt : Route) (id : TransportEndpointID)
    (vv : VectorisedView)
| EvNICControl (n : NICID) (id : TransportEndpointID)
| EvStackControl (id : TransportEndpointID).

(** The part of the stack that nic.go only reads. *)
Record StackConfig := mkStackConfig {
  networkProtocols : gmap N NetworkProtocol;
  transportProtocols : gmap N transportProtocolState;
  linkAddrResolvers : gset N;
  stack_demux : transportDemuxer;
  Forwarding : bool;
  routeTable : list RouteEntry
}.

Record Stack := mkStack {
  cfg : StackConfig;
  stats : Stats;
  nics : gmap Z NIC;
  heap : list referencedNetworkEndpoint;
  trace : list Event
}.

(** ** The monad: state of the stack, and panics *)

Inductive Res (A : Type) :=
| Ok (a : A)
| Panic (msg : string).
Arguments Ok {A} a.
Arguments Panic {A} msg.

Definition M (A : Type) : Type := Stack -> Res (A * Stack).

Global Instance M_ret : MRet M := fun A a s => Ok (a, s).
Global Instance M_bind : MBind M := fun A B f m s =>
  match m s with
  | Ok (a, s') => f a s'
  | Panic msg => Panic msg
  end.

Definition get : M Stack := fun s => Ok (s, s).
Definition modify (f : Stack -> Stack) : M unit := fun s => Ok (tt, f s).
Definition panic {A} (msg : string) : M A := fun _ => Panic msg.

(** State updates, field by field. *)
Definition set_stats (f : Stats -> Stats) (s : Stack) : Stack :=
  mkStack (cfg s) (f (stats s)) (nics s) (heap s) (trace s).
Definition set_nics (f : gmap Z NIC -> gmap Z NIC) (s : Stack) : Stack :=
  mkStack (cfg s) (stats s) (f (nics s)) (heap s) (trace s).
Definition set_heap
    (f : list referencedNetworkEndpoint -> list referencedNetworkEndpoint)
    (s : Stack) : Stack :=
  mkStack (cfg s) (stats s) (nics s) (f (heap s)) (trace s).
Definition log (e : Event) (s : Stack) : Stack :=
  mkStack (cfg s) (stats s) (nics s) (heap s) (trace s ++ [e]).

Definition set_refs (v : Z) (b : referencedNetworkEndpoint) :=
  mkRef v (ep b) (nic b) (protocol b) (linkCache b) (holdsInsertRef b).
Definition set_holdsInsertRef (v : bool) (b : referencedNetworkEndpoint) :=
  mkRef (refs b) (ep b) (nic b) (protocol b) (linkCache b) v.

Definition set_spoofing (v : bool) (n : NIC) : NIC :=
  mkNIC (id n) (name n) (linkEP n) (demux n) v (promiscuous n) (primary n)
        (endpoints n) (subnets n).
Definition set_promiscuous (v : bool) (n : NIC) : NIC :=
  mkNIC (id n) (name n) (linkEP n) (demux n) (spoofing n) v (primary n)
        (endpoints n) (subnets n).
Definition set_primary (f : gmap N (list nat) -> gmap N (list nat)) (n : NIC) : NIC :=
  mkNIC (id n) (name n) (linkEP n) (demux n) (spoofing n) (promiscuous n)
        (f (primary n)) (endpoints n) (subnets n).
Definition set_endpoints (f : gmap string nat -> gmap string nat) (n : NIC) : NIC :=
  mkNIC (id n) (name n) (linkEP n) (demux n) (spoofing n) (promiscuous n)
        (primary n) (f (endpoints n)) (subnets n).
Definition set_subnets (f : list Subnet -> list Subnet) (n : NIC) : NIC :=
  mkNIC (id n) (name n) (linkEP n) (demux n) (spoofing n) (promiscuous n)
        (primary n) (endpoints n) (f (subnets n)).

Definition inc_UnknownProtocolRcvdPackets (t : Stats) : Stats :=
  mkStats (Increment (UnknownProtocolRcvdPackets t)) (MalformedRcvdPackets t)
          (IP_PacketsReceived t) (IP_InvalidAddressesReceived t).
Definition inc_MalformedRcvdPackets (t : Stats) : Stats :=
  mkStats (UnknownProtocolRcvdPackets t) (Increment (MalformedRcvdPackets t))
          (IP_PacketsReceived t) (IP_InvalidAddressesReceived t).
Definition inc_IP_PacketsReceived (t : Stats) : Stats :=
  mkStats (UnknownProtocolRcvdPackets t) (MalformedRcvdPackets t)
          (Increment (IP_PacketsReceived t)) (IP_InvalidAddressesReceived t).
Definition inc_IP_InvalidAddressesReceived (t : Stats) : Stats :=
  mkStats (UnknownProtocolRcvdPackets t) (MalformedRcvdPackets t)
          (IP_PacketsReceived t) (Increment (IP_InvalidAddressesReceived t)).

(** Reading through a pointer.  A pointer of the program is never
    dangling; in the embedding a missing NIC or binding is a panic. *)
Definition getNIC (n : NICID) : M NIC := fun s =>
  match nics s !! n with
  | Some x => Ok (x, s)
  | None => Panic "nil NIC"
  end.

Definition getB (r : RefId) : M referencedNetworkEndpoint := fun s =>
  match heap s !! r with
  | Some b => Ok (b, s)
  | None => Panic "nil referencedNetworkEndpoint"
  end.

Definition modNIC (n : NICID) (f : NIC -> NIC) : M unit :=
  modify (set_nics (fun m => match m !! n with
                             | Some x => <[n := f x]> m
                             | None => m
                             end)).

Definition modB (r : RefId)
    (f : referencedNetworkEndpoint -> referencedNetworkEndpoint) : M unit :=
  modify (set_heap (fun h => match h !! r with
                             | Some b => <[r := f b]> h
                             | None => h
                             end)).

Definition emit (e : Event) : M unit := modify (log e).

(** ** The reference count (nic.go, referencedNetworkEndpoint) *)

(** An int32 wraps around. *)
Definition wrap32 (z : Z) : Z := (z + 2 ^ 31) mod 2 ^ 32 - 2 ^ 31.

(** [atomic.AddInt32(&r.refs, d)]: adds [d] and returns the new value. *)
Definition atomicAddInt32 (r : RefId) (d : Z) : M Z :=
  b ← getB r;
  let v := wrap32 (refs b + d) in
  modB r (set_refs v);;
  mret v.

(** [ilist.List]: the list of the bindings in order; [PushBack],
    [PushFront] and [Remove]. *)
Definition PushBack (r : RefId) (l : list nat) : list nat := l ++ [r].
Definition PushFront (r : RefId) (l : list nat) : list nat := r :: l.
Definition Remove (r : RefId) (l : list nat) : list nat :=
  filter (fun x => x ≠ r) l.

Definition removeEndpointLocked (n : NICID) (r : RefId) : M unit :=
  b ← getB r;
  x ← getNIC n;
  (* Nothing to do if the reference has already been replaced with a
     different one. *)
  if decide (endpoints x !! ep b = Some r) then
    if holdsInsertRef b then
      panic "Reference count dropped to zero before being removed"
    else
      modNIC n (set_endpoints (delete (ep b)));;
      match primary x !! protocol b with
      | None => panic "nil *ilist.List"
      | Some l =>
          (* wasInList: r is linked in the list of its protocol *)
          (if decide (r ∈ l)
           then modNIC n (set_primary (<[protocol b := Remove r l]>))
           else mret tt);;
          emit (EvClose r)
      end
  else mret tt.

Definition removeEndpoint (n : NICID) (r : RefId) : M unit :=
  removeEndpointLocked n r.

(** [decRef] decrements the ref count and cleans up the endpoint once it
    reaches zero. *)
Definition decRef (r : RefId) : M unit :=
  v ← atomicAddInt32 r (-1);
  if decide (v = 0) then
    b ← getB r;
    removeEndpoint (nic b) r
  else mret tt.

Definition incRef (r : RefId) : M unit :=
  atomicAddInt32 r 1;; mret tt.

(** [tryIncRef]: increments the count unless it is zero.  In a sequential
    run the compare-and-swap succeeds at its first attempt. *)
Definition tryIncRef (r : RefId) : M bool :=
  b ← getB r;
  if decide (refs b = 0) then mret false
  else
    modB r (set_refs (wrap32 (refs b + 1)));;
    mret true.

(** ** The NIC *)

Definition newNIC (id : NICID) (name : string) (ep : LinkEndpoint)
    (demux : transportDemuxer) : NIC :=
  mkNIC id name ep demux false false ∅ ∅ [].

Definition setPromiscuousMode (n : NICID) (enable : bool) : M unit :=
  getNIC n;; modNIC n (set_promiscuous enable).

Definition isPromiscuousMode (n : NICID) : M bool :=
  x ← getNIC n; mret (promiscuous x).

Definition setSpoofing (n : NICID) (enable : bool) : M unit :=
  getNIC n;; modNIC n (set_spoofing enable).

(** [for ... { if ref.holdsInsertRef && ref.tryIncRef() { r = ref; break } }]
    over the bindings [l], in order. *)
Fixpoint scanHolders (l : list nat) : M (option nat) :=
  match l with
  | [] => mret None
  | ref :: l' =>
      b ← getB ref;
      if holdsInsertRef b then
        ok ← tryIncRef ref;
        if ok : bool then mret (Some ref) else scanHolders l'
      else scanHolders l'
  end.

(** [range m] of a Go map visits every entry once, in an order the
    language leaves open: the keys [order] are the order of one run. *)
Definition rangeMap {V} (order : list string) (m : gmap string V)
    : list (string * V) :=
  omap (fun k => (fun v => (k, v)) <$> m !! k) order.

Definition rangeOrder {V} (order : list string) (m : gmap string V) : Prop :=
  NoDup order ∧ ∀ k, k ∈ order ↔ is_Some (m !! k).

(** The subnet loop of [getMainNICAddress]. *)
Definition leastConstrained (address : Address) (sns : list Subnet) : Subnet :=
  fold_left
    (fun subnet s =>
       if Contains s address && negb (Contains subnet (ID s)) then s
       else subnet)
    sns zeroSubnet.

Definition getMainNICAddress (n : NICID) (protocol : NetworkProtocolNumber)
    (order : list string) : M (Address * Subnet * option Error) :=
  x ← getNIC n;
  (* Check for a primary endpoint. *)
  r ← match primary x !! protocol with
      | Some list => scanHolders list
      | None => mret None
      end;
  (* If no primary endpoints then check for other endpoints. *)
  r ← match r with
      | Some ref => mret (Some ref)
      | None => scanHolders (snd <$> rangeMap order (endpoints x))
      end;
  match r with
  | None => mret (EmptyString, zeroSubnet, Some ErrNoLinkAddress)
  | Some ref =>
      b ← getB ref;
      let address := ep b in
      decRef ref;;
      x ← getNIC n;
      mret (address, leastConstrained address (subnets x), None)
  end.

(** [for e := list.Front(); ...] of [primaryEndpoint]. *)
Fixpoint scanPrimary (l : list nat) : M (option nat) :=
  match l with
  | [] => mret None
  | r :: l' =>
      b ← getB r;
      if decide (ep b = IPv4Broadcast ∨ ep b = IPv4Any) then scanPrimary l'
      else
        ok ← tryIncRef r;
        if ok : bool then mret (Some r) else scanPrimary l'
  end.

Definition primaryEndpoint (n : NICID) (protocol : NetworkProtocolNumber)
    : M (option nat) :=
  x ← getNIC n;
  match primary x !! protocol with
  | None => mret None
  | Some list => scanPrimary list
  end.

(** The second half of [addAddressLocked]: wraps the new endpoint, whose
    id is [id], in a fresh binding, registers it, and inserts it in the
    primacy list of the protocol. *)
Definition registerLocked (n : NICID) (protocol : NetworkProtocolNumber)
    (id : Address) (peb : PrimaryEndpointBehavior) : M (Error + nat) :=
  s ← get;
  x ← getNIC n;
  let ref := List.length (heap s) in
  (* Set up cache if link address resolution exists for this protocol. *)
  let cache :=
    le_ResolutionRequired (linkEP x)
    && bool_decide (protocol ∈ linkAddrResolvers (cfg s)) in
  modify (set_heap (fun h => h ++ [mkRef 1 id n protocol cache true]));;
  modNIC n (set_endpoints (<[id := ref]>));;
  let l := default [] (primary x !! protocol) in
  modNIC n (set_primary (<[protocol :=
    match peb with
    | CanBePrimaryEndpoint => PushBack ref l
    | FirstPrimaryEndpoint => PushFront ref l
    | NeverPrimaryEndpoint => l
    end]>));;
  mret (inr ref).

Definition addAddressLocked (n : NICID) (protocol : NetworkProtocolNumber)
    (addr : Address) (peb : PrimaryEndpointBehavior) (replace : bool)
    : M (Error + nat) :=
  s ← get;
  match networkProtocols (cfg s) !! protocol with
  | None => mret (inl ErrUnknownProtocol)
  | Some netProto =>
      x ← getNIC n;
      (* Create the new network endpoint. *)
      match np_NewEndpoint netProto (id x) addr with
      | inl err => mret (inl err)
      | inr id =>
          match endpoints x !! id with
          | Some ref =>
              if replace then
                removeEndpointLocked n ref;;
                registerLocked n protocol id peb
              else mret (inl ErrDuplicateAddress)
          | None => registerLocked n protocol id peb
          end
      end
  end.

Definition AddAddressWithOptions (n : NICID) (protocol : NetworkProtocolNumber)
    (addr : Address) (peb : PrimaryEndpointBehavior) : M (option Error) :=
  r ← addAddressLocked n protocol addr peb false;
  mret (match r with inl err => Some err | inr _ => None end).

Definition AddAddress (n : NICID) (protocol : NetworkProtocolNumber)
    (addr : Address) : M (option Error) :=
  AddAddressWithOptions n protocol addr CanBePrimaryEndpoint.

(** [ref, ok := n.endpoints[id]; ok && ref.tryIncRef()]. *)
Definition lookupLive (n : NICID) (addr : Address) : M (option nat) :=
  x ← getNIC n;
  match endpoints x !! addr with
  | None => mret None
  | Some ref =>
      ok ← tryIncRef ref;
      mret (if ok : bool then Some ref else None)
  end.

(** [findEndpoint] finds the endpoint, if any, with the given address. *)
Definition findEndpoint (n : NICID) (protocol : NetworkProtocolNumber)
    (address : Address) (peb : PrimaryEndpointBehavior) : M (option nat) :=
  ref ← lookupLive n address;
  x ← getNIC n;
  match ref with
  | Some _ => mret ref
  | None =>
      if negb (spoofing x) then mret None
      else
        (* Try again with the lock in exclusive mode. *)
        ref ← lookupLive n address;
        match ref with
        | Some _ => mret ref
        | None =>
            r ← addAddressLocked n protocol address peb true;
            match r with
            | inr ref => modB ref (set_holdsInsertRef false);; mret (Some ref)
            | inl _ => mret None
            end
        end
  end.

(** [Addresses] returns the addresses associated with this NIC. *)
Definition Addresses (n : NICID) (order : list string)
    : M (list (NetworkProtocolNumber * Address)) :=
  x ← getNIC n;
  s ← get;
  mret (omap (fun '(nid, r) =>
               (fun b => (protocol b, nid)) <$> heap s !! r)
             (rangeMap order (endpoints x))).

Definition AddSubnet (n : NICID) (protocol : NetworkProtocolNumber)
    (subnet : Subnet) : M unit :=
  getNIC n;; modNIC n (set_subnets (fun l => l ++ [subnet])).

Definition RemoveSubnet (n : NICID) (subnet : Subnet) : M unit :=
  getNIC n;; modNIC n (set_subnets (filter (fun sub => sub ≠ subnet))).

(** [Subnets] returns the subnets of the NIC: one exact-match subnet per
    registered address, then the subnets added to it. *)
Fixpoint endpointSubnets (ks : list string) : M (list Subnet) :=
  match ks with
  | [] => mret []
  | nid :: ks' =>
      match NewSubnet nid (repeat_ff (String.length nid)) with
      | None => panic "Invalid endpoint subnet"
      | Some sn => sns ← endpointSubnets ks'; mret (sn :: sns)
      end
  end.

Definition Subnets (n : NICID) (order : list string) : M (list Subnet) :=
  x ← getNIC n;
  sns ← endpointSubnets (fst <$> rangeMap order (endpoints x));
  mret (sns ++ subnets x).

Definition ContainsSubnet (n : NICID) (order : list string) (subnet : Subnet)
    : M bool :=
  sns ← Subnets n order;
  mret (bool_decide (subnet ∈ sns)).

(** [RemoveAddress] removes an address from n. *)
Definition RemoveAddress (n : NICID) (addr : Address) : M (option Error) :=
  x ← getNIC n;
  match endpoints x !! addr with
  | None => mret (Some ErrBadLocalAddress)
  | Some r =>
      b ← getB r;
      if negb (holdsInsertRef b) then mret (Some ErrBadLocalAddress)
      else
        modB r (set_holdsInsertRef false);;
        decRef r;;
        mret None
  end.

(** [getRef]: the binding of the destination, made on demand when the
    NIC is promiscuous or a subnet of the NIC contains the address. *)
Definition getRef (n : NICID) (protocol : NetworkProtocolNumber)
    (dst : Address) : M (option nat) :=
  ref ← lookupLive n dst;
  match ref with
  | Some _ => mret ref
  | None =>
      x ← getNIC n;
      (* Check if the packet is for a subnet this NIC cares about. *)
      let promiscuous :=
        promiscuous x || existsb (fun sn => Contains sn dst) (subnets x) in
      if promiscuous then
        (* Try again with the lock in exclusive mode. *)
        ref ← lookupLive n dst;
        match ref with
        | Some _ => mret ref
        | None =>
            r ← addAddressLocked n protocol dst CanBePrimaryEndpoint true;
            match r with
            | inr ref => modB ref (set_holdsInsertRef false);; mret (Some ref)
            | inl _ => mret None
            end
        end
      else mret None
  end.

(** ** Routes of the stack *)

(** Modelled from the spec: [Stack.FindRoute] is declared in
    stack/stack.go.  It asks the routing table for a route toward the
    destination across all interfaces: the first entry that admits the NIC
    id and the remote address, and whose NIC yields a binding (the one of
    the local address, or else its primary endpoint), gives the route, which
    holds a reference on that binding; with no such entry it fails with
    [ErrNoRoute]. *)
Fixpoint findRouteLoop (tbl : list RouteEntry) (id : NICID)
    (localAddr remoteAddr : Address) (netProto : NetworkProtocolNumber)
    : M (Route * option Error) :=
  match tbl with
  | [] => mret (zeroRoute, Some ErrNoRoute)
  | e :: tbl' =>
      if (negb (id =? 0) && negb (id =? re_NIC e))
         || (negb (len remoteAddr =? 0) && negb (Match e remoteAddr))
      then findRouteLoop tbl' id localAddr remoteAddr netProto
      else
        s ← get;
        match nics s !! re_NIC e with
        | None => findRouteLoop tbl' id localAddr remoteAddr netProto
        | Some x =>
            ref ← (if negb (len localAddr =? 0)
                   then findEndpoint (re_NIC e) netProto localAddr
                                     CanBePrimaryEndpoint
                   else primaryEndpoint (re_NIC e) netProto);
            match ref with
            | None => findRouteLoop tbl' id localAddr remoteAddr netProto
            | Some ref =>
                b ← getB ref;
                let remoteAddr :=
                  if len remoteAddr =? 0 then ep b else remoteAddr in
                mret (set_NextHop (re_Gateway e)
                        (makeRoute netProto (ep b) remoteAddr
                                   (le_LinkAddress (linkEP x)) ref),
                      None)
            end
        end
  end.

Definition FindRoute (id : NICID) (localAddr remoteAddr : Address)
    (netProto : NetworkProtocolNumber) : M (Route * option Error) :=
  s ← get;
  findRouteLoop (routeTable (cfg s)) id localAddr remoteAddr netProto.

(** Modelled from the spec: [Route.Release] is declared in stack/route.go.
    It releases the route resource: the reference the route holds on its
    binding. *)
Definition Release (r : Route) : M unit :=
  emit (EvRelease r);;
  match rt_ref r with
  | Some ref => decRef ref
  | None => mret tt
  end.

(** ** Inbound dispatch *)

(** The forwarding branch of [DeliverNetworkPacket]: this NIC doesn't care
    about the packet; find a NIC that cares about the packet and forward it
    to the NIC. *)
Definition forwardPacket (n : NICID) (remoteLinkAddr : LinkAddress)
    (protocol : NetworkProtocolNumber) (dst : Address) (vv : VectorisedView)
    : M unit :=
  s ← get;
  if Forwarding (cfg s) then
    re ← FindRoute 0 EmptyString dst protocol;
    match snd re with
    | Some _ => modify (set_stats inc_IP_InvalidAddressesReceived)
    | None =>
        x ← getNIC n;
        let r := set_RemoteLinkAddress remoteLinkAddr
                   (set_LocalLinkAddress (le_LinkAddress (linkEP x))
                      (fst re)) in
        (* Found a NIC. *)
        match rt_ref r with
        | None => panic "nil referencedNetworkEndpoint"
        | Some rref =>
            b ← getB rref;
            let n' := nic b in
            ref ← lookupLive n' dst;
            match ref with
            | Some ref =>
                emit (EvHandlePacket ref r vv);;
                decRef ref
            | None =>
                (* n doesn't have a destination endpoint.
                   Send the packet out of n. *)
                emit (EvWritePacket n' r (First vv) (RemoveFirst vv) protocol)
            end;;
            (* defer r.Release() *)
            Release r
        end
    end
  else modify (set_stats inc_IP_InvalidAddressesReceived).

(** The second half of [DeliverNetworkPacket], once the packet is long
    enough: the addresses are parsed and the destination is resolved. *)
Definition dispatchPacket (n : NICID) (linkEP0 : LinkEndpoint)
    (remoteLinkAddr : LinkAddress) (protocol : NetworkProtocolNumber)
    (netProto : NetworkProtocol) (vv : VectorisedView) : M unit :=
  let src := fst (np_ParseAddresses netProto (First vv)) in
  let dst := snd (np_ParseAddresses netProto (First vv)) in
  ref ← getRef n protocol dst;
  match ref with
  | Some ref =>
      let r := set_RemoteLinkAddress remoteLinkAddr
                 (makeRoute protocol dst src (le_LinkAddress linkEP0) ref) in
      emit (EvHandlePacket ref r vv);;
      decRef ref
  | None => forwardPacket n remoteLinkAddr protocol dst vv
  end.

(** [DeliverNetworkPacket] finds the appropriate network protocol endpoint
    and hands the packet over for further processing. *)
Definition DeliverNetworkPacket (n : NICID) (linkEP0 : LinkEndpoint)
    (remoteLinkAddr localLinkAddr : LinkAddress)
    (protocol : NetworkProtocolNumber) (vv : VectorisedView) : M unit :=
  s ← get;
  match networkProtocols (cfg s) !! protocol with
  | None => modify (set_stats inc_UnknownProtocolRcvdPackets)
  | Some netProto =>
      (if bool_decide (np_Number netProto = IPv4ProtocolNumber
                       ∨ np_Number netProto = IPv6ProtocolNumber)
       then modify (set_stats inc_IP_PacketsReceived)
       else mret tt);;
      if bool_decide (vlen (First vv) < np_MinimumPacketSize netProto) then
        modify (set_stats inc_MalformedRcvdPackets)
      else dispatchPacket n linkEP0 remoteLinkAddr protocol netProto vv
  end.

(** [DeliverTransportPacket] delivers the packets to the appropriate
    transport protocol endpoint. *)
Definition DeliverTransportPacket (n : NICID) (r : Route)
    (protocol : TransportProtocolNumber) (vv : VectorisedView) : M unit :=
  s ← get;
  match transportProtocols (cfg s) !! protocol with
  | None => modify (set_stats inc_UnknownProtocolRcvdPackets)
  | Some state =>
      let transProto := proto state in
      if bool_decide (vlen (First vv) < tp_MinimumPacketSize transProto) then
        modify (set_stats inc_MalformedRcvdPackets)
      else
        match tp_ParsePorts transProto (First vv) with
        | None => modify (set_stats inc_MalformedRcvdPackets)
        | Some (srcPort, dstPort) =>
            let id := mkTransportEndpointID dstPort (LocalAddress r)
                                            srcPort (RemoteAddress r) in
            x ← getNIC n;
            emit (EvNICDemux n r protocol vv id);;
            if deliverPacket (demux x) r protocol vv id then mret tt
            else
              emit (EvStackDemux r protocol vv id);;
              if deliverPacket (stack_demux (cfg s)) r protocol vv id
              then mret tt
              else
                (* Try to deliver to per-stack default handler. *)
                handled ← match defaultHandler state with
                          | Some h =>
                              emit (EvDefaultHandler r id vv);;
                              mret (h r id vv)
                          | None => mret false
                          end;
                if handled : bool then mret tt
                else
                  emit (EvUnknownDestination r id vv);;
                  if tp_HandleUnknownDestinationPacket transProto r id vv
                  then mret tt
                  else modify (set_stats inc_MalformedRcvdPackets)
        end
  end.

(** [DeliverTransportControlPacket] delivers control packets to the
    appropriate transport protocol endpoint. *)
Definition DeliverTransportControlPacket (n : NICID) (local remote : Address)
    (net : NetworkProtocolNumber) (trans : TransportProtocolNumber)
    (typ : ControlType) (extra : N) (vv : VectorisedView) : M unit :=
  s ← get;
  match transportProtocols (cfg s) !! trans with
  | None => mret tt
  | Some state =>
      let transProto := proto state in
      if bool_decide (vlen (First vv) < 8) then mret tt
      else
        match tp_ParsePorts transProto (First vv) with
        | None => mret tt
        | Some (srcPort, dstPort) =>
            let id := mkTransportEndpointID srcPort local dstPort remote in
            x ← getNIC n;
            emit (EvNICControl n id);;
            if deliverControlPacket (demux x) net trans typ extra vv id
            then mret tt
            else
              emit (EvStackControl id);;
              if deliverControlPacket (stack_demux (cfg s)) net trans typ
                                      extra vv id
              then mret tt
              else mret tt
        end
  end.

(** * Reasoning about runs *)

(** [post m s Q]: a run of [m] from [s] that returns satisfies [Q];
    [preserves P m]: a run of [m] that returns keeps [P]. *)
Definition post {A} (m : M A) (s : Stack) (Q : A -> Stack -> Prop) : Prop :=
  match m s with
  | Ok (a, s') => Q a s'
  | Panic _ => True
  end.

Definition preserves (P : Stack -> Prop) {A} (m : M A) : Prop :=
  forall s, P s -> post m s (fun _ s' => P s').

Section Runs.
Context {A B : Type}.
Implicit Types (m : M A) (f : A -> M B) (s : Stack).

Lemma bind_Ok m f s a s' : m s = Ok (a, s') -> (m ≫= f) s = f a s'.
Proof. intros H. unfold mbind, M_bind. by rewrite H. Qed.

Lemma bind_Panic m f s msg : m s = Panic msg -> (m ≫= f) s = Panic msg.
Proof. intros H. unfold mbind, M_bind. by rewrite H. Qed.

Lemma bind_inv m f s b s'' :
  (m ≫= f) s = Ok (b, s'') ->
  exists a s', m s = Ok (a, s') /\ f a s' = Ok (b, s'').
Proof.
  unfold mbind, M_bind. destruct (m s) as [[a s']|]; [eauto | discriminate].
Qed.

Lemma post_elim m s Q a s' : post m s Q -> m s = Ok (a, s') -> Q a s'.
Proof. unfold post. intros H E. by rewrite E in H. Qed.

Lemma post_mono m s (Q Q' : A -> Stack -> Prop) :
  post m s Q -> (forall a s', Q a s' -> Q' a s') -> post m s Q'.
Proof. unfold post. destruct (m s) as [[? ?]|]; auto. Qed.

Lemma post_bind m f s (Q : B -> Stack -> Prop) :
  post m s (fun a s' => post (f a) s' Q) -> post (m ≫= f) s Q.
Proof.
  unfold post, mbind, M_bind. destruct (m s) as [[? ?]|]; auto.
Qed.

Lemma preserves_bind (P : Stack -> Prop) m f :
  preserves P m -> (forall a, preserves P (f a)) -> preserves P (m ≫= f).
Proof.
  intros Hm Hf s HP. apply post_bind.
  eapply post_mono; [by apply Hm|]. intros a s' HP'. by apply Hf.
Qed.
End Runs.

Lemma preserves_ret P {A} (a : A) : preserves P (mret a : M A).
Proof. intros s HP. done. Qed.

Lemma preserves_panic P {A} msg : preserves P (panic msg : M A).
Proof. intros s HP. done. Qed.

Lemma preserves_get P : preserves P get.
Proof. intros s HP. done. Qed.

Lemma preserves_getNIC P n : preserves P (getNIC n).
Proof. intros s HP. unfold post, getNIC. by destruct (nics s !! n). Qed.

Lemma preserves_getB P r : preserves P (getB r).
Proof. intros s HP. unfold post, getB. by destruct (heap s !! r). Qed.

Lemma preserves_modify (P : Stack -> Prop) f :
  (forall s, P s -> P (f s)) -> preserves P (modify f).
Proof. intros H s HP. by apply H. Qed.

Lemma getNIC_Ok n x s : nics s !! n = Some x -> getNIC n s = Ok (x, s).
Proof. intros H. unfold getNIC. by rewrite H. Qed.

Lemma getB_Ok r b s : heap s !! r = Some b -> getB r s = Ok (b, s).
Proof. intros H. unfold getB. by rewrite H. Qed.

Lemma getNIC_inv n x s s' : getNIC n s = Ok (x, s') -> nics s !! n = Some x /\ s' = s.
Proof. unfold getNIC. destruct (nics s !! n); naive_solver. Qed.

(** The state after [modB] and [modNIC], when the target exists. *)
Definition upd_heap (r : RefId) (b : referencedNetworkEndpoint) (s : Stack) : Stack :=
  set_heap (fun h => <[r := b]> h) s.

Definition upd_nic (n : NICID) (x : NIC) (s : Stack) : Stack :=
  set_nics (fun m => <[n := x]> m) s.

Lemma modB_Ok r f b s :
  heap s !! r = Some b -> modB r f s = Ok (tt, upd_heap r (f b) s).
Proof.
  intros H. unfold modB, modify, upd_heap, set_heap. by rewrite H.
Qed.

Lemma modNIC_Ok n f x s :
  nics s !! n = Some x -> modNIC n f s = Ok (tt, upd_nic n (f x) s).
Proof.
  intros H. unfold modNIC, modify, upd_nic, set_nics. by rewrite H.
Qed.

Lemma heap_upd_heap_eq r b s b0 :
  heap s !! r = Some b0 -> heap (upd_heap r b s) !! r = Some b.
Proof.
  intros H. simpl. apply list_lookup_insert_eq. by eapply lookup_lt_Some.
Qed.

(** ** Properties kept by the steps of the program *)

(** [stable P]: the steps that write the heap or a NIC keep [P].  Every
    function of the file is made of these steps, of reads, of events and
    of counters. *)
Record stable (P : Stack -> Prop) : Prop := mkStable {
  st_refs : forall r z, preserves P (modB r (set_refs (wrap32 z)));
  st_clear : forall r, preserves P (modB r (set_holdsInsertRef false));
  st_remove : forall n r, preserves P (removeEndpointLocked n r);
  st_add : forall n p a peb replace,
      preserves P (addAddressLocked n p a peb replace);
  st_promiscuous : forall n v, preserves P (modNIC n (set_promiscuous v));
  st_spoofing : forall n v, preserves P (modNIC n (set_spoofing v));
  st_subnets : forall n f, preserves P (modNIC n (set_subnets f))
}.

Create HintDb pres discriminated.

#[export] Hint Resolve preserves_ret preserves_panic preserves_get
  preserves_getNIC preserves_getB st_refs st_clear st_remove st_add
  st_promiscuous st_spoofing st_subnets : pres.

(** One step through a bind, a [match] or an [if] of the program. *)
Ltac pres_step :=
  lazymatch goal with
  | |- preserves _ (match ?x with _ => _ end) => destruct x
  | |- preserves _ (_ ≫= _) => apply preserves_bind; [|intros ?]
  | |- preserves _ _ => solve [eauto with pres]
  end.

Ltac pres := repeat pres_step.

Section Stable.
Variable P : Stack -> Prop.
Hypothesis HS : stable P.

Lemma preserves_atomicAddInt32 r d : preserves P (atomicAddInt32 r d).
Proof. unfold atomicAddInt32. pres. Qed.

Lemma preserves_tryIncRef r : preserves P (tryIncRef r).
Proof. unfold tryIncRef. pres. Qed.

Lemma preserves_incRef r : preserves P (incRef r).
Proof. unfold incRef, atomicAddInt32. pres. Qed.

Lemma preserves_decRef r : preserves P (decRef r).
Proof. unfold decRef, removeEndpoint, atomicAddInt32. pres. Qed.

Hint Resolve preserves_tryIncRef preserves_decRef : pres.

Lemma preserves_lookupLive n a : preserves P (lookupLive n a).
Proof. unfold lookupLive. pres. Qed.

Lemma preserves_scanPrimary l : preserves P (scanPrimary l).
Proof.
  induction l as [|r l IH]; simpl; [pres|].
  apply preserves_bind; [pres|]. intros b.
  case_decide; [exact IH|].
  apply preserves_bind; [pres|]. intros [|]; [pres | exact IH].
Qed.

Lemma preserves_scanHolders l : preserves P (scanHolders l).
Proof.
  induction l as [|r l IH]; simpl; [pres|].
  apply preserves_bind; [pres|]. intros b.
  destruct (holdsInsertRef b); [|exact IH].
  apply preserves_bind; [pres|]. intros [|]; [pres | exact IH].
Qed.

Hint Resolve preserves_lookupLive preserves_scanPrimary
  preserves_scanHolders : pres.

Lemma preserves_primaryEndpoint n p : preserves P (primaryEndpoint n p).
Proof. unfold primaryEndpoint. pres. Qed.

Lemma preserves_findEndpoint n p a peb : preserves P (findEndpoint n p a peb).
Proof. unfold findEndpoint. pres. Qed.

Lemma preserves_getRef n p a : preserves P (getRef n p a).
Proof. unfold getRef. pres. Qed.

Lemma preserves_RemoveAddress n a : preserves P (RemoveAddress n a).
Proof. unfold RemoveAddress. pres. Qed.

Lemma preserves_AddAddressWithOptions n p a peb :
  preserves P (AddAddressWithOptions n p a peb).
Proof. unfold AddAddressWithOptions. pres. Qed.

Lemma preserves_getMainNICAddress n p order :
  preserves P (getMainNICAddress n p order).
Proof. unfold getMainNICAddress. pres. Qed.

Lemma preserves_setPromiscuousMode n v : preserves P (setPromiscuousMode n v).
Proof. unfold setPromiscuousMode. pres. Qed.

Lemma preserves_setSpoofing n v : preserves P (setSpoofing n v).
Proof. unfold setSpoofing. pres. Qed.

Lemma preserves_AddSubnet n p sn : preserves P (AddSubnet n p sn).
Proof. unfold AddSubnet. pres. Qed.

Lemma preserves_RemoveSubnet n sn : preserves P (RemoveSubnet n sn).
Proof. unfold RemoveSubnet. pres. Qed.

Hint Resolve preserves_primaryEndpoint preserves_findEndpoint : pres.

Lemma preserves_findRouteLoop tbl i la ra p :
  preserves P (findRouteLoop tbl i la ra p).
Proof.
  induction tbl as [|e tbl IH]; simpl; [pres|].
  destruct (_ || _); [exact IH|].
  apply preserves_bind; [pres|]. intros s0.
  destruct (nics s0 !! re_NIC e); [|exact IH].
  apply preserves_bind; [pres|].
  intros [ref|]; [pres | exact IH].
Qed.

Lemma preserves_FindRoute i la ra p : preserves P (FindRoute i la ra p).
Proof.
  unfold FindRoute. apply preserves_bind; [pres|].
  intros s0. apply preserves_findRouteLoop.
Qed.
End Stable.

#[export] Hint Resolve preserves_atomicAddInt32 preserves_tryIncRef
  preserves_incRef preserves_decRef preserves_lookupLive
  preserves_scanPrimary preserves_scanHolders preserves_primaryEndpoint
  preserves_findEndpoint preserves_getRef preserves_RemoveAddress
  preserves_AddAddressWithOptions preserves_getMainNICAddress
  preserves_setPromiscuousMode preserves_setSpoofing preserves_AddSubnet
  preserves_RemoveSubnet preserves_FindRoute : pres.

(** ** Properties of the state that the heap and the NICs do not touch *)

(** [framed P]: [P] does not look at the heap, and is kept by the updates
    of a NIC. *)
Definition framed (P : Stack -> Prop) : Prop :=
  (forall f s, P s -> P (set_heap f s))
  /\ (forall n f, preserves P (modNIC n f)).

(** [closes_ok P]: [P] is kept when an endpoint is closed. *)
Definition closes_ok (P : Stack -> Prop) : Prop :=
  forall r s, P s -> P (log (EvClose r) s).

Section Frame.
Variable P : Stack -> Prop.
Hypothesis HF : framed P.
Hypothesis HC : closes_ok P.

Lemma framed_modB r f : preserves P (modB r f).
Proof. apply preserves_modify. intros s. apply HF. Qed.

Lemma framed_modNIC n f : preserves P (modNIC n f).
Proof. apply HF. Qed.

Hint Resolve framed_modB framed_modNIC : pres.

Lemma framed_removeEndpointLocked n r : preserves P (removeEndpointLocked n r).
Proof.
  unfold removeEndpointLocked, emit.
  repeat first [ pres_step | apply preserves_modify; intros s; apply HC ].
Qed.

Lemma framed_registerLocked n p k peb : preserves P (registerLocked n p k peb).
Proof.
  unfold registerLocked.
  repeat first [ pres_step | apply preserves_modify; intros s; apply HF ].
Qed.

Hint Resolve framed_removeEndpointLocked framed_registerLocked : pres.

Lemma framed_addAddressLocked n p a peb replace :
  preserves P (addAddressLocked n p a peb replace).
Proof. unfold addAddressLocked. pres. Qed.

Lemma framed_stable : stable P.
Proof.
  split; intros; auto using framed_modB, framed_modNIC,
    framed_removeEndpointLocked, framed_addAddressLocked.
Qed.
End Frame.

(** * The invariant of the registry, the primacy lists and the closes *)

Definition is_close (r : RefId) (e : Event) : bool :=
  match e with
  | EvClose r' => bool_decide (r' = r)
  | _ => false
  end.

(** How many times the endpoint of the binding [r] was closed. *)
Definition closes (r : RefId) (s : Stack) : nat :=
  List.length (List.filter (is_close r) (trace s)).

Definition int32 (z : Z) : Prop := - 2 ^ 31 <= z < 2 ^ 31.

(** [r] is the binding that the registry of its NIC holds for its address. *)
Definition registered (s : Stack) (r : RefId) : Prop :=
  exists b x, heap s !! r = Some b /\ nics s !! nic b = Some x
              /\ endpoints x !! ep b = Some r.

(** [r] is in some primacy list of some NIC. *)
Definition in_primary (s : Stack) (r : RefId) : Prop :=
  exists n x p l, nics s !! n = Some x /\ primary x !! p = Some l /\ r ∈ l.

(** [r] is in the registry of some NIC. *)
Definition in_registry (s : Stack) (r : RefId) : Prop :=
  exists n x k, nics s !! n = Some x /\ endpoints x !! k = Some r.

Record inv (s : Stack) : Prop := mkInv {
  (* the registry of a NIC maps an address to a binding of this NIC for
     this address, whose protocol has a primacy list *)
  inv_registry : forall n x k r,
    nics s !! n = Some x -> endpoints x !! k = Some r ->
    exists b, heap s !! r = Some b /\ ep b = k /\ nic b = n
              /\ is_Some (primary x !! protocol b);
  (* a binding in the primacy list of a protocol is of this protocol and
     is registered *)
  inv_primary : forall n x p l r,
    nics s !! n = Some x -> primary x !! p = Some l -> r ∈ l ->
    exists b, heap s !! r = Some b /\ protocol b = p
              /\ endpoints x !! ep b = Some r;
  (* a binding is registered and was never closed, or it is out of the
     registry, holds no registration bit, and was closed once *)
  inv_heap : forall r b,
    heap s !! r = Some b ->
    int32 (refs b)
    /\ exists x, nics s !! nic b = Some x
         /\ ((endpoints x !! ep b = Some r /\ closes r s = 0%nat)
             \/ (endpoints x !! ep b ≠ Some r /\ closes r s = 1%nat
                 /\ holdsInsertRef b = false));
  inv_fresh : forall r, heap s !! r = None -> closes r s = 0%nat
}.

Lemma closes_log r e s :
  closes r (log e s) = (closes r s + (if is_close r e then 1 else 0))%nat.
Proof.
  unfold closes. simpl. rewrite List.filter_app, List.length_app. simpl.
  by destruct (is_close r e).
Qed.

Lemma wrap32_int32 z : int32 (wrap32 z).
Proof.
  unfold int32, wrap32.
  pose proof (Z.mod_pos_bound (z + 2 ^ 31) (2 ^ 32) ltac:(lia)). lia.
Qed.

Lemma wrap32_id z : int32 z -> wrap32 z = z.
Proof.
  unfold int32, wrap32. intros H.
  rewrite Z.mod_small by lia. lia.
Qed.

(** Two heaps with the same bindings up to the count and a cleared
    registration bit; two NIC maps with the same registries and lists. *)
Definition heap_sim (h h' : list referencedNetworkEndpoint) : Prop :=
  forall r,
    match h !! r, h' !! r with
    | Some b, Some b' =>
        ep b' = ep b /\ nic b' = nic b /\ protocol b' = protocol b
        /\ (holdsInsertRef b' = true -> holdsInsertRef b = true)
        /\ int32 (refs b')
    | None, None => True
    | _, _ => False
    end.

Definition nics_sim (m m' : gmap Z NIC) : Prop :=
  forall n,
    match m !! n, m' !! n with
    | Some x, Some x' => endpoints x' = endpoints x /\ primary x' = primary x
    | None, None => True
    | _, _ => False
    end.

Lemma inv_sim s s' :
  inv s ->
  nics_sim (nics s) (nics s') -> heap_sim (heap s) (heap s') ->
  (forall r, closes r s' = closes r s) ->
  inv s'.
Proof.
  intros [HR HP HH HFr] Hn Hh Hc. split.
  - intros n x' k r Hx' Hk. specialize (Hn n). rewrite Hx' in Hn.
    destruct (nics s !! n) as [x|] eqn:Hx; [|done]. destruct Hn as [He Hp].
    rewrite He in Hk. destruct (HR n x k r Hx Hk) as (b & Hb & ? & ? & ?).
    specialize (Hh r). rewrite Hb in Hh.
    destruct (heap s' !! r) as [b'|]; [|done].
    destruct Hh as (? & ? & Hpr & _). exists b'. rewrite Hpr, Hp. naive_solver.
  - intros n x' p l r Hx' Hl Hr. specialize (Hn n). rewrite Hx' in Hn.
    destruct (nics s !! n) as [x|] eqn:Hx; [|done]. destruct Hn as [He Hp].
    rewrite Hp in Hl. destruct (HP n x p l r Hx Hl Hr) as (b & Hb & ? & ?).
    specialize (Hh r). rewrite Hb in Hh.
    destruct (heap s' !! r) as [b'|]; [|done].
    destruct Hh as (Hep & ? & Hpr & _). exists b'. rewrite Hep, He. naive_solver.
  - intros r b' Hb'. specialize (Hh r). rewrite Hb' in Hh.
    destruct (heap s !! r) as [b|] eqn:Hb; [|done].
    destruct Hh as (Hep & Hnic & Hpr & Hbit & Hrange). split; [done|].
    destruct (HH r b Hb) as (_ & x & Hx & Hcase).
    specialize (Hn (nic b)). rewrite Hx in Hn.
    destruct (nics s' !! nic b) as [x'|] eqn:Hx'; [|done].
    destruct Hn as [He Hp]. exists x'. rewrite Hnic, Hep, He, Hc.
    split; [done|]. destruct Hcase as [?|(? & ? & Hf)]; [by left|right].
    split_and!; [done..|]. destruct (holdsInsertRef b') eqn:E; [|done].
    rewrite Hbit in Hf; done.
  - intros r Hr. rewrite Hc. apply HFr. specialize (Hh r). rewrite Hr in Hh.
    by destruct (heap s !! r).
Qed.

Lemma heap_sim_refl s : inv s -> heap_sim (heap s) (heap s).
Proof.
  intros Hinv r. destruct (heap s !! r) as [b|] eqn:Hb; [|done].
  split_and!; try done. by destruct (inv_heap s Hinv r b Hb).
Qed.

Lemma nics_sim_refl m : nics_sim m m.
Proof. intros n. by destruct (m !! n). Qed.

Lemma heap_sim_upd s r b b' :
  inv s -> heap s !! r = Some b ->
  ep b' = ep b -> nic b' = nic b -> protocol b' = protocol b ->
  (holdsInsertRef b' = true -> holdsInsertRef b = true) -> int32 (refs b') ->
  heap_sim (heap s) (<[r := b']> (heap s)).
Proof.
  intros Hinv Hb ? ? ? ? ? r'. destruct (decide (r = r')) as [<-|Hne].
  - rewrite Hb, list_lookup_insert_eq by (by eapply lookup_lt_Some). done.
  - rewrite list_lookup_insert_ne by done. by apply heap_sim_refl.
Qed.

Lemma nics_sim_upd (m : gmap Z NIC) n x x' :
  m !! n = Some x -> endpoints x' = endpoints x -> primary x' = primary x ->
  nics_sim m (<[n := x']> m).
Proof.
  intros Hx ? ? n'. destruct (decide (n = n')) as [<-|Hne].
  - by rewrite Hx, lookup_insert_eq.
  - rewrite lookup_insert_ne by done. apply nics_sim_refl.
Qed.

Lemma inv_modB s r f :
  inv s ->
  (forall b, heap s !! r = Some b ->
     ep (f b) = ep b /\ nic (f b) = nic b /\ protocol (f b) = protocol b
     /\ (holdsInsertRef (f b) = true -> holdsInsertRef b = true)
     /\ int32 (refs (f b))) ->
  post (modB r f) s (fun _ s' => inv s').
Proof.
  intros Hinv Hf. unfold post, modB, modify. simpl.
  apply (inv_sim s); [done|apply nics_sim_refl| |done]. simpl.
  destruct (heap s !! r) as [b|] eqn:Hb; [|by apply heap_sim_refl].
  destruct (Hf b eq_refl) as (? & ? & ? & ? & ?). by eapply heap_sim_upd.
Qed.

Lemma inv_modNIC s n f :
  inv s ->
  (forall x, endpoints (f x) = endpoints x /\ primary (f x) = primary x) ->
  post (modNIC n f) s (fun _ s' => inv s').
Proof.
  intros Hinv Hf. unfold post, modNIC, modify. simpl.
  apply (inv_sim s); [done| |simpl; by apply heap_sim_refl|done]. simpl.
  destruct (nics s !! n) as [x|] eqn:Hx; [|apply nics_sim_refl].
  destruct (Hf x). by eapply nics_sim_upd.
Qed.

Lemma inv_set_stats s f : inv s -> inv (set_stats f s).
Proof.
  intros Hinv. apply (inv_sim s); [done|apply nics_sim_refl| |done].
  simpl. by apply heap_sim_refl.
Qed.

Lemma inv_log s e : inv s -> (forall r, is_close r e = false) -> inv (log e s).
Proof.
  intros Hinv He. apply (inv_sim s); [done|apply nics_sim_refl| |].
  - simpl. by apply heap_sim_refl.
  - intros r. rewrite closes_log, He. lia.
Qed.

(** ** What [removeEndpointLocked] and [registerLocked] do *)

Lemma upd_nic_twice n x x' s : upd_nic n x' (upd_nic n x s) = upd_nic n x' s.
Proof. unfold upd_nic, set_nics. simpl. by rewrite insert_insert_eq. Qed.

Lemma nics_upd_nic_eq n x s : nics (upd_nic n x s) !! n = Some x.
Proof. simpl. apply lookup_insert_eq. Qed.

Lemma Remove_notin r (l : list nat) : r ∉ l -> Remove r l = l.
Proof.
  intros H. unfold Remove. induction l as [|y l IH]; [done|].
  apply not_elem_of_cons in H as [Hne Hl].
  rewrite filter_cons_True by done. by rewrite IH.
Qed.

Lemma elem_of_Remove r r' (l : list nat) : r' ∈ Remove r l <-> r' ≠ r /\ r' ∈ l.
Proof. unfold Remove. by rewrite list_elem_of_filter. Qed.

Lemma set_primary_id f x : f (primary x) = primary x -> set_primary f x = x.
Proof. intros H. destruct x. unfold set_primary. simpl in *. by rewrite H. Qed.

(** The NIC after the teardown of the binding [b] at [r]. *)
Definition torn_nic (r : RefId) (b : referencedNetworkEndpoint) (l : list nat)
    (x : NIC) : NIC :=
  set_primary (<[protocol b := Remove r l]>) (set_endpoints (delete (ep b)) x).

Definition torn (n : NICID) (r : RefId) (b : referencedNetworkEndpoint)
    (l : list nat) (x : NIC) (s : Stack) : Stack :=
  log (EvClose r) (upd_nic n (torn_nic r b l x) s).

Lemma removeEndpointLocked_run s n r b x l :
  heap s !! r = Some b -> nics s !! n = Some x ->
  endpoints x !! ep b = Some r -> holdsInsertRef b = false ->
  primary x !! protocol b = Some l ->
  removeEndpointLocked n r s = Ok (tt, torn n r b l x s).
Proof.
  intros Hb Hx Hreg Hbit Hl. unfold removeEndpointLocked.
  rewrite (bind_Ok _ _ _ _ _ (getB_Ok _ _ _ Hb)).
  rewrite (bind_Ok _ _ _ _ _ (getNIC_Ok _ _ _ Hx)).
  rewrite decide_True by done. rewrite Hbit.
  rewrite (bind_Ok _ _ _ _ _ (modNIC_Ok _ _ _ _ Hx)). rewrite Hl.
  unfold torn, torn_nic. destruct (decide (r ∈ l)) as [Hin|Hin].
  - rewrite (bind_Ok _ _ _ _ _ (modNIC_Ok _ _ _ _ (nics_upd_nic_eq _ _ _))).
    by rewrite upd_nic_twice.
  - rewrite Remove_notin by done.
    rewrite (set_primary_id _ (set_endpoints _ x)); [done|].
    simpl. by apply insert_id.
Qed.

Lemma removeEndpointLocked_noop s n r b x :
  heap s !! r = Some b -> nics s !! n = Some x ->
  endpoints x !! ep b ≠ Some r ->
  removeEndpointLocked n r s = Ok (tt, s).
Proof.
  intros Hb Hx Hreg. unfold removeEndpointLocked.
  rewrite (bind_Ok _ _ _ _ _ (getB_Ok _ _ _ Hb)).
  rewrite (bind_Ok _ _ _ _ _ (getNIC_Ok _ _ _ Hx)).
  by rewrite decide_False by done.
Qed.

Lemma removeEndpointLocked_panic s n r b x :
  heap s !! r = Some b -> nics s !! n = Some x ->
  endpoints x !! ep b = Some r -> holdsInsertRef b = true ->
  removeEndpointLocked n r s
  = Panic "Reference count dropped to zero before being removed".
Proof.
  intros Hb Hx Hreg Hbit. unfold removeEndpointLocked.
  rewrite (bind_Ok _ _ _ _ _ (getB_Ok _ _ _ Hb)).
  rewrite (bind_Ok _ _ _ _ _ (getNIC_Ok _ _ _ Hx)).
  rewrite decide_True by done. by rewrite Hbit.
Qed.

(** The binding, the NIC and the state after [registerLocked]. *)
Definition fresh_ref (n : NICID) (p : NetworkProtocolNumber) (k : Address)
    (x : NIC) (s : Stack) : referencedNetworkEndpoint :=
  mkRef 1 k n p
    (le_ResolutionRequired (linkEP x)
     && bool_decide (p ∈ linkAddrResolvers (cfg s))) true.

Definition pushed (peb : PrimaryEndpointBehavior) (ref : RefId) (l : list nat)
    : list nat :=
  match peb with
  | CanBePrimaryEndpoint => PushBack ref l
  | FirstPrimaryEndpoint => PushFront ref l
  | NeverPrimaryEndpoint => l
  end.

Definition registered_nic (p : NetworkProtocolNumber) (k : Address)
    (peb : PrimaryEndpointBehavior) (ref : RefId) (x : NIC) : NIC :=
  set_primary (<[p := pushed peb ref (default [] (primary x !! p))]>)
              (set_endpoints (<[k := ref]>) x).

Definition registered_state (n : NICID) (p : NetworkProtocolNumber)
    (k : Address) (peb : PrimaryEndpointBehavior) (x : NIC) (s : Stack) : Stack :=
  upd_nic n (registered_nic p k peb (List.length (heap s)) x)
          (set_heap (fun h => h ++ [fresh_ref n p k x s]) s).

Lemma registerLocked_run s n p k peb x :
  nics s !! n = Some x ->
  registerLocked n p k peb s
  = Ok (inr (List.length (heap s)), registered_state n p k peb x s).
Proof.
  intros Hx. unfold registerLocked.
  rewrite (bind_Ok _ _ _ _ _ (eq_refl : get s = Ok (s, s))).
  rewrite (bind_Ok _ _ _ _ _ (getNIC_Ok _ _ _ Hx)).
  set (s1 := set_heap (fun h => h ++ [fresh_ref n p k x s]) s).
  rewrite (bind_Ok _ _ _ tt s1) by done.
  assert (nics s1 !! n = Some x) as Hx1 by done.
  rewrite (bind_Ok _ _ _ _ _ (modNIC_Ok _ _ _ _ Hx1)).
  rewrite (bind_Ok _ _ _ _ _ (modNIC_Ok _ _ _ _ (nics_upd_nic_eq _ _ _))).
  rewrite upd_nic_twice. reflexivity.
Qed.

(** ** The invariant is kept *)

Lemma closes_torn n r b l x s r' :
  closes r' (torn n r b l x s)
  = (closes r' s + (if decide (r = r') then 1 else 0))%nat.
Proof.
  unfold torn. rewrite closes_log. simpl.
  unfold closes at 1. simpl. fold (closes r' s).
  destruct (decide (r = r')); [by rewrite bool_decide_eq_true_2|].
  by rewrite bool_decide_eq_false_2.
Qed.

Lemma inv_torn s n r b x l :
  inv s -> heap s !! r = Some b -> nics s !! n = Some x ->
  endpoints x !! ep b = Some r -> holdsInsertRef b = false ->
  primary x !! protocol b = Some l ->
  inv (torn n r b l x s).
Proof.
  intros Hinv Hb Hx Hreg Hbit Hl.
  destruct Hinv as [HR HP HH HFr].
  assert (nic b = n) as Hnic.
  { destruct (HR n x _ r Hx Hreg) as (b' & Hb' & _ & ? & _). congruence. }
  assert (forall r0 b0, heap s !! r0 = Some b0 ->
            endpoints x !! ep b0 = Some r0 -> r0 ≠ r -> ep b0 ≠ ep b) as Hdiff.
  { intros r0 b0 Hb0 Hr0 Hne Heq. rewrite Heq in Hr0. congruence. }
  split.
  - intros n0 x0 k r0 Hx0 Hk. simpl in Hx0.
    apply lookup_insert_Some in Hx0 as [[<- <-]|[Hne Hx0]].
    + simpl in Hk. apply lookup_delete_Some in Hk as [Hkne Hk].
      destruct (HR n x k r0 Hx Hk) as (b0 & Hb0 & ? & ? & [l0 Hl0]).
      exists b0. split_and!; try done. simpl.
      destruct (decide (protocol b = protocol b0)) as [<-|Hpne].
      * rewrite lookup_insert_eq. eauto.
      * rewrite lookup_insert_ne by done. eauto.
    + exact (HR n0 x0 k r0 Hx0 Hk).
  - intros n0 x0 p l0 r0 Hx0 Hl0 Hr0. simpl in Hx0.
    apply lookup_insert_Some in Hx0 as [[<- <-]|[Hne Hx0]].
    + simpl in Hl0. apply lookup_insert_Some in Hl0 as [[<- <-]|[Hpne Hl0]].
      * apply elem_of_Remove in Hr0 as [Hrne Hr0].
        destruct (HP n x _ l r0 Hx Hl Hr0) as (b0 & Hb0 & ? & Hreg0).
        exists b0. split_and!; try done. simpl.
        rewrite lookup_delete_ne; [done|]. intros Heq. symmetry in Heq.
        by eapply Hdiff.
      * destruct (HP n x p l0 r0 Hx Hl0 Hr0) as (b0 & Hb0 & Hp0 & Hreg0).
        exists b0. split_and!; try done. simpl.
        rewrite lookup_delete_ne; [done|]. intros Heq. symmetry in Heq.
        eapply Hdiff; [done..| |done]. intros ->. congruence.
    + exact (HP n0 x0 p l0 r0 Hx0 Hl0 Hr0).
  - intros r0 b0 Hb0. simpl in Hb0.
    destruct (HH r0 b0 Hb0) as (Hrange & x0 & Hx0 & Hcase). split; [done|].
    rewrite closes_torn. destruct (decide (nic b0 = n)) as [Hn0|Hn0].
    + assert (x0 = x) as -> by congruence.
      exists (torn_nic r b l x). split; [simpl; rewrite Hn0; apply lookup_insert_eq|].
      simpl. destruct (decide (r = r0)) as [<-|Hrne].
      * assert (b0 = b) as -> by congruence. right.
        rewrite lookup_delete_eq. split_and!; [done| |done].
        destruct Hcase as [[_ ->]|[? _]]; [done|congruence].
      * rewrite Nat.add_0_r. destruct Hcase as [[Hreg0 ?]|(Hreg0 & ? & ?)].
        -- left. split; [|done]. rewrite lookup_delete_ne; [done|].
           intros Heq. symmetry in Heq. by eapply Hdiff.
        -- right. split_and!; try done. intros Hd.
           apply lookup_delete_Some in Hd as [_ Hd]. done.
    + exists x0. split; [simpl; rewrite lookup_insert_ne; [done|congruence]|].
      destruct (decide (r = r0)) as [<-|Hrne]; [congruence|].
      by rewrite Nat.add_0_r.
  - intros r0 Hr0. simpl in Hr0. rewrite closes_torn.
    destruct (decide (r = r0)) as [<-|Hrne]; [congruence|].
    rewrite Nat.add_0_r. by apply HFr.
Qed.

Lemma inv_registered_state s n p k peb x :
  inv s -> nics s !! n = Some x -> endpoints x !! k = None ->
  inv (registered_state n p k peb x s).
Proof.
  intros Hinv Hx Hk. destruct Hinv as [HR HP HH HFr].
  set (ref := List.length (heap s)).
  assert (forall r0 b0, heap s !! r0 = Some b0 ->
            (heap s ++ [fresh_ref n p k x s]) !! r0 = Some b0) as Hold.
  { intros r0 b0 Hb0. by apply lookup_app_l_Some. }
  assert ((heap s ++ [fresh_ref n p k x s]) !! ref = Some (fresh_ref n p k x s))
    as Hnew.
  { unfold ref. by rewrite list_lookup_middle. }
  assert (forall r0 b0, heap s !! r0 = Some b0 -> r0 ≠ ref) as Hlt.
  { intros r0 b0 Hb0. apply lookup_lt_Some in Hb0. unfold ref. lia. }
  assert (forall r0 b0, heap s !! r0 = Some b0 ->
            endpoints x !! ep b0 = Some r0 -> ep b0 ≠ k) as Hkne.
  { intros r0 b0 _ Hr0 Heq. rewrite Heq in Hr0. congruence. }
  assert (forall r0, r0 ∈ pushed peb ref (default [] (primary x !! p)) ->
            r0 = ref \/ exists l, primary x !! p = Some l /\ r0 ∈ l) as Hpush.
  { intros r0 Hr0. destruct (primary x !! p) as [l|]; simpl in Hr0.
    - destruct peb; simpl in Hr0.
      + apply elem_of_app in Hr0 as [?|Hr0]; [eauto|].
        apply list_elem_of_singleton in Hr0. auto.
      + apply elem_of_cons in Hr0 as [?|?]; eauto.
      + eauto.
    - destruct peb; simpl in Hr0.
      + apply list_elem_of_singleton in Hr0. auto.
      + apply list_elem_of_singleton in Hr0. auto.
      + by apply elem_of_nil in Hr0. }
  split.
  - intros n0 x0 k0 r0 Hx0 Hk0. simpl in Hx0.
    apply lookup_insert_Some in Hx0 as [[<- <-]|[Hne Hx0]].
    + simpl in Hk0. apply lookup_insert_Some in Hk0 as [[<- <-]|[Hkk Hk0]].
      * exists (fresh_ref n p k x s). simpl. split_and!; try done.
        rewrite lookup_insert_eq. eauto.
      * destruct (HR n x k0 r0 Hx Hk0) as (b0 & Hb0 & ? & ? & [l0 Hl0]).
        exists b0. simpl. split_and!; auto.
        destruct (decide (p = protocol b0)) as [<-|Hpne].
        -- rewrite lookup_insert_eq. eauto.
        -- rewrite lookup_insert_ne by done. eauto.
    + destruct (HR n0 x0 k0 r0 Hx0 Hk0) as (b0 & Hb0 & ?).
      exists b0. simpl. split; auto.
  - intros n0 x0 p0 l0 r0 Hx0 Hl0 Hr0. simpl in Hx0.
    apply lookup_insert_Some in Hx0 as [[<- <-]|[Hne Hx0]].
    + simpl in Hl0.
      assert (r0 = ref \/ exists l, primary x !! p0 = Some l /\ r0 ∈ l) as [->|(l1 & Hl1 & Hr1)].
      { apply lookup_insert_Some in Hl0 as [[<- <-]|[Hpne Hl0]]; [auto|eauto]. }
      * apply lookup_insert_Some in Hl0 as [[<- <-]|[Hpne Hl0]].
        -- exists (fresh_ref n p k x s). simpl. split_and!; try done.
           apply lookup_insert_eq.
        -- destruct (HP n x p0 l0 ref Hx Hl0 Hr0) as (b0 & Hb0 & _).
           by destruct (Hlt _ _ Hb0).
      * destruct (HP n x p0 l1 r0 Hx Hl1 Hr1) as (b0 & Hb0 & ? & Hreg0).
        exists b0. simpl. split_and!; auto.
        rewrite lookup_insert_ne; [done|]. intros Heq. symmetry in Heq.
        by eapply Hkne.
    + destruct (HP n0 x0 p0 l0 r0 Hx0 Hl0 Hr0) as (b0 & Hb0 & ?).
      exists b0. simpl. split; auto.
  - intros r0 b0 Hb0. simpl in Hb0.
    assert (forall r1, closes r1 (registered_state n p k peb x s) = closes r1 s)
      as Hcl by done.
    rewrite Hcl. apply lookup_snoc_Some in Hb0 as [[Hlen Hb0]|[-> <-]].
    + destruct (HH r0 b0 Hb0) as (Hrange & x0 & Hx0 & Hcase). split; [done|].
      destruct (decide (nic b0 = n)) as [Hn0|Hn0].
      * assert (x0 = x) as -> by congruence.
        exists (registered_nic p k peb ref x).
        split; [simpl; rewrite Hn0; apply lookup_insert_eq|]. simpl.
        destruct Hcase as [[Hreg0 ?]|(Hreg0 & ? & ?)].
        -- left. split; [|done]. rewrite lookup_insert_ne; [done|].
           intros Heq. symmetry in Heq. by eapply Hkne.
        -- right. split_and!; try done. intros Hd.
           apply lookup_insert_Some in Hd as [[_ Hd]|[_ Hd]]; [|done].
           by eapply Hlt.
      * exists x0. split; [simpl; rewrite lookup_insert_ne; [done|congruence]|].
        done.
    + simpl. split; [unfold int32; lia|].
      exists (registered_nic p k peb ref x). split; [apply lookup_insert_eq|].
      left. simpl. split; [apply lookup_insert_eq|].
      apply HFr. apply lookup_ge_None_2. lia.
  - intros r0 Hr0. simpl in Hr0.
    apply lookup_ge_None_1 in Hr0. rewrite length_app in Hr0. simpl in Hr0.
    apply HFr. apply lookup_ge_None_2. lia.
Qed.

Lemma getB_Panic r s :
  heap s !! r = None -> getB r s = Panic "nil referencedNetworkEndpoint".
Proof. intros H. unfold getB. by rewrite H. Qed.

Lemma getNIC_Panic n s : nics s !! n = None -> getNIC n s = Panic "nil NIC".
Proof. intros H. unfold getNIC. by rewrite H. Qed.

(** A run of [removeEndpointLocked] that returns did nothing, or tore
    the binding down. *)
Lemma removeEndpointLocked_inv s n r s' :
  inv s -> removeEndpointLocked n r s = Ok (tt, s') ->
  exists b x, heap s !! r = Some b /\ nics s !! n = Some x
    /\ ((endpoints x !! ep b ≠ Some r /\ s' = s)
        \/ (endpoints x !! ep b = Some r /\ holdsInsertRef b = false
            /\ nic b = n
            /\ exists l, primary x !! protocol b = Some l
                         /\ s' = torn n r b l x s)).
Proof.
  intros Hinv E.
  destruct (heap s !! r) as [b|] eqn:Hb.
  2: { unfold removeEndpointLocked in E.
       rewrite (bind_Panic _ _ _ _ (getB_Panic _ _ Hb)) in E. done. }
  destruct (nics s !! n) as [x|] eqn:Hx.
  2: { unfold removeEndpointLocked in E.
       rewrite (bind_Ok _ _ _ _ _ (getB_Ok _ _ _ Hb)) in E.
       rewrite (bind_Panic _ _ _ _ (getNIC_Panic _ _ Hx)) in E. done. }
  exists b, x. split_and!; try done.
  destruct (decide (endpoints x !! ep b = Some r)) as [Hreg|Hreg].
  - right. destruct (holdsInsertRef b) eqn:Hbit.
    { by rewrite (removeEndpointLocked_panic _ _ _ _ _ Hb Hx Hreg Hbit) in E. }
    destruct (inv_registry s Hinv n x _ r Hx Hreg) as (b' & Hb' & _ & Hn & [l Hl]).
    assert (b' = b) as -> by congruence.
    rewrite (removeEndpointLocked_run _ _ _ _ _ _ Hb Hx Hreg Hbit Hl) in E.
    split_and!; try done. exists l. split; congruence.
  - left. rewrite (removeEndpointLocked_noop _ _ _ _ _ Hb Hx Hreg) in E.
    split; congruence.
Qed.

Lemma inv_removeEndpointLocked n r : preserves inv (removeEndpointLocked n r).
Proof.
  intros s Hinv. unfold post.
  destruct (removeEndpointLocked n r s) as [[[] s']|] eqn:E; [|done].
  destruct (removeEndpointLocked_inv _ _ _ _ Hinv E)
    as (b & x & Hb & Hx & [[_ ->]|(Hreg & Hbit & _ & l & Hl & ->)]); [done|].
  by apply inv_torn.
Qed.

(** [addAddressLocked], once the protocol and the NIC are found. *)
Lemma addAddressLocked_eq s n p a peb replace np x :
  networkProtocols (cfg s) !! p = Some np -> nics s !! n = Some x ->
  addAddressLocked n p a peb replace s
  = match np_NewEndpoint np (id x) a with
    | inl err => Ok (inl err, s)
    | inr k =>
        match endpoints x !! k with
        | Some ref =>
            if replace
            then (removeEndpointLocked n ref;; registerLocked n p k peb) s
            else Ok (inl ErrDuplicateAddress, s)
        | None => registerLocked n p k peb s
        end
    end.
Proof.
  intros Hnp Hx. unfold addAddressLocked.
  rewrite (bind_Ok _ _ _ _ _ (eq_refl : get s = Ok (s, s))). rewrite Hnp.
  rewrite (bind_Ok _ _ _ _ _ (getNIC_Ok _ _ _ Hx)).
  destruct (np_NewEndpoint np (id x) a) as [err|k]; [done|].
  destruct (endpoints x !! k); [|done]. by destruct replace.
Qed.

Lemma addAddressLocked_unknown s n p a peb replace :
  networkProtocols (cfg s) !! p = None ->
  addAddressLocked n p a peb replace s = Ok (inl ErrUnknownProtocol, s).
Proof.
  intros Hnp. unfold addAddressLocked.
  rewrite (bind_Ok _ _ _ _ _ (eq_refl : get s = Ok (s, s))). by rewrite Hnp.
Qed.

Lemma endpoints_torn_nic r b l x : endpoints (torn_nic r b l x) !! ep b = None.
Proof. simpl. apply lookup_delete_eq. Qed.

Lemma inv_addAddressLocked n p a peb replace :
  preserves inv (addAddressLocked n p a peb replace).
Proof.
  intros s Hinv. unfold post.
  destruct (networkProtocols (cfg s) !! p) as [np|] eqn:Hnp.
  2: { by rewrite addAddressLocked_unknown. }
  destruct (nics s !! n) as [x|] eqn:Hx.
  2: { unfold addAddressLocked.
       rewrite (bind_Ok _ _ _ _ _ (eq_refl : get s = Ok (s, s))). rewrite Hnp.
       by rewrite (bind_Panic _ _ _ _ (getNIC_Panic _ _ Hx)). }
  rewrite (addAddressLocked_eq _ _ _ _ _ _ _ _ Hnp Hx).
  destruct (np_NewEndpoint np (id x) a) as [err|k]; [done|].
  destruct (endpoints x !! k) as [old|] eqn:Hk.
  - destruct replace; [|done].
    destruct (removeEndpointLocked n old s) as [[[] s1]|] eqn:E.
    2: { by rewrite (bind_Panic _ _ _ _ E). }
    rewrite (bind_Ok _ _ _ _ _ E).
    destruct (removeEndpointLocked_inv _ _ _ _ Hinv E)
      as (b & x' & Hb & Hx' & Hcase).
    assert (x' = x) as -> by congruence.
    destruct (inv_registry s Hinv n x k old Hx Hk) as (b' & Hb' & Hep & _).
    assert (b' = b) as -> by congruence. subst k.
    destruct Hcase as [[Hreg _]|(Hreg & Hbit & _ & l & Hl & ->)]; [done|].
    rewrite (registerLocked_run _ _ _ _ _ (torn_nic old b l x))
      by apply nics_upd_nic_eq.
    apply inv_registered_state; [by apply inv_torn|apply nics_upd_nic_eq|].
    apply endpoints_torn_nic.
  - rewrite (registerLocked_run _ _ _ _ _ x Hx).
    by apply inv_registered_state.
Qed.

Lemma inv_stable : stable inv.
Proof.
  split.
  - intros r z s Hinv. apply inv_modB; [done|]. intros b _. simpl.
    split_and!; try done. apply wrap32_int32.
  - intros r s Hinv. apply inv_modB; [done|]. intros b Hb. simpl.
    split_and!; try done. by destruct (inv_heap s Hinv r b Hb).
  - apply inv_removeEndpointLocked.
  - apply inv_addAddressLocked.
  - intros n v s Hinv. by apply inv_modNIC.
  - intros n v s Hinv. by apply inv_modNIC.
  - intros n f s Hinv. by apply inv_modNIC.
Qed.

#[export] Hint Resolve inv_stable : pres.

(** [quiet P]: [P] is kept by the counters of dropped packets and by the
    events other than the close of an endpoint. *)
Record quiet (P : Stack -> Prop) : Prop := mkQuiet {
  qt_unknown : preserves P (modify (set_stats inc_UnknownProtocolRcvdPackets));
  qt_malformed : preserves P (modify (set_stats inc_MalformedRcvdPackets));
  qt_invalid : preserves P (modify (set_stats inc_IP_InvalidAddressesReceived));
  qt_emit : forall e, (forall r, is_close r e = false) -> preserves P (emit e)
}.

#[export] Hint Resolve qt_unknown qt_malformed qt_invalid : pres.

Section Dispatch.
Variable P : Stack -> Prop.
Hypothesis HS : stable P.
Hypothesis HQ : quiet P.

Lemma preserves_Release rt : preserves P (Release rt).
Proof.
  unfold Release. apply preserves_bind; [by apply qt_emit|].
  intros _. pres.
Qed.

Hint Resolve preserves_Release : pres.

Lemma preserves_forwardPacket n rl p dst vv :
  preserves P (forwardPacket n rl p dst vv).
Proof.
  unfold forwardPacket. repeat first [ pres_step | by apply qt_emit ].
Qed.

Hint Resolve preserves_forwardPacket : pres.

Lemma preserves_dispatchPacket n le rl p np vv :
  preserves P (dispatchPacket n le rl p np vv).
Proof.
  unfold dispatchPacket. repeat first [ pres_step | by apply qt_emit ].
Qed.

Hint Resolve preserves_dispatchPacket : pres.

Lemma preserves_DeliverNetworkPacket n le rl ll p vv :
  preserves P (modify (set_stats inc_IP_PacketsReceived)) ->
  preserves P (DeliverNetworkPacket n le rl ll p vv).
Proof. intros HIP. unfold DeliverNetworkPacket. pres. Qed.

Lemma preserves_DeliverTransportPacket n rt p vv :
  preserves P (DeliverTransportPacket n rt p vv).
Proof.
  unfold DeliverTransportPacket.
  repeat first [ pres_step | by apply qt_emit ].
Qed.

Lemma preserves_DeliverTransportControlPacket n l r net trans typ extra vv :
  preserves P (DeliverTransportControlPacket n l r net trans typ extra vv).
Proof.
  unfold DeliverTransportControlPacket.
  repeat first [ pres_step | by apply qt_emit ].
Qed.

Lemma preserves_endpointSubnets ks : preserves P (endpointSubnets ks).
Proof.
  induction ks as [|k ks IH]; simpl; [pres|].
  destruct (NewSubnet _ _); [|pres].
  apply preserves_bind; [exact IH|]. intros ?. pres.
Qed.

Hint Resolve preserves_endpointSubnets : pres.

Lemma preserves_Subnets n order : preserves P (Subnets n order).
Proof. unfold Subnets. pres. Qed.

Hint Resolve preserves_Subnets : pres.

Lemma preserves_ContainsSubnet n order sn : preserves P (ContainsSubnet n order sn).
Proof. unfold ContainsSubnet. pres. Qed.

Lemma preserves_Addresses n order : preserves P (Addresses n order).
Proof. unfold Addresses. pres. Qed.

Lemma preserves_isPromiscuousMode n : preserves P (isPromiscuousMode n).
Proof. unfold isPromiscuousMode. pres. Qed.
End Dispatch.

#[export] Hint Resolve preserves_Release
  preserves_DeliverTransportPacket preserves_DeliverTransportControlPacket
  preserves_Subnets preserves_ContainsSubnet preserves_Addresses
  preserves_isPromiscuousMode : pres.

Lemma inv_quiet : quiet inv.
Proof.
  split.
  - intros s Hinv. by apply inv_set_stats.
  - intros s Hinv. by apply inv_set_stats.
  - intros s Hinv. by apply inv_set_stats.
  - intros e He s Hinv. by apply inv_log.
Qed.

#[export] Hint Resolve inv_quiet : pres.

(** ** The operations of the interface, and the states they reach *)

Inductive Op :=
| OpSetPromiscuousMode (n : NICID) (enable : bool)
| OpIsPromiscuousMode (n : NICID)
| OpSetSpoofing (n : NICID) (enable : bool)
| OpGetMainNICAddress (n : NICID) (protocol : NetworkProtocolNumber)
    (order : list string)
| OpPrimaryEndpoint (n : NICID) (protocol : NetworkProtocolNumber)
| OpFindEndpoint (n : NICID) (protocol : NetworkProtocolNumber)
    (address : Address) (peb : PrimaryEndpointBehavior)
| OpAddAddressLocked (n : NICID) (protocol : NetworkProtocolNumber)
    (addr : Address) (peb : PrimaryEndpointBehavior) (replace : bool)
| OpAddAddress (n : NICID) (protocol : NetworkProtocolNumber) (addr : Address)
| OpAddAddressWithOptions (n : NICID) (protocol : NetworkProtocolNumber)
    (addr : Address) (peb : PrimaryEndpointBehavior)
| OpAddresses (n : NICID) (order : list string)
| OpAddSubnet (n : NICID) (protocol : NetworkProtocolNumber) (subnet : Subnet)
| OpRemoveSubnet (n : NICID) (subnet : Subnet)
| OpContainsSubnet (n : NICID) (order : list string) (subnet : Subnet)
| OpSubnets (n : NICID) (order : list string)
| OpRemoveEndpoint (r : RefId)
| OpRemoveAddress (n : NICID) (addr : Address)
| OpDeliverNetworkPacket (n : NICID) (linkEP0 : LinkEndpoint)
    (remoteLinkAddr localLinkAddr : LinkAddress)
    (protocol : NetworkProtocolNumber) (vv : VectorisedView)
| OpGetRef (n : NICID) (protocol : NetworkProtocolNumber) (dst : Address)
| OpDeliverTransportPacket (n : NICID) (rt : Route)
    (protocol : TransportProtocolNumber) (vv : VectorisedView)
| OpDeliverTransportControlPacket (n : NICID) (local remote : Address)
    (net : NetworkProtocolNumber) (trans : TransportProtocolNumber)
    (typ : ControlType) (extra : N) (vv : VectorisedView)
| OpDecRef (r : RefId)
| OpIncRef (r : RefId)
| OpTryIncRef (r : RefId)
| OpAtomicAddInt32 (r : RefId) (d : Z)
| OpFindRoute (id : NICID) (localAddr remoteAddr : Address)
    (netProto : NetworkProtocolNumber)
| OpRelease (rt : Route).

Definition exec (o : Op) : M unit :=
  match o with
  | OpSetPromiscuousMode n enable => setPromiscuousMode n enable
  | OpIsPromiscuousMode n => isPromiscuousMode n;; mret tt
  | OpSetSpoofing n enable => setSpoofing n enable
  | OpGetMainNICAddress n protocol order =>
      getMainNICAddress n protocol order;; mret tt
  | OpPrimaryEndpoint n protocol => primaryEndpoint n protocol;; mret tt
  | OpFindEndpoint n protocol address peb =>
      findEndpoint n protocol address peb;; mret tt
  | OpAddAddressLocked n protocol addr peb replace =>
      addAddressLocked n protocol addr peb replace;; mret tt
  | OpAddAddress n protocol addr => AddAddress n protocol addr;; mret tt
  | OpAddAddressWithOptions n protocol addr peb =>
      AddAddressWithOptions n protocol addr peb;; mret tt
  | OpAddresses n order => Addresses n order;; mret tt
  | OpAddSubnet n protocol subnet => AddSubnet n protocol subnet
  | OpRemoveSubnet n subnet => RemoveSubnet n subnet
  | OpContainsSubnet n order subnet => ContainsSubnet n order subnet;; mret tt
  | OpSubnets n order => Subnets n order;; mret tt
  | OpRemoveEndpoint r => b ← getB r; removeEndpoint (nic b) r
  | OpRemoveAddress n addr => RemoveAddress n addr;; mret tt
  | OpDeliverNetworkPacket n le rl ll protocol vv =>
      DeliverNetworkPacket n le rl ll protocol vv
  | OpGetRef n protocol dst => getRef n protocol dst;; mret tt
  | OpDeliverTransportPacket n rt protocol vv =>
      DeliverTransportPacket n rt protocol vv
  | OpDeliverTransportControlPacket n l r net trans typ extra vv =>
      DeliverTransportControlPacket n l r net trans typ extra vv
  | OpDecRef r => decRef r
  | OpIncRef r => incRef r
  | OpTryIncRef r => tryIncRef r;; mret tt
  | OpAtomicAddInt32 r d => atomicAddInt32 r d;; mret tt
  | OpFindRoute i la ra p => FindRoute i la ra p;; mret tt
  | OpRelease rt => Release rt
  end.

(** A stack whose NICs are as [newNIC] makes them, before any address is
    added. *)
Definition initial (s : Stack) : Prop :=
  heap s = [] /\ trace s = []
  /\ forall n x, nics s !! n = Some x -> endpoints x = ∅ /\ primary x = ∅.

Inductive reachable : Stack -> Prop :=
| reach_init s : initial s -> reachable s
| reach_step s o s' : reachable s -> exec o s = Ok (tt, s') -> reachable s'.

Lemma inv_initial s : initial s -> inv s.
Proof.
  intros (Hh & Ht & Hn). split.
  - intros n x k r Hx Hk. destruct (Hn n x Hx) as [He _].
    rewrite He in Hk. by rewrite lookup_empty in Hk.
  - intros n x p l r Hx Hl. destruct (Hn n x Hx) as [_ Hp].
    rewrite Hp in Hl. by rewrite lookup_empty in Hl.
  - intros r b Hb. rewrite Hh in Hb. by rewrite lookup_nil in Hb.
  - intros r _. unfold closes. by rewrite Ht.
Qed.

Lemma preserves_exec P o :
  stable P -> quiet P ->
  preserves P (modify (set_stats inc_IP_PacketsReceived)) ->
  preserves P (exec o).
Proof.
  intros HS HQ HIP.
  destruct o; unfold exec, AddAddress, removeEndpoint; pres.
  by apply preserves_DeliverNetworkPacket.
Qed.

Lemma inv_exec o : preserves inv (exec o).
Proof.
  apply preserves_exec; [apply inv_stable|apply inv_quiet|].
  intros s Hinv. by apply inv_set_stats.
Qed.

Lemma reachable_inv s : reachable s -> inv s.
Proof.
  induction 1 as [s Hi|s o s' _ IH E]; [by apply inv_initial|].
  exact (post_elim _ _ _ _ _ (inv_exec o s IH) E).
Qed.

(** A sequence of operations. *)
Fixpoint run_ops (os : list Op) (s : Stack) : Res (unit * Stack) :=
  match os with
  | [] => Ok (tt, s)
  | o :: os' =>
      match exec o s with
      | Ok (_, s') => run_ops os' s'
      | Panic msg => Panic msg
      end
  end.

(** The state after the operations, or the first state when one panics. *)
Definition state_after (os : list Op) (s : Stack) : Stack :=
  match run_ops os s with
  | Ok (_, s') => s'
  | Panic _ => s
  end.

Lemma reachable_run_ops os s s' :
  reachable s -> run_ops os s = Ok (tt, s') -> reachable s'.
Proof.
  revert s. induction os as [|o os IH]; intros s Hs E; simpl in E.
  - congruence.
  - destruct (exec o s) as [[[] s1]|] eqn:Eo; [|done].
    eapply IH; [|exact E]. by eapply reach_step.
Qed.

Lemma reachable_state_after os s : reachable s -> reachable (state_after os s).
Proof.
  intros Hs. unfold state_after.
  destruct (run_ops os s) as [[[] s']|] eqn:E; [|done].
  by eapply reachable_run_ops.
Qed.

Lemma preserves_run_ops (P : Stack -> Prop) os s s' :
  (forall o, preserves P (exec o)) ->
  P s -> run_ops os s = Ok (tt, s') -> P s'.
Proof.
  intros HP. revert s. induction os as [|o os IH]; intros s Hs E; simpl in E.
  - congruence.
  - destruct (exec o s) as [[[] s1]|] eqn:Eo; [|done].
    eapply IH; [|exact E]. exact (post_elim _ _ _ _ _ (HP o s Hs) Eo).
Qed.

(** The closes of an endpoint are never taken back. *)
Lemma closes_mono_exec r c o : preserves (fun s => (c <= closes r s)%nat) (exec o).
Proof.
  assert (forall e s, (c <= closes r s)%nat -> (c <= closes r (log e s))%nat)
    as Hlog.
  { intros e s Hc. rewrite closes_log. destruct (is_close r e); lia. }
  apply preserves_exec.
  - apply framed_stable; [split|].
    + by intros.
    + intros n f. apply preserves_modify. by intros.
    + intros r' s. apply Hlog.
  - split; try (by intros s Hc). intros e _ s. apply Hlog.
  - by intros s Hc.
Qed.

(** * The reference count *)

Lemma atomicAddInt32_run s r b d :
  heap s !! r = Some b ->
  atomicAddInt32 r d s
  = Ok (wrap32 (refs b + d), upd_heap r (set_refs (wrap32 (refs b + d)) b) s).
Proof.
  intros Hb. unfold atomicAddInt32.
  rewrite (bind_Ok _ _ _ _ _ (getB_Ok _ _ _ Hb)).
  by rewrite (bind_Ok _ _ _ _ _ (modB_Ok _ _ _ _ Hb)).
Qed.

Lemma tryIncRef_run s r b :
  heap s !! r = Some b ->
  tryIncRef r s
  = if decide (refs b = 0) then Ok (false, s)
    else Ok (true, upd_heap r (set_refs (wrap32 (refs b + 1)) b) s).
Proof.
  intros Hb. unfold tryIncRef.
  rewrite (bind_Ok _ _ _ _ _ (getB_Ok _ _ _ Hb)).
  destruct (decide (refs b = 0)); [done|].
  by rewrite (bind_Ok _ _ _ _ _ (modB_Ok _ _ _ _ Hb)).
Qed.

(** [decRef], by the value the decrement observes. *)
Lemma decRef_run s r b :
  heap s !! r = Some b ->
  decRef r s
  = let s1 := upd_heap r (set_refs (wrap32 (refs b - 1)) b) s in
    if decide (wrap32 (refs b - 1) = 0) then removeEndpoint (nic b) r s1
    else Ok (tt, s1).
Proof.
  intros Hb. unfold decRef.
  rewrite (bind_Ok _ _ _ _ _ (atomicAddInt32_run _ _ _ (-1) Hb)).
  replace (refs b + -1) with (refs b - 1) by lia. simpl.
  destruct (decide (wrap32 (refs b - 1) = 0)); [|done].
  by rewrite (bind_Ok _ _ _ _ _ (getB_Ok _ _ _ (heap_upd_heap_eq _ _ _ _ Hb))).
Qed.

Lemma inv_upd_refs s r b z :
  inv s -> heap s !! r = Some b -> inv (upd_heap r (set_refs (wrap32 z) b) s).
Proof.
  intros Hinv Hb.
  pose proof (st_refs inv inv_stable r z s Hinv) as H.
  unfold post in H. by rewrite (modB_Ok _ _ _ _ Hb) in H.
Qed.

Lemma closes_upd_heap r' r b s : closes r' (upd_heap r b s) = closes r' s.
Proof. done. Qed.

Lemma inv_closes_le s r : inv s -> (closes r s <= 1)%nat.
Proof.
  intros Hinv. destruct (heap s !! r) as [b|] eqn:Hb.
  - destruct (inv_heap s Hinv r b Hb) as (_ & x & _ & [[_ ->]|(_ & -> & _)]); lia.
  - rewrite (inv_fresh s Hinv r Hb). lia.
Qed.

(** A binding that was closed is in no registry and in no primacy list. *)
Lemma inv_closed_out s r :
  inv s -> closes r s = 1%nat -> ~ in_registry s r /\ ~ in_primary s r.
Proof.
  intros Hinv Hc.
  assert (~ in_registry s r) as Hreg.
  { intros (n & x & k & Hx & Hk).
    destruct (inv_registry s Hinv n x k r Hx Hk) as (b & Hb & <- & <- & _).
    destruct (inv_heap s Hinv r b Hb) as (_ & x' & Hx' & [[_ ?]|[? _]]);
      [lia|]. congruence. }
  split; [done|]. intros (n & x & p & l & Hx & Hl & Hr).
  destruct (inv_primary s Hinv n x p l r Hx Hl Hr) as (b & _ & _ & Hk).
  apply Hreg. by exists n, x, (ep b).
Qed.

(** C1.  For every endpoint binding of a state that satisfies the
    invariant of the interface, the decrement that takes the count from one
    to zero panics when the registration bit is still set, and otherwise
    returns in a state where the binding is out of the registry, out of
    every primacy list, and its endpoint was closed exactly once; when the
    binding was registered the close is the one event of this decrement.
    The invariant, kept by every operation, bounds the closes of a binding
    by one in every later state. *)
Theorem decRef_zero_teardown s r b :
  inv s -> heap s !! r = Some b -> refs b = 1 ->
  (holdsInsertRef b = true ->
   decRef r s = Panic "Reference count dropped to zero before being removed")
  /\ (holdsInsertRef b = false ->
      exists s', decRef r s = Ok (tt, s')
        /\ closes r s' = 1%nat
        /\ ~ in_registry s' r /\ ~ in_primary s' r
        /\ (registered s r -> trace s' = trace s ++ [EvClose r])
        /\ inv s'
        /\ forall os s'', run_ops os s' = Ok (tt, s'') -> closes r s'' = 1%nat).
Proof.
  intros Hinv Hb Hrefs.
  rewrite (decRef_run _ _ _ Hb). cbv zeta. rewrite Hrefs.
  change (wrap32 (1 - 1)) with 0. rewrite decide_True by done.
  set (b1 := set_refs 0 b). set (s1 := upd_heap r b1 s).
  assert (inv s1) as Hinv1 by exact (inv_upd_refs s r b 0 Hinv Hb).
  assert (heap s1 !! r = Some b1) as Hb1 by by eapply heap_upd_heap_eq.
  destruct (inv_heap s Hinv r b Hb) as (_ & x & Hx & Hcase).
  assert (nics s1 !! nic b1 = Some x) as Hx1 by done.
  split.
  - intros Hbit. destruct Hcase as [[Hk _]|(_ & _ & ?)]; [|congruence].
    unfold removeEndpoint.
    by apply (removeEndpointLocked_panic s1 (nic b) r b1 x).
  - intros Hbit. unfold removeEndpoint.
    assert (forall s', inv s' -> closes r s' = 1%nat ->
              ~ in_registry s' r /\ ~ in_primary s' r /\ inv s'
              /\ forall os s'', run_ops os s' = Ok (tt, s'') ->
                                closes r s'' = 1%nat)
      as Hfin.
    { intros s' Hinv' Hc'. destruct (inv_closed_out s' r Hinv' Hc').
      split_and!; try done. intros os s'' E.
      pose proof (preserves_run_ops inv os s' s'' inv_exec Hinv' E) as Hinv''.
      assert (1 <= closes r s')%nat as Hge' by lia.
      pose proof (preserves_run_ops (fun s => (1 <= closes r s)%nat) os s' s''
                    (closes_mono_exec r 1%nat) Hge' E) as Hge.
      pose proof (inv_closes_le s'' r Hinv''). simpl in Hge. lia. }
    destruct Hcase as [[Hk Hc]|(Hk & Hc & _)].
    + destruct (inv_registry s Hinv _ x _ r Hx Hk) as (b' & Hb' & _ & _ & [l Hl]).
      assert (b' = b) as -> by congruence.
      exists (torn (nic b) r b1 l x s1). split.
      { by apply (removeEndpointLocked_run s1 (nic b) r b1 x l). }
      assert (inv (torn (nic b) r b1 l x s1)) as Hinv' by by apply inv_torn.
      assert (closes r (torn (nic b) r b1 l x s1) = 1%nat) as Hc'.
      { rewrite closes_torn, decide_True by done.
        unfold s1. rewrite closes_upd_heap, Hc. done. }
      destruct (Hfin _ Hinv' Hc') as (? & ? & ? & ?). split_and!; done.
    + exists s1. split.
      { by apply (removeEndpointLocked_noop s1 (nic b) r b1 x). }
      destruct (Hfin s1 Hinv1 Hc) as (? & ? & ? & ?). split_and!; try done.
      intros (b' & x' & Hb' & Hx' & Hk'). congruence.
Qed.

Lemma inv_upd_clear s r b :
  inv s -> heap s !! r = Some b ->
  inv (upd_heap r (set_holdsInsertRef false b) s).
Proof.
  intros Hinv Hb.
  pose proof (st_clear inv inv_stable r s Hinv) as H.
  unfold post in H. by rewrite (modB_Ok _ _ _ _ Hb) in H.
Qed.

Lemma lookupLive_run s n a x :
  nics s !! n = Some x ->
  lookupLive n a s
  = match endpoints x !! a with
    | None => Ok (None, s)
    | Some ref =>
        match heap s !! ref with
        | None => Panic "nil referencedNetworkEndpoint"
        | Some b =>
            if decide (refs b = 0) then Ok (None, s)
            else Ok (Some ref,
                     upd_heap ref (set_refs (wrap32 (refs b + 1)) b) s)
        end
    end.
Proof.
  intros Hx. unfold lookupLive.
  rewrite (bind_Ok _ _ _ _ _ (getNIC_Ok _ _ _ Hx)).
  destruct (endpoints x !! a) as [ref|]; [|done].
  destruct (heap s !! ref) as [b|] eqn:Hb.
  - destruct (decide (refs b = 0)) as [Hz|Hz].
    + rewrite (bind_Ok _ _ _ false s); [done|].
      rewrite (tryIncRef_run _ _ _ Hb). by rewrite decide_True.
    + rewrite (bind_Ok _ _ _ true
                 (upd_heap ref (set_refs (wrap32 (refs b + 1)) b) s)); [done|].
      rewrite (tryIncRef_run _ _ _ Hb). by rewrite decide_False.
  - apply bind_Panic. unfold tryIncRef. apply bind_Panic. by apply getB_Panic.
Qed.

(** * Binding and unbinding an address *)

(** C2, as amended.  Binding an address whose endpoint id already has a
    binding, on a registered protocol whose factory succeeds: without
    replace the call fails with [ErrDuplicateAddress] and changes nothing;
    with replace it panics when the old binding still holds its
    registration bit, and otherwise tears the old binding down with
    [removeEndpointLocked], the destroy path of a release (one close of
    the old endpoint), and registers a fresh binding with count one and the
    registration bit, which the registry then resolves. *)
Theorem addAddressLocked_existing s n p a peb np x k old b :
  inv s ->
  networkProtocols (cfg s) !! p = Some np -> nics s !! n = Some x ->
  np_NewEndpoint np (id x) a = inr k ->
  endpoints x !! k = Some old -> heap s !! old = Some b ->
  addAddressLocked n p a peb false s = Ok (inl ErrDuplicateAddress, s)
  /\ (holdsInsertRef b = true ->
      addAddressLocked n p a peb true s
      = Panic "Reference count dropped to zero before being removed")
  /\ (holdsInsertRef b = false ->
      let new := List.length (heap s) in
      exists s1 s' x' bn,
        removeEndpointLocked n old s = Ok (tt, s1)
        /\ registerLocked n p k peb s1 = Ok (inr new, s')
        /\ addAddressLocked n p a peb true s = Ok (inr new, s')
        /\ trace s' = trace s ++ [EvClose old]
        /\ closes old s' = 1%nat
        /\ nics s' !! n = Some x' /\ endpoints x' !! k = Some new
        /\ heap s' !! new = Some bn
        /\ refs bn = 1 /\ holdsInsertRef bn = true /\ ep bn = k
        /\ nic bn = n /\ protocol bn = p
        /\ (exists s'', lookupLive n k s' = Ok (Some new, s''))
        /\ inv s').
Proof.
  intros Hinv Hnp Hx Hk Hold Hb.
  destruct (inv_registry s Hinv n x k old Hx Hold) as (b' & Hb' & Hep & Hn & [l Hl]).
  assert (b' = b) as -> by congruence. subst k.
  split_and!.
  - rewrite (addAddressLocked_eq _ _ _ _ _ _ _ _ Hnp Hx). by rewrite Hk, Hold.
  - intros Hbit. rewrite (addAddressLocked_eq _ _ _ _ _ _ _ _ Hnp Hx).
    rewrite Hk, Hold. apply bind_Panic. by eapply removeEndpointLocked_panic.
  - intros Hbit new.
    pose proof (removeEndpointLocked_run _ _ _ _ _ _ Hb Hx Hold Hbit Hl) as E1.
    set (s1 := torn n old b l x s) in *.
    assert (nics s1 !! n = Some (torn_nic old b l x)) as Hx1
      by apply nics_upd_nic_eq.
    pose proof (registerLocked_run s1 n p (ep b) peb _ Hx1) as E2.
    set (s' := registered_state n p (ep b) peb (torn_nic old b l x) s1) in *.
    assert (inv s') as Hinv'.
    { apply inv_registered_state; [by apply inv_torn|done|].
      apply endpoints_torn_nic. }
    assert (heap s' !! new = Some (fresh_ref n p (ep b) (torn_nic old b l x) s1))
      as Hnew.
    { unfold s', new. simpl. by rewrite list_lookup_middle. }
    exists s1, s', (registered_nic p (ep b) peb new (torn_nic old b l x)),
      (fresh_ref n p (ep b) (torn_nic old b l x) s1).
    split_and!; try done.
    + rewrite (addAddressLocked_eq _ _ _ _ _ _ _ _ Hnp Hx). rewrite Hk, Hold.
      by rewrite (bind_Ok _ _ _ _ _ E1).
    + destruct (inv_heap s Hinv old b Hb) as (_ & x0 & Hx0 & Hcase).
      assert (closes old s = 0%nat) as Hc.
      { destruct Hcase as [[_ ?]|[Hne _]]; [done|].
        rewrite Hn in Hx0. congruence. }
      change (closes old s') with (closes old s1).
      unfold s1. rewrite closes_torn, Hc. by rewrite decide_True.
    + apply nics_upd_nic_eq.
    + simpl. apply lookup_insert_eq.
    + eexists.
      rewrite (lookupLive_run s' n (ep b) _ (nics_upd_nic_eq _ _ _)).
      simpl. rewrite lookup_insert_eq.
      change (?h ++ [?y]) with (heap s') at 1.
      fold new. rewrite Hnew. simpl. reflexivity.
Qed.

(** C3.  In a state that satisfies the invariant, unbinding an address
    fails with [ErrBadLocalAddress], changing nothing, exactly when the
    registry holds no binding with its registration bit for the address;
    otherwise it returns no error, clears the bit and takes one reference
    off the count.  When the count was one (no borrower) the endpoint is
    closed inside the call; when it was not, nothing is closed and the
    binding stays registered, and when it was two (one borrower) the
    release of the borrower closes the endpoint. *)
Theorem RemoveAddress_unbinds s n x a :
  inv s -> nics s !! n = Some x ->
  (RemoveAddress n a s = Ok (Some ErrBadLocalAddress, s)
   <-> ~ exists r b, endpoints x !! a = Some r /\ heap s !! r = Some b
                     /\ holdsInsertRef b = true)
  /\ ((exists s', RemoveAddress n a s = Ok (Some ErrBadLocalAddress, s'))
      -> RemoveAddress n a s = Ok (Some ErrBadLocalAddress, s))
  /\ forall r b,
      endpoints x !! a = Some r -> heap s !! r = Some b ->
      holdsInsertRef b = true ->
      exists s' b',
        RemoveAddress n a s = Ok (None, s')
        /\ heap s' !! r = Some b' /\ holdsInsertRef b' = false
        /\ refs b' = wrap32 (refs b - 1)
        /\ (refs b = 1 ->
            trace s' = trace s ++ [EvClose r] /\ ~ in_registry s' r)
        /\ (refs b ≠ 1 -> trace s' = trace s /\ registered s' r)
        /\ (refs b = 2 ->
            exists s'', decRef r s' = Ok (tt, s'')
                        /\ trace s'' = trace s ++ [EvClose r]).
Proof.
  intros Hinv Hx.
  assert (forall r b, endpoints x !! a = Some r -> heap s !! r = Some b ->
            holdsInsertRef b = true ->
            exists s' b',
              RemoveAddress n a s = Ok (None, s')
              /\ heap s' !! r = Some b' /\ holdsInsertRef b' = false
              /\ refs b' = wrap32 (refs b - 1)
              /\ (refs b = 1 ->
                  trace s' = trace s ++ [EvClose r] /\ ~ in_registry s' r)
              /\ (refs b ≠ 1 -> trace s' = trace s /\ registered s' r)
              /\ (refs b = 2 ->
                  exists s'', decRef r s' = Ok (tt, s'')
                              /\ trace s'' = trace s ++ [EvClose r])) as Hgo.
  { intros r b Hr Hb Hbit.
    destruct (inv_registry s Hinv n x a r Hx Hr) as (b0 & Hb0 & Hep & Hn & [l Hl]).
    assert (b0 = b) as -> by congruence. subst a.
    destruct (inv_heap s Hinv r b Hb) as (Hrange & _).
    set (b1 := set_holdsInsertRef false b).
    set (s1 := upd_heap r b1 s).
    assert (heap s1 !! r = Some b1) as Hb1 by by eapply heap_upd_heap_eq.
    set (b2 := set_refs (wrap32 (refs b - 1)) b1).
    set (s2 := upd_heap r b2 s1).
    assert (heap s2 !! r = Some b2) as Hb2 by by eapply heap_upd_heap_eq.
    assert (inv s2) as Hinv2.
    { apply inv_upd_refs; [|done]. by apply inv_upd_clear. }
    assert (nics s2 !! n = Some x) as Hx2 by done.
    assert (RemoveAddress n (ep b) s
            = (decRef r ≫= (fun _ => mret None : M (option Error))) s1) as E.
    { unfold RemoveAddress.
      rewrite (bind_Ok _ _ _ _ _ (getNIC_Ok _ _ _ Hx)). rewrite Hr.
      rewrite (bind_Ok _ _ _ _ _ (getB_Ok _ _ _ Hb)). rewrite Hbit. simpl.
      rewrite (bind_Ok _ _ _ _ _ (modB_Ok _ _ _ _ Hb)). reflexivity. }
    assert (wrap32 (refs b - 1) = 0 <-> refs b = 1) as Hz.
    { unfold int32 in Hrange. split.
      - intros Hw. destruct (decide (refs b = - 2 ^ 31)) as [Hm|Hm].
        + rewrite Hm in Hw. vm_compute in Hw. done.
        + rewrite wrap32_id in Hw by (unfold int32; lia). lia.
      - intros ->. done. }
    pose proof (decRef_run s1 r b1 Hb1) as Ed. cbv zeta in Ed.
    change (refs b1) with (refs b) in Ed. fold b2 s2 in Ed.
    change (nic b1) with (nic b) in Ed. rewrite Hn in Ed.
    destruct (decide (refs b = 1)) as [H1|H1].
    - rewrite decide_True in Ed by by apply Hz.
      unfold removeEndpoint in Ed.
      rewrite (removeEndpointLocked_run s2 n r b2 x l) in Ed by done.
      exists (torn n r b2 l x s2), b2. split_and!; try done.
      + rewrite E. by rewrite (bind_Ok _ _ _ _ _ Ed).
      + intros _. split; [done|].
        assert (inv (torn n r b2 l x s2)) as Hinv' by by apply inv_torn.
        apply (inv_closed_out _ r Hinv').
        rewrite closes_torn, decide_True by done.
        destruct (inv_heap s2 Hinv2 r b2 Hb2) as (_ & x' & Hx' & [[_ ->]|[Hne _]]);
          [done|].
        change (nic b2) with (nic b) in Hx'. rewrite Hn in Hx'.
        assert (x' = x) as -> by congruence. done.
      + intros Hne. lia.
    - rewrite decide_False in Ed by (intros Hw; by apply Hz in Hw).
      exists s2, b2. split_and!; try done.
      + rewrite E. by rewrite (bind_Ok _ _ _ _ _ Ed).
      + intros _. split; [done|]. exists b2, x. split_and!; try done.
        change (nic b2) with (nic b). by rewrite Hn.
      + intros H2.
        pose proof (decRef_run s2 r b2 Hb2) as Ed2. cbv zeta in Ed2.
        change (refs b2) with (wrap32 (refs b - 1)) in Ed2.
        rewrite H2 in Ed2. change (wrap32 (wrap32 (2 - 1) - 1)) with 0 in Ed2.
        rewrite decide_True in Ed2 by done.
        change (nic b2) with (nic b) in Ed2. rewrite Hn in Ed2.
        unfold removeEndpoint in Ed2.
        set (b3 := set_refs 0 b2) in *. set (s3 := upd_heap r b3 s2) in *.
        rewrite (removeEndpointLocked_run s3 n r b3 x l) in Ed2;
          [|by eapply heap_upd_heap_eq|done..].
        eexists. split; [exact Ed2|done]. }
  assert (RemoveAddress n a s = Ok (Some ErrBadLocalAddress, s)
          \/ exists r b, endpoints x !! a = Some r /\ heap s !! r = Some b
                         /\ holdsInsertRef b = true) as Hcase.
  { destruct (endpoints x !! a) as [r|] eqn:Hr.
    - destruct (inv_registry s Hinv n x a r Hx Hr) as (b & Hb & _).
      destruct (holdsInsertRef b) eqn:Hbit; [right; eauto|].
      left. unfold RemoveAddress.
      rewrite (bind_Ok _ _ _ _ _ (getNIC_Ok _ _ _ Hx)). rewrite Hr.
      rewrite (bind_Ok _ _ _ _ _ (getB_Ok _ _ _ Hb)). by rewrite Hbit.
    - left. unfold RemoveAddress.
      rewrite (bind_Ok _ _ _ _ _ (getNIC_Ok _ _ _ Hx)). by rewrite Hr. }
  split_and!.
  - split.
    + intros E (r & b & Hr & Hb & Hbit).
      destruct (Hgo r b Hr Hb Hbit) as (s' & b' & E' & _). congruence.
    + intros Hno. destruct Hcase as [?|?]; [done|]. by destruct Hno.
  - intros [s' E]. destruct Hcase as [?|(r & b & Hr & Hb & Hbit)]; [done|].
    destruct (Hgo r b Hr Hb Hbit) as (s'' & b' & E' & _). congruence.
  - exact Hgo.
Qed.

(** * A concrete stack, for the examples *)

Definition ex_addr1 : Address := bytes [10; 0; 0; 1]%N.
Definition ex_addr2 : Address := bytes [10; 0; 0; 2]%N.
Definition ex_addr3 : Address := bytes [10; 0; 0; 3]%N.

(** An IPv4-like protocol: twenty bytes at least, the source address at
    offset 12 and the destination at offset 16. *)
Definition ex_ipv4 : NetworkProtocol :=
  mkNetworkProtocol IPv4ProtocolNumber 20
    (fun v => (string_of_list_byte (take 4 (drop 12 v)),
               string_of_list_byte (take 4 (drop 16 v))))
    (fun _ a => inr a).

(** An ARP-like protocol, which is not an IP protocol. *)
Definition ex_arp : NetworkProtocol :=
  mkNetworkProtocol 0x0806%N 28
    (fun v => (EmptyString, bytes [97; 114; 112]%N))
    (fun _ a => inr a).

Definition ex_ports (v : list Byte.byte) : option (N * N) :=
  match v with
  | a :: b :: c :: d :: _ =>
      Some ((256 * Byte.to_N a + Byte.to_N b)%N,
            (256 * Byte.to_N c + Byte.to_N d)%N)
  | _ => None
  end.

(** A UDP-like protocol whose handler of unknown destinations answers
    [unknown]. *)
Definition ex_udp (unknown : bool) : TransportProtocol :=
  mkTransportProtocol 8 ex_ports (fun _ _ _ => unknown).

(** A demultiplexer with one registration, on the local port [port]. *)
Definition ex_demux (port : N) : transportDemuxer :=
  mkTransportDemuxer
    (fun _ _ _ id => N.eqb (LocalPort id) port)
    (fun _ _ _ _ _ id => N.eqb (LocalPort id) port).

Definition ex_cfg (fwd : bool) : StackConfig :=
  mkStackConfig
    {[ IPv4ProtocolNumber := ex_ipv4; 0x0806%N := ex_arp ]}
    {[ 17%N := mkTransportProtocolState (ex_udp false) None;
       6%N := mkTransportProtocolState (ex_udp true)
                (Some (fun _ id _ => N.eqb (LocalPort id) 80)) ]}
    ∅ (ex_demux 53) fwd
    [mkRouteEntry (bytes [0; 0; 0; 0]%N) (bytes [0; 0; 0; 0]%N) EmptyString 2].

Definition ex_link1 : LinkEndpoint := mkLinkEndpoint (bytes [1]%N) false.
Definition ex_link2 : LinkEndpoint := mkLinkEndpoint (bytes [2]%N) false.

(** Two NICs, as [newNIC] makes them, and no address yet. *)
Definition ex_stack (fwd : bool) : Stack :=
  mkStack (ex_cfg fwd) (mkStats 0 0 0 0)
    {[ 1 := newNIC 1 "eth0" ex_link1 (ex_demux 7);
       2 := newNIC 2 "eth1" ex_link2 (ex_demux 9) ]}
    [] [].

Lemma ex_stack_initial fwd : initial (ex_stack fwd).
Proof.
  split_and!; [done..|]. intros n x Hx. simpl in Hx.
  apply lookup_insert_Some in Hx as [[_ <-]|[_ Hx]]; [done|].
  apply lookup_singleton_Some in Hx as [_ <-]. done.
Qed.

Lemma ex_reachable fwd os : reachable (state_after os (ex_stack fwd)).
Proof. apply reachable_state_after, reach_init, ex_stack_initial. Qed.

Lemma ex_inv fwd os : inv (state_after os (ex_stack fwd)).
Proof. apply reachable_inv, ex_reachable. Qed.

(** The address 10.0.0.1 was added to NIC 1, borrowed once, and removed:
    the binding 0 has one reference left and no registration bit. *)
Definition ex_borrowed : Stack :=
  state_after [OpAddAddress 1 IPv4ProtocolNumber ex_addr1;
               OpGetRef 1 IPv4ProtocolNumber ex_addr1;
               OpRemoveAddress 1 ex_addr1] (ex_stack false).

(** The address 10.0.0.1 was added to NIC 1. *)
Definition ex_added : Stack :=
  state_after [OpAddAddress 1 IPv4ProtocolNumber ex_addr1] (ex_stack false).

Lemma decRef_zero_teardown_witness :
  exists s', decRef 0%nat ex_borrowed = Ok (tt, s')
             /\ closes 0%nat s' = 1%nat
             /\ trace s' = trace ex_borrowed ++ [EvClose 0%nat].
Proof.
  destruct (decRef_zero_teardown ex_borrowed 0%nat
              (mkRef 1 ex_addr1 1 IPv4ProtocolNumber false false))
    as [_ H]; [apply ex_inv | reflexivity | reflexivity |].
  destruct (H eq_refl) as (s' & E & Hc & _ & _ & Ht & _).
  exists s'. split_and!; [done..|]. apply Ht.
  eexists _, _. split_and!; reflexivity.
Defined.

(** C2 fails as stated: the address 10.0.0.1 is bound and holds its
    registration bit; binding it again with replace allowed does not tear
    the old binding down and register a new one, it panics. *)
Lemma addAddressLocked_replace_counterexample :
  (exists x b, nics ex_added !! 1 = Some x
               /\ endpoints x !! ex_addr1 = Some 0%nat
               /\ heap ex_added !! 0%nat = Some b
               /\ holdsInsertRef b = true)
  /\ addAddressLocked 1 IPv4ProtocolNumber ex_addr1 CanBePrimaryEndpoint true
       ex_added
     = Panic "Reference count dropped to zero before being removed"
  /\ ~ exists ref s',
         addAddressLocked 1 IPv4ProtocolNumber ex_addr1 CanBePrimaryEndpoint
           true ex_added = Ok (inr ref, s').
Proof.
  assert (addAddressLocked 1 IPv4ProtocolNumber ex_addr1 CanBePrimaryEndpoint
            true ex_added
          = Panic "Reference count dropped to zero before being removed") as E
    by (vm_compute; reflexivity).
  split_and!.
  - eexists _, _. split_and!; vm_compute; reflexivity.
  - exact E.
  - intros (ref & s' & E'). rewrite E in E'. discriminate.
Qed.

Lemma addAddressLocked_existing_witness :
  addAddressLocked 1 IPv4ProtocolNumber ex_addr1 CanBePrimaryEndpoint false
    ex_borrowed = Ok (inl ErrDuplicateAddress, ex_borrowed)
  /\ exists s', addAddressLocked 1 IPv4ProtocolNumber ex_addr1
                  CanBePrimaryEndpoint true ex_borrowed = Ok (inr 1%nat, s')
                /\ trace s' = trace ex_borrowed ++ [EvClose 0%nat].
Proof.
  destruct (addAddressLocked_existing ex_borrowed 1 IPv4ProtocolNumber ex_addr1
              CanBePrimaryEndpoint ex_ipv4
              (default (newNIC 1 "eth0" ex_link1 (ex_demux 7))
                       (nics ex_borrowed !! 1))
              ex_addr1 0%nat
              (mkRef 1 ex_addr1 1 IPv4ProtocolNumber false false))
    as (Hdup & _ & H);
    [apply ex_inv | vm_compute; reflexivity | vm_compute; reflexivity
    | reflexivity | vm_compute; reflexivity | vm_compute; reflexivity |].
  split; [exact Hdup|].
  destruct (H eq_refl) as (s1 & s' & x' & bn & _ & _ & E & Ht & _).
  exists s'. split; [exact E | exact Ht].
Defined.

Lemma RemoveAddress_unbinds_witness :
  exists s' b', RemoveAddress 1 ex_addr1 ex_added = Ok (None, s')
                /\ heap s' !! 0%nat = Some b' /\ holdsInsertRef b' = false
                /\ trace s' = trace ex_added ++ [EvClose 0%nat].
Proof.
  destruct (RemoveAddress_unbinds ex_added 1
              (default (newNIC 1 "eth0" ex_link1 (ex_demux 7))
                       (nics ex_added !! 1))
              ex_addr1)
    as (_ & _ & H); [apply ex_inv | vm_compute; reflexivity |].
  destruct (H 0%nat (mkRef 1 ex_addr1 1 IPv4ProtocolNumber false true))
    as (s' & b' & E & Hb & Hbit & _ & H1 & _);
    [vm_compute; reflexivity | vm_compute; reflexivity | reflexivity |].
  exists s', b'. split_and!; [done..|]. by destruct (H1 eq_refl).
Defined.

(** * Selecting the main address *)

(** The binding holds its registration bit and is still live. *)
Definition holder (s : Stack) (r : RefId) : bool :=
  match heap s !! r with
  | Some b => holdsInsertRef b && negb (refs b =? 0)
  | None => false
  end.

(** The state after a successful [tryIncRef]. *)
Definition borrow (r : RefId) (s : Stack) : Stack :=
  match heap s !! r with
  | Some b => upd_heap r (set_refs (wrap32 (refs b + 1)) b) s
  | None => s
  end.

Lemma scanHolders_run s l :
  (forall r, r ∈ l -> is_Some (heap s !! r)) ->
  scanHolders l s
  = Ok (find (holder s) l,
        match find (holder s) l with
        | Some r => borrow r s
        | None => s
        end).
Proof.
  induction l as [|r l IH]; intros Hl; simpl; [done|].
  destruct (Hl r) as [b Hb]; [by left|].
  rewrite (bind_Ok _ _ _ _ _ (getB_Ok _ _ _ Hb)).
  unfold holder at 1 3. rewrite Hb.
  assert (forall r0, r0 ∈ l -> is_Some (heap s !! r0)) as Hl'.
  { intros r0 Hr0. apply Hl. by right. }
  destruct (holdsInsertRef b); simpl; [|by apply IH].
  destruct (decide (refs b = 0)) as [Hz|Hz].
  - rewrite (bind_Ok _ _ _ false s).
    + rewrite Hz. simpl. by apply IH.
    + rewrite (tryIncRef_run _ _ _ Hb). by rewrite decide_True.
  - rewrite (bind_Ok _ _ _ true (borrow r s)).
    + apply Z.eqb_neq in Hz. rewrite Hz. done.
    + rewrite (tryIncRef_run _ _ _ Hb). rewrite decide_False by done.
      unfold borrow. by rewrite Hb.
Qed.

Lemma wrap32_inc_dec z : int32 z -> wrap32 (wrap32 (z + 1) - 1) = z.
Proof.
  intros Hz. destruct (decide (z = 2 ^ 31 - 1)) as [->|Hne]; [done|].
  unfold int32 in Hz.
  rewrite (wrap32_id (z + 1)) by (unfold int32; lia).
  replace (z + 1 - 1) with z by lia. by apply wrap32_id.
Qed.

Lemma upd_heap_back s r b b' :
  heap s !! r = Some b -> upd_heap r b (upd_heap r b' s) = s.
Proof.
  intros Hb. destruct s as [c st ns h tr]. unfold upd_heap, set_heap. simpl in *.
  rewrite list_insert_insert_eq. by rewrite list_insert_id.
Qed.

(** A reference taken and given back leaves the state as it was. *)
Lemma borrow_release s r b :
  heap s !! r = Some b -> int32 (refs b) -> refs b ≠ 0 ->
  heap (borrow r s) !! r = Some (set_refs (wrap32 (refs b + 1)) b)
  /\ decRef r (borrow r s) = Ok (tt, s).
Proof.
  intros Hb Hrange Hz. unfold borrow. rewrite Hb.
  assert (heap (upd_heap r (set_refs (wrap32 (refs b + 1)) b) s) !! r
          = Some (set_refs (wrap32 (refs b + 1)) b)) as Hb1
    by by eapply heap_upd_heap_eq.
  split; [done|]. rewrite (decRef_run _ _ _ Hb1). cbv zeta. simpl refs.
  rewrite wrap32_inc_dec by done. rewrite decide_False by done.
  f_equal. f_equal.
  replace (set_refs (refs b) (set_refs (wrap32 (refs b + 1)) b)) with b
    by by destruct b.
  by apply upd_heap_back.
Qed.

(** The binding that [getMainNICAddress] selects. *)
Definition selected (s : Stack) (x : NIC) (p : NetworkProtocolNumber)
    (order : list string) : option nat :=
  match primary x !! p ≫= find (holder s) with
  | Some r => Some r
  | None => find (holder s) (snd <$> rangeMap order (endpoints x))
  end.

Lemma holder_Some s r :
  holder s r = true ->
  exists b, heap s !! r = Some b /\ holdsInsertRef b = true /\ refs b ≠ 0.
Proof.
  unfold holder. destruct (heap s !! r) as [b|]; [|done].
  intros [Hbit Hz]%andb_true_iff. exists b. split_and!; try done.
  apply negb_true_iff, Z.eqb_neq in Hz. done.
Qed.

Lemma rangeMap_elem {V} order (m : gmap string V) k v :
  (k, v) ∈ rangeMap order m <-> k ∈ order /\ m !! k = Some v.
Proof.
  unfold rangeMap. rewrite list_elem_of_omap. split.
  - intros (k' & Hk' & Hv). destruct (m !! k') as [v'|] eqn:E; [|done].
    simpl in Hv. by simplify_eq.
  - intros [Hk Hv]. exists k. split; [done|]. by rewrite Hv.
Qed.

Lemma getMainNICAddress_run s n x p order :
  inv s -> nics s !! n = Some x ->
  getMainNICAddress n p order s
  = Ok (match selected s x p order with
        | Some r =>
            match heap s !! r with
            | Some b => (ep b, leastConstrained (ep b) (subnets x), None)
            | None => (EmptyString, zeroSubnet, Some ErrNoLinkAddress)
            end
        | None => (EmptyString, zeroSubnet, Some ErrNoLinkAddress)
        end, s).
Proof.
  intros Hinv Hx. unfold getMainNICAddress.
  rewrite (bind_Ok _ _ _ _ _ (getNIC_Ok _ _ _ Hx)).
  assert (forall r, holder s r = true ->
    (b ← getB r; decRef r;; x0 ← getNIC n;
     mret (ep b, leastConstrained (ep b) (subnets x0), None : option Error))
      (borrow r s)
    = Ok (match heap s !! r with
          | Some b => (ep b, leastConstrained (ep b) (subnets x), None)
          | None => (EmptyString, zeroSubnet, Some ErrNoLinkAddress)
          end, s)) as Htail.
  { intros r Hr. destruct (holder_Some s r Hr) as (b & Hb & _ & Hz).
    destruct (inv_heap s Hinv r b Hb) as [Hrange _].
    destruct (borrow_release s r b Hb Hrange Hz) as [Hb1 Ed].
    rewrite (bind_Ok _ _ _ _ _ (getB_Ok _ _ _ Hb1)).
    rewrite (bind_Ok _ _ _ _ _ Ed).
    rewrite (bind_Ok _ _ _ _ _ (getNIC_Ok _ _ _ Hx)). by rewrite Hb. }
  assert (forall l, primary x !! p = Some l ->
            forall r, r ∈ l -> is_Some (heap s !! r)) as Hal1.
  { intros l Hl r Hr.
    destruct (inv_primary s Hinv n x p l r Hx Hl Hr) as (b & Hb & _). eauto. }
  assert (forall r, r ∈ snd <$> rangeMap order (endpoints x) ->
            is_Some (heap s !! r)) as Hal2.
  { intros r Hr. apply list_elem_of_fmap in Hr as ([k r'] & -> & Hkr).
    apply rangeMap_elem in Hkr as [_ Hk].
    destruct (inv_registry s Hinv n x k r' Hx Hk) as (b & Hb & _). eauto. }
  unfold selected.
  set (l2 := snd <$> rangeMap order (endpoints x)) in *.
  destruct (primary x !! p) as [l|] eqn:Hl; simpl.
  - rewrite (bind_Ok _ _ _ _ _ (scanHolders_run s l (Hal1 l eq_refl))).
    destruct (find (holder s) l) as [r|] eqn:Hf.
    + rewrite (bind_Ok _ _ _ (Some r) (borrow r s)) by done.
      apply Htail. by apply find_some in Hf as [_ ?].
    + rewrite (bind_Ok _ _ _ _ _ (scanHolders_run s _ Hal2)).
      destruct (find (holder s) l2) as [r|] eqn:Hf2; [|done].
      apply Htail. by apply find_some in Hf2 as [_ ?].
  - rewrite (bind_Ok _ _ _ None s) by done.
    rewrite (bind_Ok _ _ _ _ _ (scanHolders_run s _ Hal2)).
    destruct (find (holder s) l2) as [r|] eqn:Hf2; [|done].
    apply Htail. by apply find_some in Hf2 as [_ ?].
Qed.

Lemma find_first {A} (f : A -> bool) l1 r l2 :
  (forall r', r' ∈ l1 -> f r' = false) -> f r = true ->
  find f (l1 ++ r :: l2) = Some r.
Proof.
  intros Hl1 Hr. induction l1 as [|y l1 IH]; simpl; [by rewrite Hr|].
  rewrite (Hl1 y) by by left. apply IH. intros r' Hr'. apply Hl1. by right.
Qed.

Lemma find_exists {A} (f : A -> bool) l r :
  r ∈ l -> f r = true -> exists r', find f l = Some r'.
Proof.
  intros Hin Hr. destruct (find f l) as [r'|] eqn:E; [eauto|].
  apply list_elem_of_In in Hin.
  pose proof (find_none f l E r Hin). congruence.
Qed.

Lemma registerLocked_inv s n p k peb res s' :
  registerLocked n p k peb s = Ok (res, s') ->
  exists x, nics s !! n = Some x /\ res = inr (List.length (heap s))
            /\ s' = registered_state n p k peb x s.
Proof.
  intros E. destruct (nics s !! n) as [x|] eqn:Hx.
  - rewrite (registerLocked_run _ _ _ _ _ x Hx) in E. exists x.
    split_and!; congruence.
  - unfold registerLocked in E.
    rewrite (bind_Ok _ _ _ _ _ (eq_refl : get s = Ok (s, s))) in E.
    by rewrite (bind_Panic _ _ _ _ (getNIC_Panic _ _ Hx)) in E.
Qed.

(** A successful [addAddressLocked] ends with a registration. *)
Lemma addAddressLocked_inv s n p a peb replace ref s' :
  addAddressLocked n p a peb replace s = Ok (inr ref, s') ->
  exists s1 x1 k, nics s1 !! n = Some x1 /\ ref = List.length (heap s1)
                  /\ s' = registered_state n p k peb x1 s1.
Proof.
  intros E. destruct (networkProtocols (cfg s) !! p) as [np|] eqn:Hnp.
  2: { by rewrite addAddressLocked_unknown in E. }
  destruct (nics s !! n) as [x|] eqn:Hx.
  2: { unfold addAddressLocked in E.
       rewrite (bind_Ok _ _ _ _ _ (eq_refl : get s = Ok (s, s))) in E.
       rewrite Hnp in E.
       by rewrite (bind_Panic _ _ _ _ (getNIC_Panic _ _ Hx)) in E. }
  rewrite (addAddressLocked_eq _ _ _ _ _ _ _ _ Hnp Hx) in E.
  destruct (np_NewEndpoint np (id x) a) as [err|k]; [done|].
  assert (forall s1, registerLocked n p k peb s1 = Ok (inr ref, s') ->
            exists s1 x1 k, nics s1 !! n = Some x1
              /\ ref = List.length (heap s1)
              /\ s' = registered_state n p k peb x1 s1) as Hreg.
  { intros s1 E1. apply registerLocked_inv in E1 as (x1 & Hx1 & Hr & ->).
    exists s1, x1, k. split_and!; congruence. }
  destruct (endpoints x !! k) as [old|]; [|by eapply Hreg].
  destruct replace; [|done].
  apply bind_inv in E as ([] & s1 & _ & E1). by eapply Hreg.
Qed.

(** C4.  In a state that satisfies the invariant, the selection of the
    default address of a protocol returns, leaving the state as it was:
    the address of the first binding of the primacy list of the protocol,
    front to back, that holds its registration bit and is live; when the
    list has none, the address of a live registration-holding binding of
    the registry; and [ErrNoLinkAddress] exactly when the registry has no
    such binding.  A binding added at the front of the list is the one
    selected right after, whatever the list held before. *)
Theorem getMainNICAddress_selects s n x p order :
  inv s -> nics s !! n = Some x -> rangeOrder order (endpoints x) ->
  (forall l l1 r l2 b,
      primary x !! p = Some l -> l = l1 ++ r :: l2 ->
      (forall r', r' ∈ l1 -> holder s r' = false) ->
      holder s r = true -> heap s !! r = Some b ->
      getMainNICAddress n p order s
      = Ok ((ep b, leastConstrained (ep b) (subnets x), None), s))
  /\ ((forall l r, primary x !! p = Some l -> r ∈ l -> holder s r = false) ->
      (exists k r, endpoints x !! k = Some r /\ holder s r = true) ->
      exists k r, endpoints x !! k = Some r /\ holder s r = true
        /\ getMainNICAddress n p order s
           = Ok ((k, leastConstrained k (subnets x), None), s))
  /\ ((exists a sn s',
         getMainNICAddress n p order s
         = Ok ((a, sn, Some ErrNoLinkAddress), s'))
      <-> ~ exists k r, endpoints x !! k = Some r /\ holder s r = true)
  /\ (forall a replace ref s' order',
        addAddressLocked n p a FirstPrimaryEndpoint replace s
        = Ok (inr ref, s') ->
        exists b x', heap s' !! ref = Some b /\ nics s' !! n = Some x'
          /\ endpoints x' !! ep b = Some ref
          /\ getMainNICAddress n p order' s'
             = Ok ((ep b, leastConstrained (ep b) (subnets x'), None), s')).
Proof.
  intros Hinv Hx [Hnd Hord].
  pose proof (getMainNICAddress_run s n x p order Hinv Hx) as Hrun.
  set (l2 := snd <$> rangeMap order (endpoints x)).
  assert (forall r, r ∈ l2 <-> exists k, endpoints x !! k = Some r) as Hl2.
  { intros r. unfold l2. rewrite list_elem_of_fmap. split.
    - intros ([k r'] & -> & Hkr). apply rangeMap_elem in Hkr as [_ ?]. eauto.
    - intros [k Hk]. exists (k, r). split; [done|].
      apply rangeMap_elem. split; [|done]. apply Hord. eauto. }
  assert (forall r, find (holder s) l2 = Some r ->
            exists k b, endpoints x !! k = Some r /\ holder s r = true
                        /\ heap s !! r = Some b /\ ep b = k) as Hfound.
  { intros r Hf. apply find_some in Hf as [Hin Hh].
    apply list_elem_of_In, Hl2 in Hin as [k Hk].
    destruct (inv_registry s Hinv n x k r Hx Hk) as (b & Hb & Hep & _).
    eauto 10. }
  split_and!.
  - intros l l1 r l2' b Hl -> Hl1 Hr Hb. rewrite Hrun. unfold selected.
    rewrite Hl. simpl. rewrite (find_first _ _ _ _ Hl1 Hr). by rewrite Hb.
  - intros Hnone (k & r & Hk & Hr). rewrite Hrun. unfold selected.
    assert (primary x !! p ≫= find (holder s) = None) as ->.
    { destruct (primary x !! p) as [l|] eqn:Hl; [|done]. simpl.
      destruct (find (holder s) l) as [r'|] eqn:Hf; [|done].
      apply find_some in Hf as [Hin Hh]. apply list_elem_of_In in Hin.
      rewrite (Hnone l r' eq_refl Hin) in Hh. done. }
    destruct (find_exists (holder s) l2 r) as [r' Hf]; [by apply Hl2; eauto|done|].
    fold l2. rewrite Hf.
    destruct (Hfound r' Hf) as (k' & b' & Hk' & Hh' & Hb' & <-).
    exists (ep b'), r'. by rewrite Hb'.
  - rewrite Hrun. unfold selected. fold l2. split.
    + intros (a & sn & s' & E) (k & r & Hk & Hr).
      destruct (primary x !! p ≫= find (holder s)) as [r1|] eqn:E1.
      * destruct (primary x !! p) as [l|]; [|done]. simpl in E1.
        apply find_some in E1 as [_ Hh].
        destruct (holder_Some s r1 Hh) as (b1 & Hb1 & _).
        rewrite Hb1 in E. done.
      * destruct (find_exists (holder s) l2 r) as [r' Hf];
          [by apply Hl2; eauto|done|].
        rewrite Hf in E. destruct (Hfound r' Hf) as (_ & b' & _ & _ & Hb' & _).
        rewrite Hb' in E. done.
    + intros Hno.
      assert (primary x !! p ≫= find (holder s) = None) as ->.
      { destruct (primary x !! p) as [l|] eqn:Hl; [|done]. simpl.
        destruct (find (holder s) l) as [r'|] eqn:Hf; [|done].
        apply find_some in Hf as [Hin Hh]. apply list_elem_of_In in Hin.
        destruct (inv_primary s Hinv n x p l r' Hx Hl Hin) as (b & _ & _ & Hk).
        destruct Hno. eauto. }
      destruct (find (holder s) l2) as [r'|] eqn:Hf; [|eauto].
      destruct (Hfound r' eq_refl) as (k' & _ & Hk' & Hh' & _).
      destruct Hno. eauto.
  - intros a replace ref s' order' E.
    assert (inv s') as Hinv'.
    { exact (post_elim _ _ _ _ _ (inv_addAddressLocked n p a _ replace s Hinv) E). }
    apply addAddressLocked_inv in E as (s1 & x1 & k & Hx1 & -> & ->).
    set (s' := registered_state n p k FirstPrimaryEndpoint x1 s1) in *.
    set (ref := List.length (heap s1)) in *.
    set (x' := registered_nic p k FirstPrimaryEndpoint ref x1).
    assert (heap s' !! ref = Some (fresh_ref n p k x1 s1)) as Hb.
    { unfold s', ref. simpl. by rewrite list_lookup_middle. }
    assert (nics s' !! n = Some x') as Hx' by apply nics_upd_nic_eq.
    exists (fresh_ref n p k x1 s1), x'. split_and!; try done.
    + simpl. apply lookup_insert_eq.
    + rewrite (getMainNICAddress_run s' n x' p order' Hinv' Hx').
      unfold selected.
      assert (primary x' !! p = Some (ref :: default [] (primary x1 !! p)))
        as -> by apply lookup_insert_eq.
      assert (holder s' ref = true) as Hh by (unfold holder; by rewrite Hb).
      replace (Some (ref :: default [] (primary x1 !! p)) ≫= find (holder s'))
        with (Some ref).
      * by rewrite Hb.
      * symmetry. apply (find_first (holder s') [] ref); [|done].
        intros r' Hr'. by apply elem_of_nil in Hr'.
Qed.

(** The address 10.0.0.1 was added to NIC 1 at the back of the primacy
    list, then 10.0.0.2 at the front. *)
Definition ex_two : Stack :=
  state_after [OpAddAddressWithOptions 1 IPv4ProtocolNumber ex_addr1
                 CanBePrimaryEndpoint;
               OpAddAddressWithOptions 1 IPv4ProtocolNumber ex_addr2
                 FirstPrimaryEndpoint] (ex_stack false).

Definition ex_two_nic : NIC :=
  default (newNIC 1 "eth0" ex_link1 (ex_demux 7)) (nics ex_two !! 1).

Lemma ex_two_order : rangeOrder [ex_addr1; ex_addr2] (endpoints ex_two_nic).
Proof.
  split.
  - apply NoDup_cons. split; [|apply NoDup_singleton].
    intros H%list_elem_of_singleton. discriminate.
  - intros k. change (endpoints ex_two_nic)
      with (<[ex_addr1 := 0%nat]> (<[ex_addr2 := 1%nat]> (∅ : gmap string nat))).
    rewrite elem_of_cons, list_elem_of_singleton.
    unfold is_Some. setoid_rewrite lookup_insert_Some.
    setoid_rewrite lookup_insert_Some. setoid_rewrite lookup_empty.
    naive_solver.
Qed.

Lemma getMainNICAddress_selects_witness :
  getMainNICAddress 1 IPv4ProtocolNumber [ex_addr1; ex_addr2] ex_two
  = Ok ((ex_addr2, zeroSubnet, None), ex_two).
Proof.
  destruct (getMainNICAddress_selects ex_two 1 ex_two_nic IPv4ProtocolNumber
              [ex_addr1; ex_addr2]) as (H & _);
    [apply ex_inv | vm_compute; reflexivity | apply ex_two_order |].
  exact (H [1%nat; 0%nat] [] 1%nat [0%nat]
           (mkRef 1 ex_addr2 1 IPv4ProtocolNumber false true)
           ltac:(vm_compute; reflexivity) eq_refl
           ltac:(intros r' Hr'; by apply elem_of_nil in Hr')
           ltac:(vm_compute; reflexivity) ltac:(vm_compute; reflexivity)).
Defined.

(** * The subnet of the main address *)

(** The selection as the specification words it: the least-constrained
    subnet is sought in the augmented subnet set, the one [Subnets]
    returns. *)
Definition spec_mainSubnet (n : NICID) (order : list string)
    (address : Address) : M Subnet :=
  sns ← Subnets n order;
  mret (leastConstrained address sns).

Lemma leastConstrained_snoc a l s0 :
  leastConstrained a (l ++ [s0])
  = if Contains s0 a && negb (Contains (leastConstrained a l) (ID s0))
    then s0 else leastConstrained a l.
Proof. unfold leastConstrained. by rewrite fold_left_app. Qed.

Lemma leastConstrained_member a l :
  leastConstrained a l = zeroSubnet
  \/ (leastConstrained a l ∈ l /\ Contains (leastConstrained a l) a = true).
Proof.
  induction l as [|s0 l IH] using rev_ind; [by left|].
  rewrite leastConstrained_snoc.
  destruct (Contains s0 a) eqn:Hc; simpl.
  - destruct (Contains (leastConstrained a l) (ID s0)); simpl.
    + destruct IH as [?|[? ?]]; [by left|right].
      split; [|done]. apply elem_of_app. by left.
    + right. split; [|done]. apply elem_of_app. right. by left.
  - destruct IH as [?|[? ?]]; [by left|right].
    split; [|done]. apply elem_of_app. by left.
Qed.

(** C5 fails as stated: 10.0.0.1 is bound and no subnet was added; the
    augmented subnet set holds the exact-match subnet of the address, which
    the selection over that set returns, while [getMainNICAddress] returns
    the zero subnet. *)
Lemma getMainNICAddress_subnet_counterexample :
  getMainNICAddress 1 IPv4ProtocolNumber [ex_addr1] ex_added
  = Ok ((ex_addr1, zeroSubnet, None), ex_added)
  /\ Subnets 1 [ex_addr1] ex_added
     = Ok ([mkSubnet ex_addr1 (bytes [255; 255; 255; 255]%N)], ex_added)
  /\ spec_mainSubnet 1 [ex_addr1] ex_addr1 ex_added
     = Ok (mkSubnet ex_addr1 (bytes [255; 255; 255; 255]%N), ex_added)
  /\ mkSubnet ex_addr1 (bytes [255; 255; 255; 255]%N) ≠ zeroSubnet.
Proof. split_and!; [vm_compute; reflexivity..|discriminate]. Qed.

(** C5, as amended.  Once the address is chosen, the selection returns
    the result of one pass over the subnets added to the NIC, in the order
    they were added, and over nothing else; the candidate starts as the
    zero subnet.  The result is the zero subnet or a subnet of the list
    that contains the address, and the zero subnet when no subnet was
    added.  In the pass, a subnet that does not contain the address leaves
    the candidate as it is; a subnet that contains the address replaces a
    candidate that does not contain its ID; and a subnet that lies within
    the candidate, an equal one met again in particular, does not replace
    it. *)
Theorem getMainNICAddress_subnet s n x p order a sn s' :
  inv s -> nics s !! n = Some x ->
  getMainNICAddress n p order s = Ok ((a, sn, None), s') ->
  sn = leastConstrained a (subnets x)
  /\ (sn = zeroSubnet \/ (sn ∈ subnets x /\ Contains sn a = true))
  /\ (subnets x = [] -> sn = zeroSubnet)
  /\ (forall l s0,
        Contains s0 a = false ->
        leastConstrained a (l ++ [s0]) = leastConstrained a l)
  /\ (forall l s0,
        Contains s0 a = true ->
        Contains (leastConstrained a l) (ID s0) = false ->
        leastConstrained a (l ++ [s0]) = s0)
  /\ (forall l s0,
        Contains s0 (ID s0) = true ->
        (forall y, Contains s0 y = true ->
                   Contains (leastConstrained a l) y = true) ->
        leastConstrained a (l ++ [s0]) = leastConstrained a l).
Proof.
  intros Hinv Hx E.
  rewrite (getMainNICAddress_run s n x p order Hinv Hx) in E.
  assert (sn = leastConstrained a (subnets x)) as ->.
  { destruct (selected s x p order) as [r|]; [|done].
    destruct (heap s !! r) as [b|]; [|done]. by simplify_eq. }
  split_and!.
  - done.
  - apply leastConstrained_member.
  - by intros ->.
  - intros l s0 Hc. by rewrite leastConstrained_snoc, Hc.
  - intros l s0 Hc Hn. by rewrite leastConstrained_snoc, Hc, Hn.
  - intros l s0 Hid Hsub. rewrite leastConstrained_snoc.
    rewrite (Hsub _ Hid). by rewrite andb_false_r.
Qed.

(** NIC 1 has the address 10.0.0.1 and the subnets 10.0.0.0/24,
    10.0.0.0/8 and 10.0.0.0/24 again, added in this order. *)
Definition ex_sn24 : Subnet :=
  mkSubnet (bytes [10; 0; 0; 0]%N) (bytes [255; 255; 255; 0]%N).
Definition ex_sn8 : Subnet :=
  mkSubnet (bytes [10; 0; 0; 0]%N) (bytes [255; 0; 0; 0]%N).

Definition ex_subnets : Stack :=
  state_after [OpAddAddress 1 IPv4ProtocolNumber ex_addr1;
               OpAddSubnet 1 IPv4ProtocolNumber ex_sn24;
               OpAddSubnet 1 IPv4ProtocolNumber ex_sn8;
               OpAddSubnet 1 IPv4ProtocolNumber ex_sn24] (ex_stack false).

Example ex_subnets_main :
  getMainNICAddress 1 IPv4ProtocolNumber [ex_addr1] ex_subnets
  = Ok ((ex_addr1, ex_sn24, None), ex_subnets).
Proof. vm_compute. reflexivity. Qed.

Lemma getMainNICAddress_subnet_witness :
  ex_sn24 = leastConstrained ex_addr1 [ex_sn24; ex_sn8; ex_sn24]
  /\ (ex_sn24 = zeroSubnet
      \/ (ex_sn24 ∈ [ex_sn24; ex_sn8; ex_sn24]
          /\ Contains ex_sn24 ex_addr1 = true)).
Proof.
  destruct (getMainNICAddress_subnet ex_subnets 1
              (default (newNIC 1 "eth0" ex_link1 (ex_demux 7))
                       (nics ex_subnets !! 1))
              IPv4ProtocolNumber [ex_addr1] ex_addr1 ex_sn24 ex_subnets)
    as (H1 & H2 & _);
    [apply ex_inv | vm_compute; reflexivity | vm_compute; reflexivity |].
  split; [exact H1 | exact H2].
Defined.

(** * Transport dispatch *)

(** The events [es], recorded in order. *)
Definition logs (es : list Event) (s : Stack) : Stack :=
  mkStack (cfg s) (stats s) (nics s) (heap s) (trace s ++ es).

Lemma log_logs e es s : log e (logs es s) = logs (es ++ [e]) s.
Proof. unfold log, logs. simpl. by rewrite app_assoc. Qed.

(** The stages of the delivery chain that are called, given what each
    answers: the NIC demultiplexer ([h1]), the stack demultiplexer ([h2]),
    the default handler when there is one ([h3]), the handler of unknown
    destinations. *)
Definition chain (n : NICID) (rt : Route) (p : TransportProtocolNumber)
    (vv : VectorisedView) (id : TransportEndpointID) (hasDefault : bool)
    (h1 h2 h3 : bool) : list Event :=
  EvNICDemux n rt p vv id ::
  if h1 then []
  else EvStackDemux rt p vv id ::
       if h2 then []
       else (if hasDefault then [EvDefaultHandler rt id vv] else [])
            ++ (if h3 then [] else [EvUnknownDestination rt id vv]).

(** C8.  For a registered transport protocol and a payload that is long
    enough and whose ports parse, the dispatch calls, in this order, the
    demultiplexer of the NIC, the demultiplexer of the stack, the default
    handler of the protocol if there is one, and the handler of unknown
    destinations of the protocol, and stops after the first that reports
    handled; it calls nothing else and changes nothing else; and it
    increments the malformed counter exactly when the last stage is reached
    and reports not handled. *)
Theorem DeliverTransportPacket_chain s n x rt p vv st srcPort dstPort :
  transportProtocols (cfg s) !! p = Some st -> nics s !! n = Some x ->
  ~ vlen (First vv) < tp_MinimumPacketSize (proto st) ->
  tp_ParsePorts (proto st) (First vv) = Some (srcPort, dstPort) ->
  let id := mkTransportEndpointID dstPort (LocalAddress rt) srcPort
                                  (RemoteAddress rt) in
  let h1 := deliverPacket (demux x) rt p vv id in
  let h2 := deliverPacket (stack_demux (cfg s)) rt p vv id in
  let h3 := match defaultHandler st with
            | Some h => h rt id vv
            | None => false
            end in
  let h4 := tp_HandleUnknownDestinationPacket (proto st) rt id vv in
  let hasDefault := bool_decide (is_Some (defaultHandler st)) in
  DeliverTransportPacket n rt p vv s
  = Ok (tt, (if h1 || h2 || h3 || h4 then fun s => s
             else set_stats inc_MalformedRcvdPackets)
              (logs (chain n rt p vv id hasDefault h1 h2 h3) s))
  /\ (h1 = true -> chain n rt p vv id hasDefault h1 h2 h3
                   = [EvNICDemux n rt p vv id]).
Proof.
  intros Hst Hx Hlen Hports id h1 h2 h3 h4 hasDefault.
  split; [|by intros ->].
  unfold DeliverTransportPacket.
  rewrite (bind_Ok _ _ _ _ _ (eq_refl : get s = Ok (s, s))). rewrite Hst.
  rewrite bool_decide_eq_false_2 by done. rewrite Hports. fold id.
  rewrite (bind_Ok _ _ _ _ _ (getNIC_Ok _ _ _ Hx)).
  rewrite (bind_Ok _ _ _ tt (logs [EvNICDemux n rt p vv id] s)) by done.
  fold h1 h2 h4. unfold chain.
  destruct h1; simpl; [done|].
  rewrite (bind_Ok _ _ _ tt
             (logs [EvNICDemux n rt p vv id; EvStackDemux rt p vv id] s)).
  2: { unfold emit, modify. by rewrite log_logs. }
  destruct h2; simpl; [done|].
  unfold h3, hasDefault. destruct (defaultHandler st) as [h|]; simpl.
  - rewrite (bind_Ok _ _ _ (h rt id vv)
               (logs [EvNICDemux n rt p vv id; EvStackDemux rt p vv id;
                      EvDefaultHandler rt id vv] s)).
    2: { rewrite (bind_Ok _ _ _ tt
                    (logs [EvNICDemux n rt p vv id; EvStackDemux rt p vv id;
                           EvDefaultHandler rt id vv] s)); [done|].
         unfold emit, modify. by rewrite log_logs. }
    destruct (h rt id vv); simpl; [done|].
    rewrite (bind_Ok _ _ _ tt
               (logs [EvNICDemux n rt p vv id; EvStackDemux rt p vv id;
                      EvDefaultHandler rt id vv;
                      EvUnknownDestination rt id vv] s)).
    2: { unfold emit, modify. by rewrite log_logs. }
    by destruct h4.
  - rewrite (bind_Ok _ _ _ false
               (logs [EvNICDemux n rt p vv id; EvStackDemux rt p vv id] s))
      by done.
    rewrite (bind_Ok _ _ _ tt
               (logs [EvNICDemux n rt p vv id; EvStackDemux rt p vv id;
                      EvUnknownDestination rt id vv] s)).
    2: { unfold emit, modify. by rewrite log_logs. }
    by destruct h4.
Qed.

Definition ex_udp_to_7 : list (list Byte.byte) :=
  [[Byte.x00; Byte.x01; Byte.x00; Byte.x07;
    Byte.x00; Byte.x08; Byte.x00; Byte.x00]].

Definition ex_route : Route :=
  makeRoute IPv4ProtocolNumber ex_addr1 ex_addr2 (bytes [1]%N) 0%nat.

Lemma DeliverTransportPacket_chain_witness :
  DeliverTransportPacket 1 ex_route 17%N ex_udp_to_7 (ex_stack false)
  = Ok (tt, logs [EvNICDemux 1 ex_route 17%N ex_udp_to_7
                    (mkTransportEndpointID 7 ex_addr1 1 ex_addr2)]
                 (ex_stack false)).
Proof.
  destruct (DeliverTransportPacket_chain (ex_stack false) 1
              (newNIC 1 "eth0" ex_link1 (ex_demux 7)) ex_route 17%N
              ex_udp_to_7 (mkTransportProtocolState (ex_udp false) None)
              1%N 7%N) as [H _];
    [vm_compute; reflexivity | vm_compute; reflexivity
    | vm_compute; discriminate | reflexivity |].
  exact H.
Defined.

(** * Network dispatch *)

Definition is_EvClose (e : Event) : bool :=
  match e with
  | EvClose _ => true
  | _ => false
  end.

(** The calls that leave the file, but for the closes of endpoints. *)
Definition calls (tr : list Event) : list Event :=
  List.filter (fun e => negb (is_EvClose e)) tr.

Lemma calls_app tr tr' : calls (tr ++ tr') = calls tr ++ calls tr'.
Proof. apply List.filter_app. Qed.

Lemma is_close_EvClose r e : is_EvClose e = false -> is_close r e = false.
Proof. by destruct e. Qed.

(** The count of IP packets, when the protocol is IPv4 or IPv6. *)
Definition countIP (np : NetworkProtocol) (s : Stack) : Stack :=
  if bool_decide (np_Number np = IPv4ProtocolNumber
                  ∨ np_Number np = IPv6ProtocolNumber)
  then set_stats inc_IP_PacketsReceived s else s.

Lemma DeliverNetworkPacket_unknown s n le rl ll p vv :
  networkProtocols (cfg s) !! p = None ->
  DeliverNetworkPacket n le rl ll p vv s
  = Ok (tt, set_stats inc_UnknownProtocolRcvdPackets s).
Proof.
  intros Hnp. unfold DeliverNetworkPacket.
  rewrite (bind_Ok _ _ _ _ _ (eq_refl : get s = Ok (s, s))). by rewrite Hnp.
Qed.

Lemma DeliverNetworkPacket_eq s n le rl ll p vv np :
  networkProtocols (cfg s) !! p = Some np ->
  DeliverNetworkPacket n le rl ll p vv s
  = if bool_decide (vlen (First vv) < np_MinimumPacketSize np)
    then Ok (tt, set_stats inc_MalformedRcvdPackets (countIP np s))
    else dispatchPacket n le rl p np vv (countIP np s).
Proof.
  intros Hnp. unfold DeliverNetworkPacket.
  rewrite (bind_Ok _ _ _ _ _ (eq_refl : get s = Ok (s, s))). rewrite Hnp.
  rewrite (bind_Ok _ _ _ tt (countIP np s)).
  - by destruct (bool_decide (vlen _ < _)).
  - unfold countIP. by destruct (bool_decide (_ ∨ _)).
Qed.

(** The properties that only look at the counters, the configuration or
    the calls are kept by the steps on the heap and the NICs. *)
Lemma framed_counter {A} (f : Stack -> A) c :
  (forall g s, f (set_heap g s) = f s) -> (forall g s, f (set_nics g s) = f s) ->
  (forall e s, f (log e s) = f s) ->
  stable (fun s => f s = c).
Proof.
  intros Hh Hn Hl. apply framed_stable.
  - split; [intros g s <-; apply Hh|].
    intros n g. apply preserves_modify. intros s <-. apply Hn.
  - intros r s <-. apply Hl.
Qed.

Lemma stable_IP c : stable (fun s => IP_PacketsReceived (stats s) = c).
Proof. by apply (framed_counter (fun s => IP_PacketsReceived (stats s))). Qed.

Lemma quiet_IP c : quiet (fun s => IP_PacketsReceived (stats s) = c).
Proof. split; [by intros s <-..|]. by intros e _ s <-. Qed.

Lemma stable_cfg c : stable (fun s => cfg s = c).
Proof. by apply (framed_counter cfg). Qed.

Lemma stable_stats c : stable (fun s => stats s = c).
Proof. by apply (framed_counter stats). Qed.

Lemma stable_calls t : stable (fun s => calls (trace s) = t).
Proof.
  apply framed_stable; [split; [by intros g s <-|]|].
  - intros n g. apply preserves_modify. by intros s <-.
  - intros r s <-. simpl. rewrite calls_app. simpl. by rewrite app_nil_r.
Qed.

(** C10.  When the protocol of the frame is registered and its number is
    IPv4 or IPv6, a dispatch that returns has incremented the count of
    received IP packets exactly once, whatever became of the frame; the
    count is made before the size is checked, so a frame dropped as
    malformed is counted, and so is a frame whose destination is not
    resolved. *)
Theorem DeliverNetworkPacket_counts_IP s n le rl ll p vv np :
  networkProtocols (cfg s) !! p = Some np ->
  np_Number np = IPv4ProtocolNumber \/ np_Number np = IPv6ProtocolNumber ->
  (forall s', DeliverNetworkPacket n le rl ll p vv s = Ok (tt, s') ->
     IP_PacketsReceived (stats s')
     = Increment (IP_PacketsReceived (stats s)))
  /\ (vlen (First vv) < np_MinimumPacketSize np ->
      DeliverNetworkPacket n le rl ll p vv s
      = Ok (tt, set_stats inc_MalformedRcvdPackets
                  (set_stats inc_IP_PacketsReceived s)))
  /\ (~ vlen (First vv) < np_MinimumPacketSize np ->
      forall s1,
        getRef n p (snd (np_ParseAddresses np (First vv)))
               (set_stats inc_IP_PacketsReceived s) = Ok (None, s1) ->
        Forwarding (cfg s) = false ->
        DeliverNetworkPacket n le rl ll p vv s
        = Ok (tt, set_stats inc_IP_InvalidAddressesReceived s1)
        /\ IP_PacketsReceived (stats s1)
           = Increment (IP_PacketsReceived (stats s))).
Proof.
  intros Hnp Hip.
  pose proof (DeliverNetworkPacket_eq s n le rl ll p vv np Hnp) as E.
  assert (countIP np s = set_stats inc_IP_PacketsReceived s) as Hc.
  { unfold countIP. by rewrite bool_decide_eq_true_2. }
  rewrite Hc in E. split_and!.
  - intros s' E'. rewrite E in E'.
    destruct (bool_decide (vlen _ < _)); [by simplify_eq|].
    refine (post_elim _ _ (fun _ s' => IP_PacketsReceived (stats s') = _)
              _ _ _ E').
    by apply preserves_dispatchPacket; [apply stable_IP | apply quiet_IP|].
  - intros Hlen. by rewrite E, bool_decide_eq_true_2.
  - intros Hlen s1 Eg Hf. rewrite E, bool_decide_eq_false_2 by done.
    assert (cfg s1 = cfg s) as Hcfg.
    { exact (post_elim _ _ _ _ _
               (preserves_getRef _ (stable_cfg (cfg s)) n p _
                  (set_stats inc_IP_PacketsReceived s) eq_refl) Eg). }
    split.
    + unfold dispatchPacket. rewrite (bind_Ok _ _ _ _ _ Eg).
      unfold forwardPacket.
      rewrite (bind_Ok _ _ _ _ _ (eq_refl : get s1 = Ok (s1, s1))).
      by rewrite Hcfg, Hf.
    + exact (post_elim _ _ _ _ _
               (preserves_getRef _ (stable_IP _) n p _
                  (set_stats inc_IP_PacketsReceived s) eq_refl) Eg).
Qed.

Lemma DeliverNetworkPacket_counts_IP_witness :
  DeliverNetworkPacket 1 ex_link1 (bytes [9]%N) (bytes [1]%N)
    IPv4ProtocolNumber [[Byte.x45]] (ex_stack false)
  = Ok (tt, set_stats inc_MalformedRcvdPackets
              (set_stats inc_IP_PacketsReceived (ex_stack false))).
Proof.
  destruct (DeliverNetworkPacket_counts_IP (ex_stack false) 1 ex_link1
              (bytes [9]%N) (bytes [1]%N) IPv4ProtocolNumber [[Byte.x45]]
              ex_ipv4) as (_ & H & _);
    [vm_compute; reflexivity | by left |].
  apply H. vm_compute. reflexivity.
Defined.

(** [silent m]: [m] keeps every property that the steps on the heap and
    the NICs keep; it touches no counter and makes no call but closes. *)
Definition silent {A} (m : M A) : Prop :=
  forall P, stable P -> preserves P m.

Lemma silent_frames {A} (m : M A) s a s' :
  silent m -> m s = Ok (a, s') ->
  cfg s' = cfg s /\ stats s' = stats s /\ calls (trace s') = calls (trace s)
  /\ (inv s -> inv s').
Proof.
  intros Hm E. split_and!.
  - exact (post_elim _ _ _ _ _ (Hm _ (stable_cfg (cfg s)) s eq_refl) E).
  - exact (post_elim _ _ _ _ _ (Hm _ (stable_stats (stats s)) s eq_refl) E).
  - exact (post_elim _ _ _ _ _ (Hm _ (stable_calls _) s eq_refl) E).
  - intros Hinv. exact (post_elim _ _ _ _ _ (Hm _ inv_stable s Hinv) E).
Qed.

Lemma silent_decRef r : silent (decRef r).
Proof. intros P HP. by apply preserves_decRef. Qed.

Lemma silent_getRef n p a : silent (getRef n p a).
Proof. intros P HP. by apply preserves_getRef. Qed.

Lemma silent_FindRoute i la ra p : silent (FindRoute i la ra p).
Proof. intros P HP. by apply preserves_FindRoute. Qed.

(** The NIC [n] exists: kept by every step. *)
Lemma stable_nic n : stable (fun s => is_Some (nics s !! n)).
Proof.
  apply framed_stable; [split|].
  - intros f s H. exact H.
  - intros m f. apply preserves_modify. intros s [x Hx]. simpl.
    destruct (nics s !! m) as [y|] eqn:Hy; [|eauto].
    destruct (decide (m = n)) as [->|Hne].
    + rewrite lookup_insert_eq. eauto.
    + rewrite lookup_insert_ne by done. eauto.
  - intros r s H. exact H.
Qed.

(** A reference on [r] can be released without a panic: the count does
    not reach zero, or the registration bit is clear. *)
Definition releasable (s : Stack) (r : RefId) : Prop :=
  exists b, heap s !! r = Some b
            /\ (wrap32 (refs b - 1) ≠ 0 \/ holdsInsertRef b = false).

Lemma post_and {A} (m : M A) s (Q1 Q2 : A -> Stack -> Prop) :
  post m s Q1 -> post m s Q2 -> post m s (fun a s' => Q1 a s' /\ Q2 a s').
Proof. unfold post. destruct (m s) as [[? ?]|]; auto. Qed.

Lemma releasable_borrow s r b :
  inv s -> heap s !! r = Some b -> refs b ≠ 0 ->
  releasable (upd_heap r (set_refs (wrap32 (refs b + 1)) b) s) r.
Proof.
  intros Hinv Hb Hz. eexists. split; [by eapply heap_upd_heap_eq|].
  left. simpl. destruct (inv_heap s Hinv r b Hb) as [Hrange _].
  by rewrite wrap32_inc_dec.
Qed.

Lemma lookupLive_post s n a :
  inv s ->
  post (lookupLive n a) s
       (fun ref s' => forall r, ref = Some r -> releasable s' r).
Proof.
  intros Hinv. unfold post.
  destruct (nics s !! n) as [x|] eqn:Hx.
  2: { unfold lookupLive. by rewrite (bind_Panic _ _ _ _ (getNIC_Panic _ _ Hx)). }
  rewrite (lookupLive_run s n a x Hx).
  destruct (endpoints x !! a) as [ref|]; [|by intros].
  destruct (heap s !! ref) as [b|] eqn:Hb; [|done].
  destruct (decide (refs b = 0)); [by intros|].
  intros r [= <-]. by apply releasable_borrow.
Qed.

Lemma scanPrimary_post l s :
  inv s ->
  post (scanPrimary l) s
       (fun ref s' => forall r, ref = Some r -> releasable s' r).
Proof.
  intros Hinv. induction l as [|r0 l IH]; simpl; [by intros|].
  unfold post in *. destruct (heap s !! r0) as [b|] eqn:Hb.
  2: { by rewrite (bind_Panic _ _ _ _ (getB_Panic _ _ Hb)). }
  rewrite (bind_Ok _ _ _ _ _ (getB_Ok _ _ _ Hb)).
  case_decide; [exact IH|].
  destruct (decide (refs b = 0)) as [Hz|Hz].
  - rewrite (bind_Ok _ _ _ false s); [exact IH|].
    rewrite (tryIncRef_run _ _ _ Hb). by rewrite decide_True.
  - rewrite (bind_Ok _ _ _ true
               (upd_heap r0 (set_refs (wrap32 (refs b + 1)) b) s)).
    + intros r [= <-]. by apply releasable_borrow.
    + rewrite (tryIncRef_run _ _ _ Hb). by rewrite decide_False.
Qed.

Lemma primaryEndpoint_post s n p :
  inv s ->
  post (primaryEndpoint n p) s
       (fun ref s' => forall r, ref = Some r -> releasable s' r).
Proof.
  intros Hinv. unfold primaryEndpoint. apply post_bind.
  unfold post at 1. destruct (getNIC n s) as [[x s0]|] eqn:E; [|done].
  apply getNIC_inv in E as [_ ->].
  destruct (primary x !! p); [by apply scanPrimary_post|]. by intros.
Qed.

(** A binding made on demand, whose registration bit is then cleared. *)
Lemma temporary_post s n p a peb :
  inv s ->
  post (r ← addAddressLocked n p a peb true;
        match r with
        | inr ref => modB ref (set_holdsInsertRef false);; mret (Some ref)
        | inl _ => mret None
        end) s
       (fun ref s' => forall r, ref = Some r -> releasable s' r).
Proof.
  intros Hinv. apply post_bind. unfold post at 1.
  destruct (addAddressLocked n p a peb true s) as [[[err|ref] s1]|] eqn:E;
    [by intros|..|done].
  apply addAddressLocked_inv in E as (s0 & x0 & k & Hx0 & -> & ->).
  set (s1 := registered_state n p k peb x0 s0).
  assert (heap s1 !! List.length (heap s0) = Some (fresh_ref n p k x0 s0)) as Hb.
  { unfold s1. simpl. by rewrite list_lookup_middle. }
  unfold post. rewrite (bind_Ok _ _ _ _ _ (modB_Ok _ _ _ _ Hb)).
  intros r [= <-]. eexists. split; [by eapply heap_upd_heap_eq|]. by right.
Qed.

Lemma post_lookup_then {A} s n a (k : option nat -> M A) (Q : A -> Stack -> Prop) :
  inv s ->
  (forall ref s', inv s' -> (forall r, ref = Some r -> releasable s' r) ->
                  post (k ref) s' Q) ->
  post (lookupLive n a ≫= k) s Q.
Proof.
  intros Hinv Hk. apply post_bind.
  eapply post_mono.
  - apply post_and; [by apply (preserves_lookupLive _ inv_stable n a s)|].
    by apply lookupLive_post.
  - intros ref s' [Hinv' Hrel]. by apply Hk.
Qed.

Lemma findEndpoint_post s n p a peb :
  inv s ->
  post (findEndpoint n p a peb) s
       (fun ref s' => forall r, ref = Some r -> releasable s' r).
Proof.
  intros Hinv. unfold findEndpoint.
  apply post_lookup_then; [done|]. intros ref s1 Hinv1 Hrel1.
  apply post_bind. unfold post at 1.
  destruct (getNIC n s1) as [[x s0]|] eqn:E; [|done].
  apply getNIC_inv in E as [_ ->].
  destruct ref as [r0|]; [done|].
  destruct (negb (spoofing x)); [by intros|].
  apply post_lookup_then; [done|]. intros ref s2 Hinv2 Hrel2.
  destruct ref as [r0|]; [done|]. by apply temporary_post.
Qed.

Lemma getRef_post s n p a :
  inv s ->
  post (getRef n p a) s
       (fun ref s' => forall r, ref = Some r -> releasable s' r).
Proof.
  intros Hinv. unfold getRef.
  apply post_lookup_then; [done|]. intros ref s1 Hinv1 Hrel1.
  destruct ref as [r0|]; [done|].
  apply post_bind. unfold post at 1.
  destruct (getNIC n s1) as [[x s0]|] eqn:E; [|done].
  apply getNIC_inv in E as [_ ->].
  destruct (_ || _); [|by intros].
  apply post_lookup_then; [done|]. intros ref s2 Hinv2 Hrel2.
  destruct ref as [r0|]; [done|]. by apply temporary_post.
Qed.

Lemma findRouteLoop_post tbl i la ra p s :
  inv s ->
  post (findRouteLoop tbl i la ra p) s
       (fun re s' => snd re = None ->
                     exists rref, rt_ref (fst re) = Some rref
                                  /\ releasable s' rref).
Proof.
  revert s. induction tbl as [|e tbl IH]; intros s Hinv; simpl; [by intros|].
  destruct (_ || _); [by apply IH|].
  apply post_bind. unfold post at 1. simpl.
  destruct (nics s !! re_NIC e) as [x|]; [|by apply IH].
  apply post_bind. eapply post_mono.
  - apply post_and.
    + destruct (negb _).
      * by apply (preserves_findEndpoint _ inv_stable).
      * by apply (preserves_primaryEndpoint _ inv_stable).
    + destruct (negb _); [by apply findEndpoint_post|by apply primaryEndpoint_post].
  - intros [ref|] s1 [Hinv1 Hrel]; [|by apply IH].
    destruct (Hrel ref eq_refl) as (b & Hb & Hr).
    unfold post. rewrite (bind_Ok _ _ _ _ _ (getB_Ok _ _ _ Hb)).
    intros _. exists ref. split; [done|]. by exists b.
Qed.

Lemma FindRoute_post i la ra p s :
  inv s ->
  post (FindRoute i la ra p) s
       (fun re s' => snd re = None ->
                     exists rref, rt_ref (fst re) = Some rref
                                  /\ releasable s' rref).
Proof.
  intros Hinv. unfold FindRoute. apply post_bind. unfold post at 1. simpl.
  by apply findRouteLoop_post.
Qed.

Lemma decRef_total s r :
  inv s -> releasable s r ->
  exists s' b, decRef r s = Ok (tt, s') /\ heap s !! r = Some b
               /\ heap s' !! r = Some (set_refs (wrap32 (refs b - 1)) b).
Proof.
  intros Hinv (b & Hb & Hrel).
  rewrite (decRef_run _ _ _ Hb). cbv zeta.
  set (b1 := set_refs (wrap32 (refs b - 1)) b). set (s1 := upd_heap r b1 s).
  assert (heap s1 !! r = Some b1) as Hb1 by by eapply heap_upd_heap_eq.
  destruct (decide (wrap32 (refs b - 1) = 0)) as [Hz|Hz]; [|by exists s1, b].
  destruct Hrel as [?|Hbit]; [done|].
  assert (inv s1) as Hinv1 by by apply inv_upd_refs.
  destruct (inv_heap s1 Hinv1 r b1 Hb1) as (_ & x & Hx & Hcase).
  unfold removeEndpoint. change (nic b) with (nic b1).
  destruct (decide (endpoints x !! ep b1 = Some r)) as [Hk|Hk].
  - destruct (inv_registry s1 Hinv1 _ x _ r Hx Hk) as (b' & Hb' & _ & _ & [l Hl]).
    assert (b' = b1) as -> by congruence.
    rewrite (removeEndpointLocked_run s1 (nic b1) r b1 x l) by done.
    by exists (torn (nic b1) r b1 l x s1), b.
  - rewrite (removeEndpointLocked_noop s1 (nic b1) r b1 x) by done.
    by exists s1, b.
Qed.

(** A reference taken, a call recorded, and the reference given back. *)
Lemma borrow_release_log s r b e :
  heap s !! r = Some b -> int32 (refs b) -> refs b ≠ 0 ->
  decRef r (log e (upd_heap r (set_refs (wrap32 (refs b + 1)) b) s))
  = Ok (tt, log e s).
Proof.
  intros Hb Hrange Hz.
  set (b1 := set_refs (wrap32 (refs b + 1)) b).
  assert (heap (log e (upd_heap r b1 s)) !! r = Some b1) as Hb1.
  { simpl. apply list_lookup_insert_eq. by eapply lookup_lt_Some. }
  rewrite (decRef_run _ _ _ Hb1). cbv zeta. simpl refs.
  rewrite wrap32_inc_dec by done. rewrite decide_False by done.
  f_equal. f_equal.
  replace (set_refs (refs b) b1) with b by by destruct b.
  destruct s as [c st ns h tr]. unfold upd_heap, set_heap, log. simpl in *.
  rewrite list_insert_insert_eq. by rewrite list_insert_id.
Qed.

Lemma releasable_heap s s' r : heap s' = heap s -> releasable s r -> releasable s' r.
Proof. intros Hh (b & Hb & Hr). exists b. by rewrite Hh. Qed.

Lemma Release_total s rt rref :
  inv s -> rt_ref rt = Some rref -> releasable s rref ->
  exists s', Release rt s = Ok (tt, s')
             /\ calls (trace s') = calls (trace s) ++ [EvRelease rt]
             /\ stats s' = stats s.
Proof.
  intros Hinv Hrt Hrel. unfold Release.
  rewrite (bind_Ok _ _ _ tt (log (EvRelease rt) s)) by done. rewrite Hrt.
  assert (inv (log (EvRelease rt) s)) as Hinv' by by apply inv_log.
  destruct (decRef_total (log (EvRelease rt) s) rref Hinv')
    as (s' & b & E & _); [by eapply releasable_heap|].
  exists s'. split; [done|].
  destruct (silent_frames _ _ _ _ (silent_decRef rref) E) as (_ & Hst & Hc & _).
  split; [|done]. rewrite Hc. simpl. by rewrite calls_app.
Qed.

(** [vv.Size()]: the bytes of all the views. *)
Definition Size (vv : VectorisedView) : Z :=
  Z.of_nat (List.length (List.concat vv)).

Lemma First_le_Size vv : vlen (First vv) <= Size vv.
Proof.
  unfold vlen, Size. destruct vv as [|v vv]; simpl; [lia|].
  rewrite List.length_app. lia.
Qed.

(** C6.  A frame whose protocol number is not registered increments the
    unknown-protocol counter and makes no call; a frame whose first view is
    shorter than the minimum size of its protocol, a frame shorter than
    that size in particular, increments the malformed counter and makes no
    call; and when the destination resolves to a
    binding of the NIC, the dispatch returns after one call, the
    [HandlePacket] of the endpoint of that binding with the route built
    from the protocol, the parsed addresses and the link addresses and with
    the payload, followed by the release of the reference. *)
Theorem DeliverNetworkPacket_local s n le rl ll p vv :
  (networkProtocols (cfg s) !! p = None ->
   DeliverNetworkPacket n le rl ll p vv s
   = Ok (tt, set_stats inc_UnknownProtocolRcvdPackets s)
   /\ trace (set_stats inc_UnknownProtocolRcvdPackets s) = trace s)
  /\ (forall np,
        networkProtocols (cfg s) !! p = Some np ->
        vlen (First vv) < np_MinimumPacketSize np ->
        DeliverNetworkPacket n le rl ll p vv s
        = Ok (tt, set_stats inc_MalformedRcvdPackets (countIP np s))
        /\ trace (set_stats inc_MalformedRcvdPackets (countIP np s))
           = trace s)
  /\ (forall np,
        networkProtocols (cfg s) !! p = Some np ->
        Size vv < np_MinimumPacketSize np ->
        DeliverNetworkPacket n le rl ll p vv s
        = Ok (tt, set_stats inc_MalformedRcvdPackets (countIP np s)))
  /\ (forall np ref s1,
        inv s ->
        networkProtocols (cfg s) !! p = Some np ->
        ~ vlen (First vv) < np_MinimumPacketSize np ->
        getRef n p (snd (np_ParseAddresses np (First vv))) (countIP np s)
        = Ok (Some ref, s1) ->
        let r := set_RemoteLinkAddress rl
                   (makeRoute p (snd (np_ParseAddresses np (First vv)))
                      (fst (np_ParseAddresses np (First vv)))
                      (le_LinkAddress le) ref) in
        exists s' b1,
          DeliverNetworkPacket n le rl ll p vv s = Ok (tt, s')
          /\ decRef ref (log (EvHandlePacket ref r vv) s1) = Ok (tt, s')
          /\ calls (trace s') = calls (trace s) ++ [EvHandlePacket ref r vv]
          /\ heap s1 !! ref = Some b1
          /\ heap s' !! ref = Some (set_refs (wrap32 (refs b1 - 1)) b1)
          /\ stats s' = stats (countIP np s)).
Proof.
  split_and!.
  - intros Hnp. by rewrite DeliverNetworkPacket_unknown.
  - intros np Hnp Hlen. rewrite (DeliverNetworkPacket_eq _ _ _ _ _ _ _ _ Hnp).
    rewrite bool_decide_eq_true_2 by done. split; [done|].
    unfold countIP. by destruct (bool_decide _).
  - intros np Hnp Hlen. rewrite (DeliverNetworkPacket_eq _ _ _ _ _ _ _ _ Hnp).
    rewrite bool_decide_eq_true_2; [done|].
    pose proof (First_le_Size vv). lia.
  - intros np ref s1 Hinv Hnp Hlen Eg r.
    rewrite (DeliverNetworkPacket_eq _ _ _ _ _ _ _ _ Hnp).
    rewrite bool_decide_eq_false_2 by done.
    assert (inv (countIP np s)) as Hinv0.
    { unfold countIP. destruct (bool_decide _); [|done]. by apply inv_set_stats. }
    assert (trace (countIP np s) = trace s) as Ht0.
    { unfold countIP. by destruct (bool_decide _). }
    destruct (silent_frames _ _ _ _ (silent_getRef _ _ _) Eg)
      as (_ & Hst1 & Hc1 & Hinv1).
    pose proof (post_elim _ _ _ _ _ (getRef_post _ n p _ Hinv0) Eg ref eq_refl)
      as Hrel.
    set (s2 := log (EvHandlePacket ref r vv) s1).
    assert (inv s2) as Hinv2 by (apply inv_log; auto).
    destruct (decRef_total s2 ref Hinv2) as (s' & b1 & Ed & Hb1 & Hb');
      [by eapply releasable_heap|].
    exists s', b1. unfold dispatchPacket.
    rewrite (bind_Ok _ _ _ _ _ Eg).
    rewrite (bind_Ok _ _ _ tt s2) by done. fold r.
    destruct (silent_frames _ _ _ _ (silent_decRef ref) Ed) as (_ & Hst & Hc & _).
    split_and!; try done.
    + rewrite Hc. unfold s2. simpl. rewrite calls_app, Hc1, Ht0. done.
    + by rewrite Hst.
Qed.

Lemma forwardPacket_off s n rl p dst vv :
  Forwarding (cfg s) = false ->
  forwardPacket n rl p dst vv s
  = Ok (tt, set_stats inc_IP_InvalidAddressesReceived s).
Proof.
  intros Hf. unfold forwardPacket.
  rewrite (bind_Ok _ _ _ _ _ (eq_refl : get s = Ok (s, s))). by rewrite Hf.
Qed.

Lemma forwardPacket_noroute s n rl p dst vv r0 e s2 :
  Forwarding (cfg s) = true ->
  FindRoute 0 EmptyString dst p s = Ok ((r0, Some e), s2) ->
  forwardPacket n rl p dst vv s
  = Ok (tt, set_stats inc_IP_InvalidAddressesReceived s2).
Proof.
  intros Hf Ef. unfold forwardPacket.
  rewrite (bind_Ok _ _ _ _ _ (eq_refl : get s = Ok (s, s))). rewrite Hf.
  by rewrite (bind_Ok _ _ _ _ _ Ef).
Qed.

Lemma forwardPacket_route s n rl p dst vv r0 s2 x2 rref b :
  Forwarding (cfg s) = true ->
  FindRoute 0 EmptyString dst p s = Ok ((r0, None), s2) ->
  nics s2 !! n = Some x2 -> rt_ref r0 = Some rref ->
  heap s2 !! rref = Some b ->
  forwardPacket n rl p dst vv s
  = (let r := set_RemoteLinkAddress rl
                (set_LocalLinkAddress (le_LinkAddress (linkEP x2)) r0) in
     ref ← lookupLive (nic b) dst;
     match ref with
     | Some ref => emit (EvHandlePacket ref r vv);; decRef ref
     | None => emit (EvWritePacket (nic b) r (First vv) (RemoveFirst vv) p)
     end;;
     Release r) s2.
Proof.
  intros Hf Ef Hx2 Hrt Hb. unfold forwardPacket.
  rewrite (bind_Ok _ _ _ _ _ (eq_refl : get s = Ok (s, s))). rewrite Hf.
  rewrite (bind_Ok _ _ _ _ _ Ef). cbn [snd fst].
  rewrite (bind_Ok _ _ _ _ _ (getNIC_Ok _ _ _ Hx2)).
  change (rt_ref (set_RemoteLinkAddress rl
            (set_LocalLinkAddress (le_LinkAddress (linkEP x2)) r0)))
    with (rt_ref r0). rewrite Hrt.
  by rewrite (bind_Ok _ _ _ _ _ (getB_Ok _ _ _ Hb)).
Qed.

(** C7.  When the destination of a well-formed frame of a registered
    protocol resolves to no binding of the NIC: with forwarding disabled,
    or with forwarding enabled and no route, the dispatch increments the
    invalid-address counter and makes no call; with forwarding enabled and
    a route, the dispatch returns after exactly two calls, first either the
    [HandlePacket] of a live endpoint of the destination on the NIC of the
    route or the [WritePacket] of the link driver of that NIC, with the
    first view as the header and the remaining views as the payload, and
    then the release of the route. *)
Theorem DeliverNetworkPacket_forwarding s n x le rl ll p vv np s1 :
  inv s -> nics s !! n = Some x ->
  networkProtocols (cfg s) !! p = Some np ->
  ~ vlen (First vv) < np_MinimumPacketSize np ->
  getRef n p (snd (np_ParseAddresses np (First vv))) (countIP np s)
  = Ok (None, s1) ->
  (Forwarding (cfg s) = false ->
   DeliverNetworkPacket n le rl ll p vv s
   = Ok (tt, set_stats inc_IP_InvalidAddressesReceived s1)
   /\ calls (trace s1) = calls (trace s))
  /\ (Forwarding (cfg s) = true ->
      forall r0 err s2,
        FindRoute 0 EmptyString (snd (np_ParseAddresses np (First vv))) p s1
        = Ok ((r0, err), s2) ->
        (is_Some err ->
         DeliverNetworkPacket n le rl ll p vv s
         = Ok (tt, set_stats inc_IP_InvalidAddressesReceived s2)
         /\ calls (trace s2) = calls (trace s))
        /\ (err = None ->
            exists x2 rref b res s3 s',
              nics s2 !! n = Some x2 /\ rt_ref r0 = Some rref
              /\ heap s2 !! rref = Some b
              /\ lookupLive (nic b) (snd (np_ParseAddresses np (First vv))) s2
                 = Ok (res, s3)
              /\ DeliverNetworkPacket n le rl ll p vv s = Ok (tt, s')
              /\ (let r := set_RemoteLinkAddress rl
                             (set_LocalLinkAddress
                                (le_LinkAddress (linkEP x2)) r0) in
                  calls (trace s')
                  = calls (trace s)
                    ++ [match res with
                        | Some ref => EvHandlePacket ref r vv
                        | None => EvWritePacket (nic b) r (First vv)
                                                (RemoveFirst vv) p
                        end; EvRelease r])
              /\ stats s' = stats (countIP np s))).
Proof.
  intros Hinv Hx Hnp Hlen Eg.
  set (dst := snd (np_ParseAddresses np (First vv))) in *.
  assert (inv (countIP np s)) as Hinv0.
  { unfold countIP. destruct (bool_decide _); [|done]. by apply inv_set_stats. }
  assert (trace (countIP np s) = trace s) as Ht0.
  { unfold countIP. by destruct (bool_decide _). }
  assert (cfg (countIP np s) = cfg s) as Hc0.
  { unfold countIP. by destruct (bool_decide _). }
  assert (is_Some (nics (countIP np s) !! n)) as Hn0.
  { unfold countIP. destruct (bool_decide _); simpl; eauto. }
  destruct (silent_frames _ _ _ _ (silent_getRef _ _ _) Eg)
    as (Hcfg1 & Hst1 & Hc1 & Hinv1).
  specialize (Hinv1 Hinv0).
  pose proof (post_elim _ _ _ _ _
                (preserves_getRef _ (stable_nic n) n p dst _ Hn0) Eg) as Hn1.
  simpl in Hn1.
  assert (DeliverNetworkPacket n le rl ll p vv s = forwardPacket n rl p dst vv s1)
    as Hfw.
  { rewrite (DeliverNetworkPacket_eq _ _ _ _ _ _ _ _ Hnp).
    rewrite bool_decide_eq_false_2 by done. unfold dispatchPacket. fold dst.
    by rewrite (bind_Ok _ _ _ _ _ Eg). }
  rewrite Hc0 in Hcfg1. split.
  - intros Hf. split; [|by rewrite Hc1, Ht0].
    rewrite Hfw. apply forwardPacket_off. by rewrite Hcfg1.
  - intros Hf r0 err s2 Ef. rewrite <- Hcfg1 in Hf.
    destruct (silent_frames _ _ _ _ (silent_FindRoute _ _ _ _) Ef)
      as (Hcfg2 & Hst2 & Hc2 & Hinv2).
    specialize (Hinv2 Hinv1). split.
    + intros [e ->]. split; [|by rewrite Hc2, Hc1, Ht0].
      rewrite Hfw. by eapply forwardPacket_noroute.
    + intros ->.
      destruct (post_elim _ _ _ _ _
                  (preserves_FindRoute _ (stable_nic n) _ _ _ _ _ Hn1) Ef)
        as [x2 Hx2].
      destruct (post_elim _ _ _ _ _ (FindRoute_post _ _ _ _ s1 Hinv1) Ef eq_refl)
        as (rref & Hrt & Hrel).
      simpl in Hrt. destruct Hrel as (b & Hb & Hrel).
      destruct (inv_heap s2 Hinv2 rref b Hb) as (_ & x' & Hx' & _).
      pose proof (forwardPacket_route s1 n rl p dst vv r0 s2 x2 rref b
                    Hf Ef Hx2 Hrt Hb) as Er. cbv zeta in Er.
      set (r := set_RemoteLinkAddress rl
                  (set_LocalLinkAddress (le_LinkAddress (linkEP x2)) r0)) in *.
      assert (rt_ref r = Some rref) as Hrr by done.
      pose proof (lookupLive_run s2 (nic b) dst x' Hx') as El.
      assert (forall e, is_EvClose e = false ->
                exists s', Release r (log e s2) = Ok (tt, s')
                  /\ calls (trace s') = calls (trace s) ++ [e; EvRelease r]
                  /\ stats s' = stats (countIP np s)) as Hfin.
      { intros e He.
        assert (inv (log e s2)) as Hinv4.
        { apply inv_log; [done|]. intros r'. by apply is_close_EvClose. }
        destruct (Release_total (log e s2) r rref Hinv4 Hrr) as (s' & Ee & Hc & Hs).
        { apply (releasable_heap s2); [done|]. by exists b. }
        exists s'. split_and!; [done| |].
        - rewrite Hc. simpl. rewrite calls_app. simpl. rewrite He. simpl.
          rewrite Hc2, Hc1, Ht0. by rewrite <- app_assoc.
        - rewrite Hs. simpl. by rewrite Hst2, Hst1. }
      assert (forall s',
                Release r (log (EvWritePacket (nic b) r (First vv)
                                  (RemoveFirst vv) p) s2) = Ok (tt, s') ->
                lookupLive (nic b) dst s2 = Ok (None, s2) ->
                DeliverNetworkPacket n le rl ll p vv s = Ok (tt, s')) as Hwrite.
      { intros s' Ee El'. rewrite Hfw, Er. rewrite (bind_Ok _ _ _ _ _ El').
        by rewrite (bind_Ok _ _ _ tt
                      (log (EvWritePacket (nic b) r (First vv)
                              (RemoveFirst vv) p) s2)). }
      destruct (endpoints x' !! dst) as [ref|] eqn:Hk.
      * destruct (inv_registry s2 Hinv2 _ x' dst ref Hx' Hk) as (b0 & Hb0 & _).
        rewrite Hb0 in El.
        destruct (decide (refs b0 = 0)) as [Hz|Hz].
        -- destruct (Hfin (EvWritePacket (nic b) r (First vv) (RemoveFirst vv) p)
                          eq_refl) as (s' & Ee & Hc & Hs).
           exists x2, rref, b, None, s2, s'. split_and!; try done.
           by apply Hwrite.
        -- destruct (Hfin (EvHandlePacket ref r vv) eq_refl)
             as (s' & Ee & Hc & Hs).
           exists x2, rref, b, (Some ref),
             (upd_heap ref (set_refs (wrap32 (refs b0 + 1)) b0) s2), s'.
           split_and!; try done.
           rewrite Hfw, Er. rewrite (bind_Ok _ _ _ _ _ El).
           rewrite (bind_Ok _ _ _ tt (log (EvHandlePacket ref r vv) s2)); [done|].
           rewrite (bind_Ok _ _ _ tt
                      (log (EvHandlePacket ref r vv)
                         (upd_heap ref (set_refs (wrap32 (refs b0 + 1)) b0) s2)))
             by done.
           apply borrow_release_log; [done| |done].
           by destruct (inv_heap s2 Hinv2 ref b0 Hb0).
      * destruct (Hfin (EvWritePacket (nic b) r (First vv) (RemoveFirst vv) p)
                       eq_refl) as (s' & Ee & Hc & Hs).
        exists x2, rref, b, None, s2, s'. split_and!; try done.
        by apply Hwrite.
Qed.

(** A frame of twenty bytes from 10.0.0.2 to the address [d]. *)
Definition ex_frame (d : Byte.byte) : list (list Byte.byte) :=
  [[Byte.x45; Byte.x00; Byte.x00; Byte.x14; Byte.x00; Byte.x00; Byte.x00;
    Byte.x00; Byte.x40; Byte.x11; Byte.x00; Byte.x00;
    Byte.x0a; Byte.x00; Byte.x00; Byte.x02;
    Byte.x0a; Byte.x00; Byte.x00; d];
   [Byte.x00; Byte.x01; Byte.x00; Byte.x07]].

Definition ex_resolved : Stack :=
  match getRef 1 IPv4ProtocolNumber ex_addr1 (countIP ex_ipv4 ex_added) with
  | Ok (_, s) => s
  | Panic _ => ex_added
  end.

Lemma DeliverNetworkPacket_local_witness :
  exists s',
    DeliverNetworkPacket 1 ex_link1 (bytes [9]%N) (bytes [1]%N)
      IPv4ProtocolNumber (ex_frame Byte.x01) ex_added = Ok (tt, s')
    /\ calls (trace s')
       = calls (trace ex_added)
         ++ [EvHandlePacket 0%nat
               (set_RemoteLinkAddress (bytes [9]%N)
                  (makeRoute IPv4ProtocolNumber ex_addr1 ex_addr2
                     (bytes [1]%N) 0%nat))
               (ex_frame Byte.x01)].
Proof.
  destruct (DeliverNetworkPacket_local ex_added 1 ex_link1 (bytes [9]%N)
              (bytes [1]%N) IPv4ProtocolNumber (ex_frame Byte.x01))
    as (_ & _ & _ & H).
  destruct (H ex_ipv4 0%nat ex_resolved)
    as (s' & b1 & E & _ & Hc & _);
    [apply ex_inv | vm_compute; reflexivity | vm_compute; discriminate
    | vm_compute; reflexivity |].
  exists s'. split; [exact E | exact Hc].
Defined.

(** Forwarding is enabled; NIC 2 has the address 10.0.0.9 and the route
    table sends everything to NIC 2; NIC 1 has no address. *)
Definition ex_addr9 : Address := bytes [10; 0; 0; 9]%N.

Definition ex_fwd : Stack :=
  state_after [OpAddAddress 2 IPv4ProtocolNumber ex_addr9] (ex_stack true).

Definition ex_fwd_route : Route * option Error * Stack :=
  match FindRoute 0 EmptyString ex_addr3 IPv4ProtocolNumber
          (countIP ex_ipv4 ex_fwd) with
  | Ok (re, s) => (re, s)
  | Panic _ => ((zeroRoute, Some ErrNoRoute), ex_fwd)
  end.

Lemma DeliverNetworkPacket_forwarding_witness :
  exists s' e r,
    DeliverNetworkPacket 1 ex_link1 (bytes [9]%N) (bytes [1]%N)
      IPv4ProtocolNumber (ex_frame Byte.x03) ex_fwd = Ok (tt, s')
    /\ calls (trace s') = calls (trace ex_fwd) ++ [e; EvRelease r].
Proof.
  destruct (DeliverNetworkPacket_forwarding ex_fwd 1
              (newNIC 1 "eth0" ex_link1 (ex_demux 7)) ex_link1
              (bytes [9]%N) (bytes [1]%N) IPv4ProtocolNumber
              (ex_frame Byte.x03) ex_ipv4 (countIP ex_ipv4 ex_fwd))
    as [_ H];
    [apply ex_inv | vm_compute; reflexivity | vm_compute; reflexivity
    | vm_compute; discriminate | vm_compute; reflexivity |].
  destruct (H eq_refl (fst (fst ex_fwd_route)) None (snd ex_fwd_route))
    as [_ H']; [vm_compute; reflexivity|].
  destruct (H' eq_refl) as (x2 & rref & b & res & s3 & s' & _ & _ & _ & _ & E & Hc & _).
  exists s'. eexists _, _. split; [exact E | exact Hc].
Defined.

(** * The primacy lists and the registry *)

(** The address 10.0.0.1 was added to NIC 1 as never primary. *)
Definition ex_never : Stack :=
  state_after [OpAddAddressWithOptions 1 IPv4ProtocolNumber ex_addr1
                 NeverPrimaryEndpoint] (ex_stack false).

Lemma ex_never_registry : in_registry ex_never 0%nat /\ ~ in_primary ex_never 0%nat.
Proof.
  split.
  - eexists 1, _, ex_addr1. split; vm_compute; reflexivity.
  - intros (n & x & p & l & Hx & Hl & Hr).
    pose proof (ex_inv false
      [OpAddAddressWithOptions 1 IPv4ProtocolNumber ex_addr1
         NeverPrimaryEndpoint]) as Hinv. fold ex_never in Hinv.
    destruct (inv_primary _ Hinv n x p l 0%nat Hx Hl Hr) as (b & Hb & Hp & Hk).
    destruct (inv_registry _ Hinv n x _ 0%nat Hx Hk) as (b' & Hb' & _ & Hn & _).
    assert (b' = b) as -> by congruence.
    assert (b = mkRef 1 ex_addr1 1 IPv4ProtocolNumber false true) as ->.
    { vm_compute in Hb. injection Hb as <-. reflexivity. }
    simpl in Hn, Hp. subst n p.
    assert (x = default (newNIC 1 "eth0" ex_link1 (ex_demux 7))
                        (nics ex_never !! 1)) as ->.
    { vm_compute in Hx. injection Hx as <-. reflexivity. }
    vm_compute in Hl. injection Hl as <-.
    by apply elem_of_nil in Hr.
Qed.

(** C9.  In every state that the operations of the interface reach from
    a stack of fresh NICs, a binding in a primacy list is in the registry:
    the invariant of the interface gives it, it holds at the start, and
    every operation that returns keeps it.  The converse is not required: a
    binding added as never primary is in the registry and in no primacy
    list. *)
Theorem primacy_within_registry :
  (forall s, reachable s -> forall r, in_primary s r -> in_registry s r)
  /\ (forall s, initial s -> inv s)
  /\ (forall s o s',
        inv s -> exec o s = Ok (tt, s') ->
        inv s' /\ forall r, in_primary s' r -> in_registry s' r)
  /\ (exists s r, reachable s /\ in_registry s r /\ ~ in_primary s r).
Proof.
  assert (forall s, inv s -> forall r, in_primary s r -> in_registry s r) as Hsub.
  { intros s Hinv r (n & x & p & l & Hx & Hl & Hr).
    destruct (inv_primary s Hinv n x p l r Hx Hl Hr) as (b & _ & _ & Hk).
    by exists n, x, (ep b). }
  split_and!.
  - intros s Hs. apply Hsub. by apply reachable_inv.
  - apply inv_initial.
  - intros s o s' Hinv E.
    assert (inv s') as Hinv' by exact (post_elim _ _ _ _ _ (inv_exec o s Hinv) E).
    split; [done|]. by apply Hsub.
  - exists ex_never, 0%nat. split; [apply ex_reachable|]. apply ex_never_registry.
Qed.

Lemma primacy_within_registry_witness : in_registry ex_two 1%nat.
Proof.
  destruct primacy_within_registry as (H & _).
  apply (H ex_two); [apply ex_reachable|].
  exists 1, ex_two_nic, IPv4ProtocolNumber, [1%nat; 0%nat].
  split_and!; [vm_compute; reflexivity..|]. by left.
Defined.

(** * Runs of the concrete stack *)

(** Adding an address twice fails the second time. *)
Example ex_duplicate :
  AddAddress 1 IPv4ProtocolNumber ex_addr1 ex_added
  = Ok (Some ErrDuplicateAddress, ex_added).
Proof. vm_compute. reflexivity. Qed.

(** An unknown protocol is refused before the registry is looked at. *)
Example ex_unknown_protocol :
  AddAddress 1 0x1234%N ex_addr1 ex_added = Ok (Some ErrUnknownProtocol, ex_added).
Proof. vm_compute. reflexivity. Qed.

(** Another thread runs between the decrement and the removal: the last
    borrower of binding 0 has decremented the count to zero; before it
    takes the lock, a frame for the same address arrives on the NIC, now
    promiscuous, and [getRef] replaces the dying binding, closing its
    endpoint; the removal of the first thread then finds the address
    registered to binding 1 and does nothing.  The endpoint of binding 0
    was closed once. *)
Definition ex_race : Stack :=
  state_after [OpSetPromiscuousMode 1 true;
               OpAtomicAddInt32 0%nat (-1);
               OpGetRef 1 IPv4ProtocolNumber ex_addr1] ex_borrowed.

Example ex_race_removal :
  trace ex_race = [EvClose 0%nat]
  /\ removeEndpoint 1 0%nat ex_race = Ok (tt, ex_race)
  /\ closes 0%nat ex_race = 1%nat.
Proof. split_and!; vm_compute; reflexivity. Qed.

(** A promiscuous NIC makes a temporary binding for a frame to an address
    it does not have; the binding lives for the one call of the handler and
    is out of the registry afterwards. *)
Definition ex_promiscuous : Stack :=
  state_after [OpSetPromiscuousMode 1 true;
               OpDeliverNetworkPacket 1 ex_link1 (bytes [9]%N) (bytes [1]%N)
                 IPv4ProtocolNumber (ex_frame Byte.x03)] (ex_stack false).

Example ex_promiscuous_temporary :
  trace ex_promiscuous
  = [EvHandlePacket 0%nat
       (set_RemoteLinkAddress (bytes [9]%N)
          (makeRoute IPv4ProtocolNumber ex_addr3 ex_addr2 (bytes [1]%N) 0%nat))
       (ex_frame Byte.x03);
     EvClose 0%nat]
  /\ (nics ex_promiscuous !! 1 ≫= fun x => endpoints x !! ex_addr3) = None.
Proof. split; vm_compute; reflexivity. Qed.

(** The forwarded frame of [ex_fwd] goes out of the link driver of NIC 2,
    and the route is released. *)
Example ex_forwarded :
  exists s' r,
    DeliverNetworkPacket 1 ex_link1 (bytes [9]%N) (bytes [1]%N)
      IPv4ProtocolNumber (ex_frame Byte.x03) ex_fwd = Ok (tt, s')
    /\ trace s'
       = [EvWritePacket 2 r (First (ex_frame Byte.x03))
            (RemoveFirst (ex_frame Byte.x03)) IPv4ProtocolNumber;
          EvRelease r]
    /\ IP_PacketsReceived (stats s') = 1%N
    /\ IP_InvalidAddressesReceived (stats s') = 0%N.
Proof. eexists _, _. split_and!; vm_compute; reflexivity. Qed.

(** * Further properties of nic.go *)

(** ** The reference count *)

Lemma wrap32_dec_zero z : int32 z -> wrap32 (z - 1) = 0 <-> z = 1.
Proof.
  unfold int32. intros Hz. split.
  - intros Hw. destruct (decide (z = - 2 ^ 31)) as [Hm|Hm].
    + rewrite Hm in Hw. vm_compute in Hw. done.
    + rewrite wrap32_id in Hw by (unfold int32; lia). lia.
  - intros ->. done.
Qed.

(** X1.  On a binding whose count is zero [tryIncRef] fails and changes
    nothing; on a binding whose count is not zero it succeeds and adds one
    to the count, and the [decRef] that gives the reference back restores
    the state exactly, with no teardown. *)
Theorem tryIncRef_then_decRef s r b :
  heap s !! r = Some b -> int32 (refs b) ->
  (refs b = 0 -> tryIncRef r s = Ok (false, s))
  /\ (refs b ≠ 0 ->
      exists s1, tryIncRef r s = Ok (true, s1)
                 /\ heap s1 !! r = Some (set_refs (wrap32 (refs b + 1)) b)
                 /\ nics s1 = nics s /\ trace s1 = trace s
                 /\ decRef r s1 = Ok (tt, s)).
Proof.
  intros Hb Hrange. rewrite (tryIncRef_run _ _ _ Hb). split.
  - intros Hz. by rewrite decide_True.
  - intros Hz. rewrite decide_False by done.
    destruct (borrow_release s r b Hb Hrange Hz) as [Hb1 Ed].
    unfold borrow in Hb1, Ed. rewrite Hb in Hb1, Ed.
    eexists. split_and!; [reflexivity|exact Hb1|done|done|exact Ed].
Qed.

Lemma tryIncRef_then_decRef_witness :
  exists s1, tryIncRef 0%nat ex_added = Ok (true, s1)
             /\ decRef 0%nat s1 = Ok (tt, ex_added).
Proof.
  destruct (tryIncRef_then_decRef ex_added 0%nat
              (mkRef 1 ex_addr1 1 IPv4ProtocolNumber false true))
    as [_ H]; [vm_compute; reflexivity | unfold int32; simpl; lia |].
  destruct H as (s1 & E & _ & _ & _ & Ed); [discriminate|].
  exists s1. split; [exact E | exact Ed].
Defined.

(** X2.  A [decRef] that does not take the count from one to zero only
    decrements: it removes nothing from the registry or the primacy lists
    and closes nothing, also when the count was already zero or negative
    (a release too many does not tear the binding down again). *)
Theorem decRef_not_last s r b :
  heap s !! r = Some b -> int32 (refs b) -> refs b ≠ 1 ->
  decRef r s = Ok (tt, upd_heap r (set_refs (wrap32 (refs b - 1)) b) s).
Proof.
  intros Hb Hrange Hne. rewrite (decRef_run _ _ _ Hb). cbv zeta.
  rewrite decide_False; [done|]. intros Hw. by apply wrap32_dec_zero in Hw.
Qed.

(** The binding 0 of [ex_borrowed] was released by its last borrower. *)
Definition ex_released : Stack :=
  state_after [OpDecRef 0%nat] ex_borrowed.

Lemma decRef_not_last_witness :
  decRef 0%nat ex_released
  = Ok (tt, upd_heap 0%nat (mkRef (-1) ex_addr1 1 IPv4ProtocolNumber false false)
              ex_released)
  /\ trace ex_released = [EvClose 0%nat].
Proof.
  split; [|vm_compute; reflexivity].
  apply (decRef_not_last ex_released 0%nat
           (mkRef 0 ex_addr1 1 IPv4ProtocolNumber false false));
    [vm_compute; reflexivity | unfold int32; simpl; lia | discriminate].
Defined.

(** X3.  The removal of an endpoint is idempotent: in a state that
    satisfies the invariant, a second [removeEndpoint] of the same binding
    right after a first one that returned does nothing. *)
Theorem removeEndpoint_twice s n r s' :
  inv s -> removeEndpoint n r s = Ok (tt, s') ->
  removeEndpoint n r s' = Ok (tt, s').
Proof.
  intros Hinv E. unfold removeEndpoint in *.
  destruct (removeEndpointLocked_inv _ _ _ _ Hinv E)
    as (b & x & Hb & Hx & [[Hk ->]|(Hk & Hbit & _ & l & Hl & ->)]).
  - by eapply removeEndpointLocked_noop.
  - apply (removeEndpointLocked_noop _ n r b (torn_nic r b l x)).
    + done.
    + apply nics_upd_nic_eq.
    + by rewrite endpoints_torn_nic.
Qed.

Lemma removeEndpoint_twice_witness :
  exists s', removeEndpoint 1 0%nat ex_borrowed = Ok (tt, s')
             /\ removeEndpoint 1 0%nat s' = Ok (tt, s')
             /\ trace s' = [EvClose 0%nat].
Proof.
  eexists. split; [vm_compute; reflexivity|]. split.
  - apply (removeEndpoint_twice ex_borrowed 1 0%nat);
      [apply ex_inv | vm_compute; reflexivity].
  - vm_compute. reflexivity.
Defined.

(** The NIC [n] of the example state [s]. *)
Definition ex_nic (s : Stack) (n : NICID) : NIC :=
  default (newNIC n EmptyString ex_link1 (ex_demux 7)) (nics s !! n).

(** ** The primary endpoint *)

(** The binding can be handed out as the primary endpoint: its address is
    neither the broadcast nor the unspecified address, and its count is not
    zero. *)
Definition usable (s : Stack) (r : RefId) : bool :=
  match heap s !! r with
  | Some b =>
      negb (bool_decide (ep b = IPv4Broadcast ∨ ep b = IPv4Any))
      && negb (refs b =? 0)
  | None => false
  end.

Lemma scanPrimary_run s l :
  (forall r, r ∈ l -> is_Some (heap s !! r)) ->
  scanPrimary l s
  = Ok (find (usable s) l,
        match find (usable s) l with
        | Some r => borrow r s
        | None => s
        end).
Proof.
  induction l as [|r l IH]; intros Hl; simpl; [done|].
  destruct (Hl r) as [b Hb]; [by left|].
  rewrite (bind_Ok _ _ _ _ _ (getB_Ok _ _ _ Hb)).
  unfold usable at 1 3. rewrite Hb.
  assert (forall r0, r0 ∈ l -> is_Some (heap s !! r0)) as Hl'.
  { intros r0 Hr0. apply Hl. by right. }
  case_decide as Ha.
  - rewrite bool_decide_true by done. simpl. by apply IH.
  - rewrite bool_decide_false by done. simpl.
    destruct (decide (refs b = 0)) as [Hz|Hz].
    + rewrite (bind_Ok _ _ _ false s).
      * rewrite Hz. simpl. by apply IH.
      * rewrite (tryIncRef_run _ _ _ Hb). by rewrite decide_True.
    + rewrite (bind_Ok _ _ _ true (borrow r s)).
      * apply Z.eqb_neq in Hz. rewrite Hz. done.
      * rewrite (tryIncRef_run _ _ _ Hb). rewrite decide_False by done.
        unfold borrow. by rewrite Hb.
Qed.

Lemma usable_Some s r :
  usable s r = true ->
  exists b, heap s !! r = Some b /\ ep b ≠ IPv4Broadcast /\ ep b ≠ IPv4Any
            /\ refs b ≠ 0.
Proof.
  unfold usable. destruct (heap s !! r) as [b|]; [|done].
  intros [Ha Hz]%andb_true_iff. exists b.
  apply negb_true_iff, bool_decide_eq_false in Ha.
  apply negb_true_iff, Z.eqb_neq in Hz. naive_solver.
Qed.

Lemma primaryEndpoint_run s n x p :
  inv s -> nics s !! n = Some x ->
  primaryEndpoint n p s
  = Ok (primary x !! p ≫= find (usable s),
        match primary x !! p ≫= find (usable s) with
        | Some r => borrow r s
        | None => s
        end).
Proof.
  intros Hinv Hx. unfold primaryEndpoint.
  rewrite (bind_Ok _ _ _ _ _ (getNIC_Ok _ _ _ Hx)).
  destruct (primary x !! p) as [l|] eqn:Hl; [|done]. simpl.
  apply scanPrimary_run. intros r Hr.
  destruct (inv_primary s Hinv n x p l r Hx Hl Hr) as (b & Hb & _). eauto.
Qed.

(** X4.  [primaryEndpoint] hands out the first binding of the primacy list
    of the protocol, in list order, whose address is neither the broadcast
    nor the unspecified address and whose count is not zero, with one
    reference taken and nothing else changed; whether the binding still
    holds its registration bit plays no part.  With no such binding, or no
    list for the protocol, it returns nil and changes nothing. *)
Theorem primaryEndpoint_first s n x p :
  inv s -> nics s !! n = Some x ->
  (forall l1 r l2,
      primary x !! p = Some (l1 ++ r :: l2) ->
      (forall r', r' ∈ l1 -> usable s r' = false) -> usable s r = true ->
      primaryEndpoint n p s = Ok (Some r, borrow r s))
  /\ ((forall l r, primary x !! p = Some l -> r ∈ l -> usable s r = false) ->
      primaryEndpoint n p s = Ok (None, s))
  /\ (forall r s',
         primaryEndpoint n p s = Ok (Some r, s') ->
         exists b l, heap s !! r = Some b /\ primary x !! p = Some l /\ r ∈ l
                     /\ protocol b = p
                     /\ ep b ≠ IPv4Broadcast /\ ep b ≠ IPv4Any /\ refs b ≠ 0
                     /\ s' = borrow r s).
Proof.
  intros Hinv Hx. rewrite (primaryEndpoint_run s n x p Hinv Hx). split_and!.
  - intros l1 r l2 Hl Hl1 Hr. rewrite Hl. simpl.
    by rewrite (find_first _ _ _ _ Hl1 Hr).
  - intros Hall. destruct (primary x !! p) as [l|] eqn:Hl; [|done]. simpl.
    destruct (find (usable s) l) as [r|] eqn:Hf; [|done].
    apply find_some in Hf as [Hin Hu]. apply list_elem_of_In in Hin.
    rewrite (Hall l r eq_refl Hin) in Hu. done.
  - intros r s' E. destruct (primary x !! p) as [l|] eqn:Hl; [|done].
    simpl in E. destruct (find (usable s) l) as [r0|] eqn:Hf; [|done].
    injection E as -> <-.
    apply find_some in Hf as [Hin Hu]. apply list_elem_of_In in Hin.
    destruct (usable_Some _ _ Hu) as (b & Hb & Hbc & Hany & Hz).
    destruct (inv_primary s Hinv n x p l r Hx Hl Hin) as (b' & Hb' & Hp & _).
    rewrite Hb in Hb'. injection Hb' as <-.
    exists b, l. split_and!; done.
Qed.

(** NIC 1 has the broadcast address, then 10.0.0.1, then 10.0.0.2. *)
Definition ex_primary : Stack :=
  state_after [OpAddAddress 1 IPv4ProtocolNumber IPv4Broadcast;
               OpAddAddress 1 IPv4ProtocolNumber ex_addr1;
               OpAddAddress 1 IPv4ProtocolNumber ex_addr2] (ex_stack false).

Lemma primaryEndpoint_first_witness :
  primaryEndpoint 1 IPv4ProtocolNumber ex_primary
  = Ok (Some 1%nat, borrow 1%nat ex_primary).
Proof.
  destruct (primaryEndpoint_first ex_primary 1 (ex_nic ex_primary 1)
              IPv4ProtocolNumber) as (H & _);
    [apply ex_inv | vm_compute; reflexivity |].
  apply (H [0%nat] 1%nat [2%nat]); [vm_compute; reflexivity | | vm_compute; reflexivity].
  intros r' ->%list_elem_of_singleton. vm_compute. reflexivity.
Defined.

(** ** Bindings handed out *)

(** The registry of the NIC [n] holds the binding [r]. *)
Definition bound (s : Stack) (n : NICID) (r : RefId) : Prop :=
  exists x k, nics s !! n = Some x /\ endpoints x !! k = Some r.

(** The binding [r] is of the NIC [n], the registry of [n] has it at its
    address, and its endpoint was never closed. *)
Definition in_service (s : Stack) (n : NICID) (r : RefId) : Prop :=
  exists x b, nics s !! n = Some x /\ heap s !! r = Some b /\ nic b = n
              /\ endpoints x !! ep b = Some r /\ closes r s = 0%nat.

Lemma bound_in_service s n r : inv s -> bound s n r -> in_service s n r.
Proof.
  intros Hinv (x & k & Hx & Hk).
  destruct (inv_registry s Hinv n x k r Hx Hk) as (b & Hb & <- & Hn & _).
  destruct (inv_heap s Hinv r b Hb) as (_ & x' & Hx' & Hcase).
  rewrite Hn, Hx in Hx'. injection Hx' as <-.
  exists x, b. destruct Hcase as [[_ Hc]|[Hne _]]; done.
Qed.

Lemma lookupLive_bound s n a :
  post (lookupLive n a) s
       (fun ref s' => forall r, ref = Some r -> bound s' n r).
Proof.
  unfold post. destruct (nics s !! n) as [x|] eqn:Hx.
  2: { unfold lookupLive. by rewrite (bind_Panic _ _ _ _ (getNIC_Panic _ _ Hx)). }
  rewrite (lookupLive_run s n a x Hx).
  destruct (endpoints x !! a) as [ref|] eqn:Ha; [|by intros].
  destruct (heap s !! ref) as [b|] eqn:Hb; [|done].
  destruct (decide (refs b = 0)); [by intros|].
  intros r [= <-]. by exists x, a.
Qed.

Lemma temporary_bound s n p a peb :
  post (r ← addAddressLocked n p a peb true;
        match r with
        | inr ref => modB ref (set_holdsInsertRef false);; mret (Some ref)
        | inl _ => mret None
        end) s
       (fun ref s' => forall r, ref = Some r -> bound s' n r).
Proof.
  apply post_bind. unfold post at 1.
  destruct (addAddressLocked n p a peb true s) as [[[err|ref] s1]|] eqn:E;
    [by intros|..|done].
  apply addAddressLocked_inv in E as (s0 & x0 & k & Hx0 & -> & ->).
  set (s1 := registered_state n p k peb x0 s0).
  assert (heap s1 !! List.length (heap s0) = Some (fresh_ref n p k x0 s0)) as Hb.
  { unfold s1. simpl. by rewrite list_lookup_middle. }
  unfold post. rewrite (bind_Ok _ _ _ _ _ (modB_Ok _ _ _ _ Hb)).
  intros r [= <-].
  exists (registered_nic p k peb (List.length (heap s0)) x0), k. split.
  - simpl. apply lookup_insert_eq.
  - simpl. apply lookup_insert_eq.
Qed.

Lemma getRef_bound s n p a :
  post (getRef n p a) s (fun ref s' => forall r, ref = Some r -> bound s' n r).
Proof.
  unfold getRef. apply post_bind.
  eapply post_mono; [apply lookupLive_bound|]. intros ref s1 H1.
  destruct ref as [r0|]; [exact H1|].
  apply post_bind. unfold post at 1.
  destruct (getNIC n s1) as [[x s0]|] eqn:E; [|done].
  apply getNIC_inv in E as [_ ->].
  destruct (_ || _); [|by intros].
  apply post_bind.
  eapply post_mono; [apply lookupLive_bound|]. intros ref s2 H2.
  destruct ref as [r0|]; [exact H2|]. apply temporary_bound.
Qed.

Lemma findEndpoint_bound s n p a peb :
  post (findEndpoint n p a peb) s
       (fun ref s' => forall r, ref = Some r -> bound s' n r).
Proof.
  unfold findEndpoint. apply post_bind.
  eapply post_mono; [apply lookupLive_bound|]. intros ref s1 H1.
  apply post_bind. unfold post at 1.
  destruct (getNIC n s1) as [[x s0]|] eqn:E; [|done].
  apply getNIC_inv in E as [_ ->].
  destruct ref as [r0|]; [exact H1|].
  destruct (negb (spoofing x)); [by intros|].
  apply post_bind.
  eapply post_mono; [apply lookupLive_bound|]. intros ref s2 H2.
  destruct ref as [r0|]; [exact H2|]. apply temporary_bound.
Qed.

Lemma nics_borrow r s : nics (borrow r s) = nics s.
Proof. unfold borrow. by destruct (heap s !! r). Qed.

(** X5.  In a state that satisfies the invariant, a binding that [getRef],
    [findEndpoint] or [primaryEndpoint] hands out is a binding of that NIC,
    registered there at its own address, and its endpoint has not been
    closed: no lookup hands out an endpoint after it was torn down. *)
Theorem handed_out_in_service s n p a peb r s' :
  inv s ->
  getRef n p a s = Ok (Some r, s')
  \/ findEndpoint n p a peb s = Ok (Some r, s')
  \/ primaryEndpoint n p s = Ok (Some r, s') ->
  inv s' /\ in_service s' n r.
Proof.
  intros Hinv [E|[E|E]].
  - assert (inv s') as Hinv'
      by exact (post_elim _ _ _ _ _ (preserves_getRef _ inv_stable n p a s Hinv) E).
    split; [done|]. apply bound_in_service; [done|].
    exact (post_elim _ _ _ _ _ (getRef_bound s n p a) E r eq_refl).
  - assert (inv s') as Hinv'
      by exact (post_elim _ _ _ _ _
                  (preserves_findEndpoint _ inv_stable n p a peb s Hinv) E).
    split; [done|]. apply bound_in_service; [done|].
    exact (post_elim _ _ _ _ _ (findEndpoint_bound s n p a peb) E r eq_refl).
  - assert (inv s') as Hinv'
      by exact (post_elim _ _ _ _ _
                  (preserves_primaryEndpoint _ inv_stable n p s Hinv) E).
    split; [done|]. apply bound_in_service; [done|].
    destruct (nics s !! n) as [x|] eqn:Hx.
    2: { unfold primaryEndpoint in E.
         by rewrite (bind_Panic _ _ _ _ (getNIC_Panic _ _ Hx)) in E. }
    rewrite (primaryEndpoint_run s n x p Hinv Hx) in E.
    destruct (primary x !! p) as [l|] eqn:Hl; [|done]. simpl in E.
    destruct (find (usable s) l) as [r0|] eqn:Hf; [|done].
    injection E as -> <-.
    apply find_some in Hf as [Hin _]. apply list_elem_of_In in Hin.
    destruct (inv_primary s Hinv n x p l r Hx Hl Hin) as (b & _ & _ & Hk).
    exists x, (ep b). by rewrite nics_borrow.
Qed.

Lemma handed_out_in_service_witness :
  in_service (borrow 0%nat ex_added) 1 0%nat.
Proof.
  apply (handed_out_in_service ex_added 1 IPv4ProtocolNumber ex_addr1
           CanBePrimaryEndpoint 0%nat (borrow 0%nat ex_added));
    [apply ex_inv | left; vm_compute; reflexivity].
Defined.

(** ** The destination of a frame *)

Lemma lookupLive_none s n x a :
  nics s !! n = Some x ->
  (endpoints x !! a = None
   \/ exists r b, endpoints x !! a = Some r /\ heap s !! r = Some b
                  /\ refs b = 0) ->
  lookupLive n a s = Ok (None, s).
Proof.
  intros Hx H. rewrite (lookupLive_run s n a x Hx).
  destruct H as [->|(r & b & -> & -> & Hz)]; [done|]. by rewrite decide_True.
Qed.

(** X6.  A frame is not for this NIC when the NIC is not promiscuous, none
    of the subnets added to it contains the destination, and the registry
    has no binding for the destination or one whose count is zero: [getRef]
    returns nil and changes nothing, whatever the protocol. *)
Theorem getRef_not_mine s n x p a :
  nics s !! n = Some x -> promiscuous x = false ->
  (forall sn, sn ∈ subnets x -> Contains sn a = false) ->
  (endpoints x !! a = None
   \/ exists r b, endpoints x !! a = Some r /\ heap s !! r = Some b
                  /\ refs b = 0) ->
  getRef n p a s = Ok (None, s).
Proof.
  intros Hx Hprom Hsn Ha. unfold getRef.
  rewrite (bind_Ok _ _ _ _ _ (lookupLive_none _ _ _ _ Hx Ha)).
  rewrite (bind_Ok _ _ _ _ _ (getNIC_Ok _ _ _ Hx)).
  rewrite Hprom. simpl.
  destruct (existsb _ _) eqn:Hex; [|done].
  apply existsb_exists in Hex as (sn & Hin & Hc).
  apply list_elem_of_In in Hin. rewrite (Hsn sn Hin) in Hc. done.
Qed.

Definition ex_far : Address := bytes [192; 168; 0; 1]%N.

Lemma getRef_not_mine_witness :
  getRef 1 IPv4ProtocolNumber ex_far ex_subnets = Ok (None, ex_subnets).
Proof.
  apply (getRef_not_mine ex_subnets 1 (ex_nic ex_subnets 1));
    [vm_compute; reflexivity | vm_compute; reflexivity | | left; vm_compute; reflexivity].
  intros sn Hsn. change (subnets (ex_nic ex_subnets 1))
    with [ex_sn24; ex_sn8; ex_sn24] in Hsn.
  apply elem_of_cons in Hsn as [->|Hsn]; [vm_compute; reflexivity|].
  apply elem_of_cons in Hsn as [->|Hsn]; [vm_compute; reflexivity|].
  apply list_elem_of_singleton in Hsn as ->. vm_compute. reflexivity.
Defined.

(** ** Bindings made on demand *)

Lemma fresh_notin s n x p l :
  inv s -> nics s !! n = Some x -> primary x !! p = Some l ->
  List.length (heap s) ∉ l.
Proof.
  intros Hinv Hx Hl Hin.
  destruct (inv_primary s Hinv n x p l _ Hx Hl Hin) as (b & Hb & _).
  apply lookup_lt_Some in Hb. lia.
Qed.

Lemma fresh_notin_default s n x p :
  inv s -> nics s !! n = Some x ->
  List.length (heap s) ∉ default [] (primary x !! p).
Proof.
  intros Hinv Hx. destruct (primary x !! p) as [l|] eqn:Hl; simpl.
  - by eapply fresh_notin.
  - apply not_elem_of_nil.
Qed.

Lemma Remove_pushed peb r (l : list nat) : r ∉ l -> Remove r (pushed peb r l) = l.
Proof.
  intros Hr. destruct peb; simpl.
  - unfold PushBack, Remove. rewrite filter_app.
    rewrite (filter_cons_False _ r []) by (intros H; by apply H).
    rewrite filter_nil, app_nil_r. by apply Remove_notin.
  - unfold PushFront, Remove.
    rewrite filter_cons_False by (intros H; by apply H). by apply Remove_notin.
  - by apply Remove_notin.
Qed.

(** The NIC after a binding was registered and torn down again: the
    registry is as it was, and the protocol has its primacy list back, or
    an empty one where it had none. *)
Definition restored_nic (p : NetworkProtocolNumber) (x : NIC) : NIC :=
  set_primary (<[p := default [] (primary x !! p)]>) x.

Lemma torn_registered_nic r b p k peb x :
  ep b = k -> protocol b = p -> endpoints x !! k = None ->
  r ∉ default [] (primary x !! p) ->
  torn_nic r b (pushed peb r (default [] (primary x !! p)))
           (registered_nic p k peb r x)
  = restored_nic p x.
Proof.
  intros <- <- Hk Hr. unfold torn_nic, registered_nic, restored_nic.
  destruct x as [i nm le dm sp pr prim eps sns]. simpl in *.
  unfold set_primary, set_endpoints. simpl. f_equal.
  - rewrite insert_insert_eq. by rewrite Remove_pushed.
  - rewrite delete_insert_eq. by apply delete_id.
Qed.

(** The state after a binding for [k] was made on demand: the fresh
    binding is registered, and its registration bit is clear. *)
Definition temporary_state (n : NICID) (p : NetworkProtocolNumber)
    (k : Address) (peb : PrimaryEndpointBehavior) (x : NIC) (s : Stack) : Stack :=
  upd_heap (List.length (heap s))
           (set_holdsInsertRef false (fresh_ref n p k x s))
           (registered_state n p k peb x s).

Lemma temporary_run s n x p a peb np k :
  nics s !! n = Some x -> networkProtocols (cfg s) !! p = Some np ->
  np_NewEndpoint np (id x) a = inr k -> endpoints x !! k = None ->
  (r ← addAddressLocked n p a peb true;
   match r with
   | inr ref => modB ref (set_holdsInsertRef false);; mret (Some ref)
   | inl _ => mret None
   end) s
  = Ok (Some (List.length (heap s)), temporary_state n p k peb x s).
Proof.
  intros Hx Hp Hnew Hk.
  rewrite (bind_Ok _ _ _ (inr (List.length (heap s)))
             (registered_state n p k peb x s)).
  2: { rewrite (addAddressLocked_eq _ _ _ _ _ _ np x) by done.
       rewrite Hnew, Hk. by apply registerLocked_run. }
  rewrite (bind_Ok _ _ _ tt (temporary_state n p k peb x s)); [done|].
  apply modB_Ok. simpl. by rewrite list_lookup_middle.
Qed.

(** The last reference on a binding made on demand is given back, in a
    state [s1] that has the heap and the NICs the demand left. *)
Lemma temporary_release s n x p k peb s1 :
  inv s -> nics s !! n = Some x -> endpoints x !! k = None ->
  heap s1 = heap (temporary_state n p k peb x s) ->
  nics s1 = nics (temporary_state n p k peb x s) ->
  exists s2,
    decRef (List.length (heap s)) s1 = Ok (tt, s2)
    /\ nics s2 = <[n := restored_nic p x]> (nics s)
    /\ heap s2
       = heap s ++ [set_refs 0 (set_holdsInsertRef false (fresh_ref n p k x s))]
    /\ trace s2 = trace s1 ++ [EvClose (List.length (heap s))]
    /\ stats s2 = stats s1 /\ cfg s2 = cfg s1.
Proof.
  intros Hinv Hx Hk Hh Hn.
  set (ref := List.length (heap s)).
  set (b1 := set_holdsInsertRef false (fresh_ref n p k x s)).
  set (b0 := set_refs 0 b1).
  set (l0 := default [] (primary x !! p)).
  assert (heap s1 !! ref = Some b1) as Hb1.
  { rewrite Hh. unfold temporary_state. eapply heap_upd_heap_eq.
    simpl. by rewrite list_lookup_middle. }
  assert (heap (upd_heap ref b0 s1) !! ref = Some b0) as Hb0
    by by eapply heap_upd_heap_eq.
  assert (nics (upd_heap ref b0 s1) !! n
          = Some (registered_nic p k peb ref x)) as Hx1.
  { simpl. rewrite Hn. simpl. apply lookup_insert_eq. }
  exists (torn n ref b0 (pushed peb ref l0) (registered_nic p k peb ref x)
               (upd_heap ref b0 s1)).
  split_and!.
  - rewrite (decRef_run _ _ _ Hb1). cbv zeta.
    change (set_refs (wrap32 (refs b1 - 1)) b1) with b0.
    change (wrap32 (refs b1 - 1)) with 0. rewrite decide_True by done.
    unfold removeEndpoint. change (nic b1) with n.
    apply (removeEndpointLocked_run _ n ref b0 _ (pushed peb ref l0) Hb0 Hx1).
    + simpl. apply lookup_insert_eq.
    + done.
    + simpl. apply lookup_insert_eq.
  - simpl. rewrite Hn. simpl. rewrite insert_insert_eq. f_equal.
    apply torn_registered_nic; [done..|]. by apply (fresh_notin_default s n).
  - simpl. rewrite Hh. simpl. rewrite !list_insert_insert_eq.
    rewrite insert_app_r_alt by done. fold ref. rewrite Nat.sub_diag. done.
  - done.
  - done.
  - done.
Qed.

Lemma accepts_any (x : NIC) a :
  promiscuous x = true \/ (exists sn, sn ∈ subnets x /\ Contains sn a = true) ->
  promiscuous x || existsb (fun sn => Contains sn a) (subnets x) = true.
Proof.
  intros [->|(sn & Hin & Hc)]; [done|].
  apply orb_true_iff. right. apply existsb_exists. exists sn.
  split; [by apply list_elem_of_In|done].
Qed.

(** X7.  On a NIC that is promiscuous, or that has a subnet containing the
    destination, [getRef] makes a binding for a destination the registry
    does not have: a fresh binding with one reference and no registration
    bit, registered and appended to the primacy list of the protocol.
    Giving that one reference back tears the binding down: its endpoint is
    closed, the registry is as it was before the frame, and so is the
    primacy list of the protocol (an empty one where there was none). *)
Theorem getRef_temporary s n x p a np k :
  inv s -> nics s !! n = Some x ->
  networkProtocols (cfg s) !! p = Some np ->
  np_NewEndpoint np (id x) a = inr k ->
  endpoints x !! a = None -> endpoints x !! k = None ->
  promiscuous x = true \/ (exists sn, sn ∈ subnets x /\ Contains sn a = true) ->
  exists s1 s2 b x1,
    getRef n p a s = Ok (Some (List.length (heap s)), s1)
    /\ heap s1 !! List.length (heap s) = Some b
    /\ refs b = 1 /\ holdsInsertRef b = false
    /\ ep b = k /\ nic b = n /\ protocol b = p
    /\ nics s1 !! n = Some x1
    /\ endpoints x1 !! k = Some (List.length (heap s))
    /\ primary x1 !! p
       = Some (default [] (primary x !! p) ++ [List.length (heap s)])
    /\ decRef (List.length (heap s)) s1 = Ok (tt, s2)
    /\ trace s2 = trace s ++ [EvClose (List.length (heap s))]
    /\ nics s2 = <[n := restored_nic p x]> (nics s).
Proof.
  intros Hinv Hx Hp Hnew Ha Hk Hprom.
  destruct (temporary_release s n x p k CanBePrimaryEndpoint _ Hinv Hx Hk
              eq_refl eq_refl)
    as (s2 & Ed & Hn2 & _ & Ht & _).
  exists (temporary_state n p k CanBePrimaryEndpoint x s), s2,
         (set_holdsInsertRef false (fresh_ref n p k x s)),
         (registered_nic p k CanBePrimaryEndpoint (List.length (heap s)) x).
  split_and!; try done.
  - unfold getRef.
    rewrite (bind_Ok _ _ _ _ _ (lookupLive_none _ _ _ _ Hx (or_introl Ha))).
    rewrite (bind_Ok _ _ _ _ _ (getNIC_Ok _ _ _ Hx)). cbv zeta.
    rewrite (accepts_any x a Hprom).
    rewrite (bind_Ok _ _ _ _ _ (lookupLive_none _ _ _ _ Hx (or_introl Ha))).
    by apply (temporary_run s n x p a _ np k).
  - eapply heap_upd_heap_eq. simpl. by rewrite list_lookup_middle.
  - simpl. apply lookup_insert_eq.
  - simpl. apply lookup_insert_eq.
  - simpl. apply lookup_insert_eq.
Qed.

(** NIC 1 of the example is promiscuous and has no address. *)
Definition ex_listening : Stack :=
  state_after [OpSetPromiscuousMode 1 true] (ex_stack false).

Lemma getRef_temporary_witness :
  exists s1 s2,
    getRef 1 IPv4ProtocolNumber ex_addr3 ex_listening = Ok (Some 0%nat, s1)
    /\ decRef 0%nat s1 = Ok (tt, s2)
    /\ trace s2 = [EvClose 0%nat]
    /\ nics s2
       = <[1 := restored_nic IPv4ProtocolNumber (ex_nic ex_listening 1)]>
           (nics ex_listening).
Proof.
  destruct (getRef_temporary ex_listening 1 (ex_nic ex_listening 1)
              IPv4ProtocolNumber ex_addr3 ex_ipv4 ex_addr3)
    as (s1 & s2 & b & x1 & E & _ & _ & _ & _ & _ & _ & _ & _ & _ & Ed & Ht & Hn);
    [apply ex_inv | vm_compute; reflexivity | vm_compute; reflexivity
    | reflexivity | vm_compute; reflexivity | vm_compute; reflexivity
    | left; vm_compute; reflexivity |].
  exists s1, s2. split_and!; [exact E | exact Ed | exact Ht | exact Hn].
Defined.

(** X8.  [findEndpoint] for an address the registry does not have: with
    spoofing off it returns nil and changes nothing; with spoofing on it
    makes a binding with one reference and no registration bit, registered
    and inserted in the primacy list of the protocol as the caller asks
    (at the back, at the front, or not at all), and giving that reference
    back tears the binding down and leaves the registry and the list as
    they were.  A protocol the stack does not have gives nil. *)
Theorem findEndpoint_spoofing s n x p a peb :
  inv s -> nics s !! n = Some x -> endpoints x !! a = None ->
  (spoofing x = false -> findEndpoint n p a peb s = Ok (None, s))
  /\ (spoofing x = true -> networkProtocols (cfg s) !! p = None ->
      findEndpoint n p a peb s = Ok (None, s))
  /\ (spoofing x = true ->
      forall np k,
        networkProtocols (cfg s) !! p = Some np ->
        np_NewEndpoint np (id x) a = inr k -> endpoints x !! k = None ->
        exists s1 s2 b x1,
          findEndpoint n p a peb s = Ok (Some (List.length (heap s)), s1)
          /\ heap s1 !! List.length (heap s) = Some b
          /\ refs b = 1 /\ holdsInsertRef b = false
          /\ ep b = k /\ nic b = n /\ protocol b = p
          /\ nics s1 !! n = Some x1
          /\ endpoints x1 !! k = Some (List.length (heap s))
          /\ primary x1 !! p
             = Some (pushed peb (List.length (heap s))
                            (default [] (primary x !! p)))
          /\ decRef (List.length (heap s)) s1 = Ok (tt, s2)
          /\ trace s2 = trace s ++ [EvClose (List.length (heap s))]
          /\ nics s2 = <[n := restored_nic p x]> (nics s)).
Proof.
  intros Hinv Hx Ha.
  assert (lookupLive n a s = Ok (None, s)) as Hl
    by exact (lookupLive_none _ _ _ _ Hx (or_introl Ha)).
  split_and!.
  - intros Hsp. unfold findEndpoint.
    rewrite (bind_Ok _ _ _ _ _ Hl).
    rewrite (bind_Ok _ _ _ _ _ (getNIC_Ok _ _ _ Hx)). by rewrite Hsp.
  - intros Hsp Hp. unfold findEndpoint.
    rewrite (bind_Ok _ _ _ _ _ Hl).
    rewrite (bind_Ok _ _ _ _ _ (getNIC_Ok _ _ _ Hx)). rewrite Hsp.
    change (negb true) with false. cbv iota.
    rewrite (bind_Ok _ _ _ _ _ Hl).
    by rewrite (bind_Ok _ _ _ _ _ (addAddressLocked_unknown _ _ _ _ _ _ Hp)).
  - intros Hsp np k Hp Hnew Hk.
    destruct (temporary_release s n x p k peb _ Hinv Hx Hk eq_refl eq_refl)
      as (s2 & Ed & Hn2 & _ & Ht & _).
    exists (temporary_state n p k peb x s), s2,
           (set_holdsInsertRef false (fresh_ref n p k x s)),
           (registered_nic p k peb (List.length (heap s)) x).
    split_and!; try done.
    + unfold findEndpoint.
      rewrite (bind_Ok _ _ _ _ _ Hl).
      rewrite (bind_Ok _ _ _ _ _ (getNIC_Ok _ _ _ Hx)). rewrite Hsp.
      change (negb true) with false. cbv iota.
      rewrite (bind_Ok _ _ _ _ _ Hl).
      by apply (temporary_run s n x p a _ np k).
    + eapply heap_upd_heap_eq. simpl. by rewrite list_lookup_middle.
    + simpl. apply lookup_insert_eq.
    + simpl. apply lookup_insert_eq.
    + simpl. apply lookup_insert_eq.
Qed.

(** NIC 1 of the example has the address 10.0.0.1 and spoofing on. *)
Definition ex_spoofing : Stack :=
  state_after [OpAddAddress 1 IPv4ProtocolNumber ex_addr1;
               OpSetSpoofing 1 true] (ex_stack false).

Lemma findEndpoint_spoofing_witness :
  exists s1 s2 x1,
    findEndpoint 1 IPv4ProtocolNumber ex_addr3 FirstPrimaryEndpoint ex_spoofing
    = Ok (Some 1%nat, s1)
    /\ nics s1 !! 1 = Some x1
    /\ primary x1 !! IPv4ProtocolNumber = Some [1%nat; 0%nat]
    /\ decRef 1%nat s1 = Ok (tt, s2)
    /\ trace s2 = [EvClose 1%nat].
Proof.
  destruct (findEndpoint_spoofing ex_spoofing 1 (ex_nic ex_spoofing 1)
              IPv4ProtocolNumber ex_addr3 FirstPrimaryEndpoint)
    as (_ & _ & H);
    [apply ex_inv | vm_compute; reflexivity | vm_compute; reflexivity |].
  destruct (H eq_refl ex_ipv4 ex_addr3)
    as (s1 & s2 & b & x1 & E & _ & _ & _ & _ & _ & _ & Hx1 & _ & Hl & Ed & Ht & _);
    [vm_compute; reflexivity | reflexivity | vm_compute; reflexivity |].
  exists s1, s2, x1. split_and!; [exact E | exact Hx1 | exact Hl | exact Ed | exact Ht].
Defined.

(** X9.  A binding registered at the address whose count is not zero is
    handed out by [getRef] and by [findEndpoint] with one reference taken
    and nothing else changed: the protocol that is asked for, the modes of
    the NIC and the registration bit of the binding play no part. *)
Theorem lookup_live_binding s n x p a peb r b :
  nics s !! n = Some x -> endpoints x !! a = Some r ->
  heap s !! r = Some b -> refs b ≠ 0 ->
  getRef n p a s = Ok (Some r, borrow r s)
  /\ findEndpoint n p a peb s = Ok (Some r, borrow r s).
Proof.
  intros Hx Ha Hb Hz.
  assert (lookupLive n a s = Ok (Some r, borrow r s)) as Hl.
  { rewrite (lookupLive_run s n a x Hx), Ha, Hb.
    rewrite decide_False by done. unfold borrow. by rewrite Hb. }
  split.
  - unfold getRef. by rewrite (bind_Ok _ _ _ _ _ Hl).
  - unfold findEndpoint. rewrite (bind_Ok _ _ _ _ _ Hl).
    rewrite (bind_Ok _ _ _ x (borrow r s)); [done|].
    apply getNIC_Ok. by rewrite nics_borrow.
Qed.

Lemma lookup_live_binding_witness :
  getRef 1 0x0806%N ex_addr1 ex_borrowed = Ok (Some 0%nat, borrow 0%nat ex_borrowed)
  /\ findEndpoint 1 0x0806%N ex_addr1 NeverPrimaryEndpoint ex_borrowed
     = Ok (Some 0%nat, borrow 0%nat ex_borrowed).
Proof.
  apply (lookup_live_binding ex_borrowed 1 (ex_nic ex_borrowed 1) 0x0806%N
           ex_addr1 NeverPrimaryEndpoint 0%nat
           (mkRef 1 ex_addr1 1 IPv4ProtocolNumber false false));
    [vm_compute; reflexivity | vm_compute; reflexivity
    | vm_compute; reflexivity | discriminate].
Defined.

(** ** Adding and removing an address *)

(** X10.  [AddAddressWithOptions] on a NIC never panics.  A failure leaves
    the state as it was, and is the unknown protocol, the error of the
    endpoint factory, or the duplicate address, in this order.  A success
    appends one binding with one reference and its registration bit,
    registers it at the id the factory returned, and inserts it in the
    primacy list of the protocol at the back, at the front or not at all as
    the caller asks; every other entry of the registry, every other list,
    the subnets, the counters and the trace are unchanged. *)
Theorem AddAddressWithOptions_outcome s n x p a peb :
  nics s !! n = Some x ->
  exists res s',
    AddAddressWithOptions n p a peb s = Ok (res, s')
    /\ match res with
       | Some err =>
           s' = s
           /\ ((networkProtocols (cfg s) !! p = None /\ err = ErrUnknownProtocol)
               \/ exists np,
                    networkProtocols (cfg s) !! p = Some np
                    /\ (np_NewEndpoint np (id x) a = inl err
                        \/ exists k, np_NewEndpoint np (id x) a = inr k
                                     /\ is_Some (endpoints x !! k)
                                     /\ err = ErrDuplicateAddress))
       | None =>
           exists np k b,
             networkProtocols (cfg s) !! p = Some np
             /\ np_NewEndpoint np (id x) a = inr k
             /\ endpoints x !! k = None
             /\ heap s' = heap s ++ [b]
             /\ refs b = 1 /\ holdsInsertRef b = true
             /\ ep b = k /\ nic b = n /\ protocol b = p
             /\ nics s'
                = <[n := set_primary
                           (<[p := pushed peb (List.length (heap s))
                                          (default [] (primary x !! p))]>)
                           (set_endpoints (<[k := List.length (heap s)]>) x)]>
                    (nics s)
             /\ trace s' = trace s /\ stats s' = stats s /\ cfg s' = cfg s
       end.
Proof.
  intros Hx. unfold AddAddressWithOptions.
  destruct (networkProtocols (cfg s) !! p) as [np|] eqn:Hp.
  2: { rewrite (bind_Ok _ _ _ _ _ (addAddressLocked_unknown _ _ _ _ _ _ Hp)).
       eexists _, _. split; [reflexivity|]. split; [done|]. by left. }
  pose proof (addAddressLocked_eq s n p a peb false np x Hp Hx) as E.
  destruct (np_NewEndpoint np (id x) a) as [err|k] eqn:Hnew.
  { rewrite (bind_Ok _ _ _ _ _ E). eexists _, _. split; [reflexivity|].
    split; [done|]. right. exists np. split; [done|]. by left. }
  destruct (endpoints x !! k) as [r|] eqn:Hk.
  { rewrite (bind_Ok _ _ _ _ _ E). eexists _, _. split; [reflexivity|].
    split; [done|]. right. exists np. split; [done|]. right. exists k.
    rewrite Hk. eauto. }
  rewrite (registerLocked_run s n p k peb x Hx) in E.
  rewrite (bind_Ok _ _ _ _ _ E). eexists _, _. split; [reflexivity|].
  exists np, k, (fresh_ref n p k x s). split_and!; done.
Qed.

Lemma AddAddressWithOptions_outcome_witness :
  exists res s',
    AddAddressWithOptions 1 IPv4ProtocolNumber ex_addr2 FirstPrimaryEndpoint
      ex_added = Ok (res, s').
Proof.
  destruct (AddAddressWithOptions_outcome ex_added 1 (ex_nic ex_added 1)
              IPv4ProtocolNumber ex_addr2 FirstPrimaryEndpoint)
    as (res & s' & E & _); [vm_compute; reflexivity|].
  exists res, s'. exact E.
Defined.

Lemma RemoveAddress_bad s n x a :
  nics s !! n = Some x ->
  (endpoints x !! a = None
   \/ exists r b, endpoints x !! a = Some r /\ heap s !! r = Some b
                  /\ holdsInsertRef b = false) ->
  RemoveAddress n a s = Ok (Some ErrBadLocalAddress, s).
Proof.
  intros Hx H. unfold RemoveAddress.
  rewrite (bind_Ok _ _ _ _ _ (getNIC_Ok _ _ _ Hx)).
  destruct H as [->|(r & b & -> & Hb & Hbit)]; [done|].
  rewrite (bind_Ok _ _ _ _ _ (getB_Ok _ _ _ Hb)). by rewrite Hbit.
Qed.

(** X11.  An address that is added and then removed, with no borrower in
    between, leaves the NIC as it was: the registry is as before, the
    primacy list of the protocol is as before (an empty one where there was
    none), the endpoint of the binding was closed once, and the binding
    stays behind with count zero and no registration bit. *)
Theorem AddAddress_then_RemoveAddress s n x p a np k :
  inv s -> nics s !! n = Some x ->
  networkProtocols (cfg s) !! p = Some np ->
  np_NewEndpoint np (id x) a = inr k -> endpoints x !! k = None ->
  exists s1 s2 b,
    AddAddress n p a s = Ok (None, s1)
    /\ RemoveAddress n k s1 = Ok (None, s2)
    /\ nics s2 = <[n := restored_nic p x]> (nics s)
    /\ heap s2 = heap s ++ [b]
    /\ refs b = 0 /\ holdsInsertRef b = false /\ ep b = k
    /\ trace s2 = trace s ++ [EvClose (List.length (heap s))]
    /\ stats s2 = stats s.
Proof.
  intros Hinv Hx Hp Hnew Hk.
  destruct (temporary_release s n x p k CanBePrimaryEndpoint _ Hinv Hx Hk
              eq_refl eq_refl)
    as (s2 & Ed & Hn2 & Hh2 & Ht & Hst & _).
  set (s1 := registered_state n p k CanBePrimaryEndpoint x s).
  exists s1, s2, (set_refs 0 (set_holdsInsertRef false (fresh_ref n p k x s))).
  split_and!; try done.
  - unfold AddAddress, AddAddressWithOptions.
    rewrite (bind_Ok _ _ _ (inr (List.length (heap s))) s1); [done|].
    rewrite (addAddressLocked_eq _ _ _ _ _ _ np x) by done.
    rewrite Hnew, Hk. by apply registerLocked_run.
  - unfold RemoveAddress.
    rewrite (bind_Ok _ _ _
               (registered_nic p k CanBePrimaryEndpoint (List.length (heap s)) x)
               s1).
    2: { apply getNIC_Ok. simpl. apply lookup_insert_eq. }
    assert (heap s1 !! List.length (heap s) = Some (fresh_ref n p k x s)) as Hb.
    { simpl. by rewrite list_lookup_middle. }
    replace (endpoints (registered_nic p k CanBePrimaryEndpoint
                          (List.length (heap s)) x) !! k)
      with (Some (List.length (heap s)))
      by (symmetry; simpl; apply lookup_insert_eq).
    rewrite (bind_Ok _ _ _ _ _ (getB_Ok _ _ _ Hb)).
    change (negb (holdsInsertRef (fresh_ref n p k x s))) with false. cbv iota.
    rewrite (bind_Ok _ _ _ _ _ (modB_Ok _ _ _ _ Hb)).
    change (upd_heap (List.length (heap s))
              (set_holdsInsertRef false (fresh_ref n p k x s)) s1)
      with (temporary_state n p k CanBePrimaryEndpoint x s).
    by rewrite (bind_Ok _ _ _ _ _ Ed).
Qed.

Lemma AddAddress_then_RemoveAddress_witness :
  exists s1 s2,
    AddAddress 1 IPv4ProtocolNumber ex_addr2 ex_added = Ok (None, s1)
    /\ RemoveAddress 1 ex_addr2 s1 = Ok (None, s2)
    /\ nics s2
       = <[1 := restored_nic IPv4ProtocolNumber (ex_nic ex_added 1)]>
           (nics ex_added)
    /\ trace s2 = [EvClose 1%nat].
Proof.
  destruct (AddAddress_then_RemoveAddress ex_added 1 (ex_nic ex_added 1)
              IPv4ProtocolNumber ex_addr2 ex_ipv4 ex_addr2)
    as (s1 & s2 & b & E1 & E2 & Hn & _ & _ & _ & _ & Ht & _);
    [apply ex_inv | vm_compute; reflexivity | vm_compute; reflexivity
    | reflexivity | vm_compute; reflexivity |].
  exists s1, s2. split_and!; [exact E1 | exact E2 | exact Hn | exact Ht].
Defined.

(** X12.  An address can be removed once: in a state that satisfies the
    invariant, after a [RemoveAddress] that succeeded, a second
    [RemoveAddress] of the same address fails with the bad local address
    and changes nothing, whether the binding was torn down or is kept
    alive by a borrower. *)
Theorem RemoveAddress_twice s n a s' :
  inv s -> RemoveAddress n a s = Ok (None, s') ->
  RemoveAddress n a s' = Ok (Some ErrBadLocalAddress, s').
Proof.
  intros Hinv E. unfold RemoveAddress in E.
  destruct (nics s !! n) as [x|] eqn:Hx.
  2: { by rewrite (bind_Panic _ _ _ _ (getNIC_Panic _ _ Hx)) in E. }
  rewrite (bind_Ok _ _ _ _ _ (getNIC_Ok _ _ _ Hx)) in E.
  destruct (endpoints x !! a) as [r|] eqn:Ha; [|done].
  destruct (inv_registry s Hinv n x a r Hx Ha) as (b & Hb & Hep & Hnic & _).
  rewrite (bind_Ok _ _ _ _ _ (getB_Ok _ _ _ Hb)) in E.
  destruct (holdsInsertRef b) eqn:Hbit; [|done]. simpl in E.
  rewrite (bind_Ok _ _ _ _ _ (modB_Ok _ _ _ _ Hb)) in E.
  set (b1 := set_holdsInsertRef false b) in *.
  set (s1 := upd_heap r b1 s) in *.
  apply bind_inv in E as ([] & s2 & Ed & Er).
  assert (heap s1 !! r = Some b1) as Hb1 by by eapply heap_upd_heap_eq.
  assert (inv s1) as Hinv1 by by apply inv_upd_clear.
  rewrite (decRef_run _ _ _ Hb1) in Ed. cbv zeta in Ed.
  set (b2 := set_refs (wrap32 (refs b1 - 1)) b1) in *.
  set (s1' := upd_heap r b2 s1) in *.
  assert (heap s1' !! r = Some b2) as Hb2 by by eapply heap_upd_heap_eq.
  assert (inv s1') as Hinv1' by by apply inv_upd_refs.
  assert (nics s1' !! n = Some x) as Hx1 by done.
  assert (s' = s2) as ->.
  { by injection Er. }
  destruct (decide (wrap32 (refs b1 - 1) = 0)) as [Hz|Hz].
  - unfold removeEndpoint in Ed.
    change (nic b1) with (nic b) in Ed. rewrite Hnic in Ed.
    destruct (removeEndpointLocked_inv _ _ _ _ Hinv1' Ed)
      as (b' & x' & Hb' & Hx' & Hcase).
    rewrite Hb2 in Hb'. injection Hb' as <-.
    rewrite Hx1 in Hx'. injection Hx' as <-.
    destruct Hcase as [[Hk _]|(_ & _ & _ & l & _ & ->)].
    + exfalso. apply Hk. change (ep b2) with (ep b). by rewrite Hep.
    + apply (RemoveAddress_bad _ n (torn_nic r b2 l x)).
      * simpl. apply lookup_insert_eq.
      * left. rewrite <- Hep. apply (endpoints_torn_nic r b2 l x).
  - injection Ed as <-.
    apply (RemoveAddress_bad _ n x a Hx1). right. exists r, b2. done.
Qed.

Lemma RemoveAddress_twice_witness :
  exists s',
    RemoveAddress 1 ex_addr1 ex_added = Ok (None, s')
    /\ RemoveAddress 1 ex_addr1 s' = Ok (Some ErrBadLocalAddress, s').
Proof.
  eexists. split; [vm_compute; reflexivity|].
  apply (RemoveAddress_twice ex_added 1 ex_addr1);
    [apply ex_inv | vm_compute; reflexivity].
Defined.

(** ** Subnets and addresses *)

(** The subnet [Subnets] makes of a registered address: the address
    itself under a mask of all ones. *)
Definition exactSubnet (a : Address) : Subnet :=
  mkSubnet a (repeat_ff (String.length a)).

Lemma mask_clear_ff a : mask_clear a (repeat_ff (String.length a)) = true.
Proof.
  assert (forall c, N.eqb (N.land (N_of_ascii c)
                             (N.lxor 255 (N_of_ascii (ascii_of_N 255)))) 0
                    = true) as H.
  { intros c. change (N.lxor 255 (N_of_ascii (ascii_of_N 255))) with 0%N.
    by rewrite N.land_0_r. }
  induction a as [|c a IH]; [done|].
  cbn [String.length repeat_ff mask_clear]. by rewrite H, IH.
Qed.

Lemma endpointSubnets_run ks s :
  endpointSubnets ks s = Ok (exactSubnet <$> ks, s).
Proof.
  induction ks as [|k ks IH]; [done|].
  cbn [endpointSubnets]. unfold NewSubnet. rewrite mask_clear_ff.
  by rewrite (bind_Ok _ _ _ _ _ IH).
Qed.

Lemma rangeMap_fst {V} order (m : gmap string V) :
  (forall k, k ∈ order -> is_Some (m !! k)) ->
  (rangeMap order m).*1 = order.
Proof.
  unfold rangeMap. induction order as [|k order IH]; intros H; [done|].
  destruct (H k) as [v Hv]; [by left|].
  cbn [omap list_omap]. rewrite Hv. simpl. f_equal.
  apply IH. intros k' Hk'. apply H. by right.
Qed.

Lemma Subnets_run s n x order :
  nics s !! n = Some x -> rangeOrder order (endpoints x) ->
  Subnets n order s = Ok ((exactSubnet <$> order) ++ subnets x, s).
Proof.
  intros Hx [_ Hord]. unfold Subnets.
  rewrite (bind_Ok _ _ _ _ _ (getNIC_Ok _ _ _ Hx)).
  rewrite (bind_Ok _ _ _ _ _ (endpointSubnets_run _ _)).
  rewrite rangeMap_fst; [done|]. intros k Hk. by apply Hord.
Qed.

(** X13.  [Subnets] never panics and changes nothing: it returns one
    subnet for each registered address, in the order the registry is
    visited, made of the address and a mask of all ones, followed by the
    subnets added to the NIC in the order they were added.
    [ContainsSubnet] answers for this augmented list: it holds of the
    subnets added to the NIC and of the one-address subnets of the
    registered addresses, and of no other. *)
Theorem Subnets_augmented s n x order :
  nics s !! n = Some x -> rangeOrder order (endpoints x) ->
  Subnets n order s = Ok ((exactSubnet <$> order) ++ subnets x, s)
  /\ forall sn,
       exists c, ContainsSubnet n order sn s = Ok (c, s)
                 /\ (c = true <->
                     sn ∈ subnets x
                     \/ exists a, is_Some (endpoints x !! a)
                                  /\ sn = exactSubnet a).
Proof.
  intros Hx Hord. pose proof (Subnets_run s n x order Hx Hord) as E.
  split; [exact E|]. intros sn. unfold ContainsSubnet.
  rewrite (bind_Ok _ _ _ _ _ E). eexists. split; [reflexivity|].
  rewrite bool_decide_eq_true, elem_of_app, list_elem_of_fmap.
  destruct Hord as [_ Hord]. split.
  - intros [(a & -> & Ha)|H]; [|by left]. right. exists a.
    split; [|done]. by apply Hord.
  - intros [H|(a & Ha & ->)]; [by right|]. left. exists a.
    split; [done|]. by apply Hord.
Qed.

Lemma Subnets_augmented_witness :
  Subnets 1 [ex_addr1] ex_subnets
  = Ok ([exactSubnet ex_addr1; ex_sn24; ex_sn8; ex_sn24], ex_subnets).
Proof.
  destruct (Subnets_augmented ex_subnets 1 (ex_nic ex_subnets 1) [ex_addr1])
    as [E _]; [vm_compute; reflexivity | | exact E].
  split; [apply NoDup_singleton|]. intros k.
  change (endpoints (ex_nic ex_subnets 1))
    with (<[ex_addr1 := 0%nat]> (∅ : gmap string nat)).
  rewrite list_elem_of_singleton. unfold is_Some.
  setoid_rewrite lookup_insert_Some. setoid_rewrite lookup_empty.
  naive_solver.
Defined.

Lemma filter_ne_notin {A} `{EqDecision A} (y : A) (l : list A) :
  y ∉ l -> filter (fun z => z ≠ y) l = l.
Proof.
  induction l as [|z l IH]; intros Hy; [done|].
  apply not_elem_of_cons in Hy as [Hne Hy].
  rewrite filter_cons_True by done. by rewrite IH.
Qed.

(** X14.  [AddSubnet] appends the subnet to the list of the NIC, also
    when the list has it already, and whatever the protocol; [RemoveSubnet]
    removes every occurrence of the subnet and keeps the others in order.
    Removing the subnet just added gives the list without any occurrence
    of it, and the very state before the addition when the list did not
    have it. *)
Theorem AddSubnet_then_RemoveSubnet s n x p sn :
  nics s !! n = Some x ->
  exists s1 s2,
    AddSubnet n p sn s = Ok (tt, s1)
    /\ nics s1 = <[n := set_subnets (fun l => l ++ [sn]) x]> (nics s)
    /\ RemoveSubnet n sn s1 = Ok (tt, s2)
    /\ nics s2
       = <[n := set_subnets (filter (fun sub => sub ≠ sn)) x]> (nics s)
    /\ heap s2 = heap s /\ trace s2 = trace s /\ stats s2 = stats s
    /\ cfg s2 = cfg s
    /\ (sn ∉ subnets x -> s2 = s).
Proof.
  intros Hx.
  set (x1 := set_subnets (fun l => l ++ [sn]) x).
  set (s1 := upd_nic n x1 s).
  assert (nics s1 !! n = Some x1) as Hx1 by apply nics_upd_nic_eq.
  assert (set_subnets (filter (fun sub => sub ≠ sn)) x1
          = set_subnets (filter (fun sub => sub ≠ sn)) x) as Hx2.
  { unfold x1, set_subnets. simpl. f_equal. rewrite filter_app.
    rewrite (filter_cons_False _ sn []) by (intros H; by apply H).
    by rewrite filter_nil, app_nil_r. }
  exists s1, (upd_nic n (set_subnets (filter (fun sub => sub ≠ sn)) x1) s1).
  split_and!; try done.
  - unfold AddSubnet. rewrite (bind_Ok _ _ _ _ _ (getNIC_Ok _ _ _ Hx)).
    by apply modNIC_Ok.
  - unfold RemoveSubnet. rewrite (bind_Ok _ _ _ _ _ (getNIC_Ok _ _ _ Hx1)).
    by apply modNIC_Ok.
  - rewrite Hx2. unfold s1. rewrite upd_nic_twice. done.
  - intros Hnot. rewrite Hx2. unfold s1. rewrite upd_nic_twice.
    assert (set_subnets (filter (fun sub => sub ≠ sn)) x = x) as ->.
    { destruct x as [i nm le dm sp pr prim eps sns]. unfold set_subnets.
      simpl in *. f_equal. by apply filter_ne_notin. }
    destruct s as [c st ns h tr]. unfold upd_nic, set_nics. simpl in *.
    f_equal. by apply insert_id.
Qed.

Lemma AddSubnet_then_RemoveSubnet_witness :
  exists s1 s2,
    AddSubnet 1 IPv6ProtocolNumber ex_sn24 ex_subnets = Ok (tt, s1)
    /\ RemoveSubnet 1 ex_sn24 s1 = Ok (tt, s2)
    /\ (nics s2 !! 1 ≫= fun x => Some (subnets x)) = Some [ex_sn8].
Proof.
  destruct (AddSubnet_then_RemoveSubnet ex_subnets 1 (ex_nic ex_subnets 1)
              IPv6ProtocolNumber ex_sn24)
    as (s1 & s2 & E1 & _ & E2 & Hn & _); [vm_compute; reflexivity|].
  exists s1, s2. split_and!; [exact E1 | exact E2 |].
  rewrite Hn, lookup_insert_eq. vm_compute. reflexivity.
Defined.

Lemma Addresses_order order (E : gmap string nat)
    (h : list referencedNetworkEndpoint) :
  (forall k, k ∈ order -> exists r b, E !! k = Some r /\ h !! r = Some b) ->
  (omap (fun '(nid, r) => (fun b => (protocol b, nid)) <$> h !! r)
        (rangeMap order E)).*2 = order.
Proof.
  unfold rangeMap. induction order as [|k order IH]; intros H; [done|].
  destruct (H k) as (r & b & Hk & Hb); [by left|].
  cbn [omap list_omap]. rewrite Hk. simpl. rewrite Hb. simpl. f_equal.
  apply IH. intros k' Hk'. apply H. by right.
Qed.

(** X15.  In a state that satisfies the invariant, [Addresses] changes
    nothing and lists every registered address once, in the order the
    registry is visited, each with the protocol of its binding; nothing
    else is listed. *)
Theorem Addresses_exact s n x order :
  inv s -> nics s !! n = Some x -> rangeOrder order (endpoints x) ->
  exists l,
    Addresses n order s = Ok (l, s)
    /\ l.*2 = order
    /\ forall p a,
         (p, a) ∈ l <->
         exists r b, endpoints x !! a = Some r /\ heap s !! r = Some b
                     /\ protocol b = p.
Proof.
  intros Hinv Hx [Hnd Hord]. unfold Addresses.
  rewrite (bind_Ok _ _ _ _ _ (getNIC_Ok _ _ _ Hx)).
  rewrite (bind_Ok _ _ _ _ _ (eq_refl : get s = Ok (s, s))).
  eexists. split; [reflexivity|]. split.
  - apply Addresses_order. intros k Hk. apply Hord in Hk as [r Hr].
    destruct (inv_registry s Hinv n x k r Hx Hr) as (b & Hb & _). eauto.
  - intros p a. rewrite list_elem_of_omap. split.
    + intros ([k r] & Hin & Hf). apply rangeMap_elem in Hin as [_ Hr].
      destruct (heap s !! r) as [b|] eqn:Hb; [|done]. simpl in Hf.
      injection Hf as <- <-. eauto.
    + intros (r & b & Hr & Hb & <-). exists (a, r). split.
      * apply rangeMap_elem. split; [|done]. apply Hord. eauto.
      * by rewrite Hb.
Qed.

Lemma Addresses_exact_witness :
  exists l, Addresses 1 [ex_addr1; ex_addr2] ex_two = Ok (l, ex_two)
            /\ l.*2 = [ex_addr1; ex_addr2].
Proof.
  destruct (Addresses_exact ex_two 1 ex_two_nic [ex_addr1; ex_addr2])
    as (l & E & Hl & _);
    [apply ex_inv | vm_compute; reflexivity | apply ex_two_order |].
  exists l. split; [exact E | exact Hl].
Defined.

(** ** Packets that are dropped, and control packets *)

(** X16.  [DeliverTransportPacket] drops a packet of an unknown transport
    protocol with one increment of the unknown-protocol counter, and a
    packet whose first view is shorter than the minimum of the protocol
    (an empty packet among them) or whose ports do not parse with one
    increment of the malformed counter; in both cases no handler is called
    and nothing else changes. *)
Theorem DeliverTransportPacket_drops s n rt p vv :
  (transportProtocols (cfg s) !! p = None ->
   DeliverTransportPacket n rt p vv s
   = Ok (tt, set_stats inc_UnknownProtocolRcvdPackets s))
  /\ (forall st,
         transportProtocols (cfg s) !! p = Some st ->
         vlen (First vv) < tp_MinimumPacketSize (proto st)
         \/ tp_ParsePorts (proto st) (First vv) = None ->
         DeliverTransportPacket n rt p vv s
         = Ok (tt, set_stats inc_MalformedRcvdPackets s))
  /\ (forall st,
         transportProtocols (cfg s) !! p = Some st -> vv = [] ->
         0 < tp_MinimumPacketSize (proto st) ->
         DeliverTransportPacket n rt p vv s
         = Ok (tt, set_stats inc_MalformedRcvdPackets s)).
Proof.
  assert (forall st,
             transportProtocols (cfg s) !! p = Some st ->
             vlen (First vv) < tp_MinimumPacketSize (proto st)
             \/ tp_ParsePorts (proto st) (First vv) = None ->
             DeliverTransportPacket n rt p vv s
             = Ok (tt, set_stats inc_MalformedRcvdPackets s)) as Hdrop.
  { intros st Hst Hbad. unfold DeliverTransportPacket.
    rewrite (bind_Ok _ _ _ _ _ (eq_refl : get s = Ok (s, s))). rewrite Hst.
    case_bool_decide as Hlen; [done|].
    destruct Hbad as [Hshort|Hparse]; [done|]. by rewrite Hparse. }
  split_and!.
  - intros Hst. unfold DeliverTransportPacket.
    rewrite (bind_Ok _ _ _ _ _ (eq_refl : get s = Ok (s, s))). by rewrite Hst.
  - exact Hdrop.
  - intros st Hst -> Hmin. apply (Hdrop st Hst). left. exact Hmin.
Qed.

Lemma DeliverTransportPacket_drops_witness :
  DeliverTransportPacket 1 ex_route 17%N [[Byte.x00; Byte.x01]] (ex_stack false)
  = Ok (tt, set_stats inc_MalformedRcvdPackets (ex_stack false)).
Proof.
  destruct (DeliverTransportPacket_drops (ex_stack false) 1 ex_route 17%N
              [[Byte.x00; Byte.x01]]) as (_ & H & _).
  apply (H (mkTransportProtocolState (ex_udp false) None));
    [vm_compute; reflexivity | left; vm_compute; reflexivity].
Defined.

(** X17.  [DeliverTransportControlPacket] never changes a counter, the
    registry or a binding.  For an unknown transport protocol, a first view
    shorter than eight bytes (whatever the minimum of the protocol), or
    ports that do not parse, it does nothing at all.  Otherwise it calls
    the demultiplexer of the NIC, and the demultiplexer of the stack only
    when the first declined, with the id that has the source port and the
    local address first, and the destination port and the remote address
    second. *)
Theorem DeliverTransportControlPacket_calls
    s n local remote net trans typ extra vv :
  (transportProtocols (cfg s) !! trans = None ->
   DeliverTransportControlPacket n local remote net trans typ extra vv s
   = Ok (tt, s))
  /\ (forall st,
         transportProtocols (cfg s) !! trans = Some st ->
         vlen (First vv) < 8 \/ tp_ParsePorts (proto st) (First vv) = None ->
         DeliverTransportControlPacket n local remote net trans typ extra vv s
         = Ok (tt, s))
  /\ (forall st x srcPort dstPort,
         transportProtocols (cfg s) !! trans = Some st ->
         ~ vlen (First vv) < 8 ->
         tp_ParsePorts (proto st) (First vv) = Some (srcPort, dstPort) ->
         nics s !! n = Some x ->
         let id := mkTransportEndpointID srcPort local dstPort remote in
         DeliverTransportControlPacket n local remote net trans typ extra vv s
         = Ok (tt, logs (EvNICControl n id
                         :: if deliverControlPacket (demux x) net trans typ
                                                    extra vv id
                            then []
                            else [EvStackControl id]) s)).
Proof.
  split_and!.
  - intros Hst. unfold DeliverTransportControlPacket.
    rewrite (bind_Ok _ _ _ _ _ (eq_refl : get s = Ok (s, s))). by rewrite Hst.
  - intros st Hst Hbad. unfold DeliverTransportControlPacket.
    rewrite (bind_Ok _ _ _ _ _ (eq_refl : get s = Ok (s, s))). rewrite Hst.
    case_bool_decide as Hlen; [done|].
    destruct Hbad as [Hshort|Hparse]; [done|]. by rewrite Hparse.
  - intros st x srcPort dstPort Hst Hlen Hports Hx id.
    unfold DeliverTransportControlPacket.
    rewrite (bind_Ok _ _ _ _ _ (eq_refl : get s = Ok (s, s))). rewrite Hst.
    rewrite bool_decide_eq_false_2 by done. rewrite Hports. fold id.
    rewrite (bind_Ok _ _ _ _ _ (getNIC_Ok _ _ _ Hx)).
    rewrite (bind_Ok _ _ _ tt (logs [EvNICControl n id] s)) by done.
    destruct (deliverControlPacket (demux x) net trans typ extra vv id);
      [done|].
    rewrite (bind_Ok _ _ _ tt (logs [EvNICControl n id; EvStackControl id] s)).
    2: { unfold emit, modify. by rewrite log_logs. }
    by destruct (deliverControlPacket _ _ _ _ _ _ _).
Qed.

Lemma DeliverTransportControlPacket_calls_witness :
  DeliverTransportControlPacket 1 ex_addr1 ex_addr2 IPv4ProtocolNumber 17%N
    ControlPortUnreachable 0 ex_udp_to_7 (ex_stack false)
  = Ok (tt, logs [EvNICControl 1 (mkTransportEndpointID 1 ex_addr1 7 ex_addr2);
                  EvStackControl (mkTransportEndpointID 1 ex_addr1 7 ex_addr2)]
              (ex_stack false)).
Proof.
  destruct (DeliverTransportControlPacket_calls (ex_stack false) 1 ex_addr1
              ex_addr2 IPv4ProtocolNumber 17%N ControlPortUnreachable 0
              ex_udp_to_7) as (_ & _ & H).
  apply (H (mkTransportProtocolState (ex_udp false) None)
           (ex_nic (ex_stack false) 1) 1%N 7%N);
    [vm_compute; reflexivity | vm_compute; discriminate
    | vm_compute; reflexivity | vm_compute; reflexivity].
Defined.

(** * What no operation changes *)

(** An update of a binding that keeps its address, NIC, protocol and link
    cache flag and does not set the registration bit; an update of a NIC
    that keeps its id, name, link endpoint and demultiplexer. *)
Definition keeps_binding
    (f : referencedNetworkEndpoint -> referencedNetworkEndpoint) : Prop :=
  forall b, ep (f b) = ep b /\ nic (f b) = nic b /\ protocol (f b) = protocol b
            /\ linkCache (f b) = linkCache b
            /\ (holdsInsertRef (f b) = true -> holdsInsertRef b = true).

Definition keeps_nic (f : NIC -> NIC) : Prop :=
  forall x, id (f x) = id x /\ name (f x) = name x /\ linkEP (f x) = linkEP x
            /\ demux (f x) = demux x.

Section Built.
Variable P : Stack -> Prop.
Hypothesis HB : forall r f, keeps_binding f -> preserves P (modB r f).
Hypothesis HA : forall b s, P s -> P (set_heap (fun h => h ++ [b]) s).
Hypothesis HN : forall n f, keeps_nic f -> preserves P (modNIC n f).
Hypothesis HC : closes_ok P.
Hypothesis HT : forall f s, P s -> P (set_stats f s).
Hypothesis HE : forall e s, P s -> P (log e s).

Lemma built_removeEndpointLocked n r : preserves P (removeEndpointLocked n r).
Proof.
  unfold removeEndpointLocked, emit.
  repeat first [ pres_step
               | apply HN; intros ?; split_and!; reflexivity
               | apply preserves_modify; intros s; apply HC ].
Qed.

Lemma built_registerLocked n p k peb : preserves P (registerLocked n p k peb).
Proof.
  unfold registerLocked.
  repeat first [ pres_step
               | apply HN; intros ?; split_and!; reflexivity
               | apply preserves_modify; intros s; apply HA ].
Qed.

Hint Resolve built_removeEndpointLocked built_registerLocked : pres.

Lemma built_addAddressLocked n p a peb replace :
  preserves P (addAddressLocked n p a peb replace).
Proof. unfold addAddressLocked. pres. Qed.

Lemma built_stable : stable P.
Proof.
  split; intros;
    first [ apply built_removeEndpointLocked
          | apply built_addAddressLocked
          | apply HB; intros ?; split_and!; (reflexivity || done)
          | apply HN; intros ?; split_and!; reflexivity ].
Qed.

Lemma built_quiet : quiet P.
Proof.
  split; intros; apply preserves_modify; intros s; first [apply HT|apply HE].
Qed.

Lemma built_exec o : preserves P (exec o).
Proof.
  apply preserves_exec; [apply built_stable|apply built_quiet|].
  apply preserves_modify. intros s. apply HT.
Qed.

Lemma built_run_ops os s s' : P s -> run_ops os s = Ok (tt, s') -> P s'.
Proof. apply preserves_run_ops, built_exec. Qed.
End Built.

(** The binding [r] of the heap is [b] up to its count and its
    registration bit, which may have been cleared. *)
Definition same_binding (r : RefId) (b : referencedNetworkEndpoint)
    (s : Stack) : Prop :=
  exists b', heap s !! r = Some b' /\ ep b' = ep b /\ nic b' = nic b
             /\ protocol b' = protocol b /\ linkCache b' = linkCache b
             /\ (holdsInsertRef b' = true -> holdsInsertRef b = true).

(** X18.  No sequence of operations on the interface deletes a binding or
    changes its address, its NIC, its protocol or its link cache flag; and a
    registration bit that is clear is never set again (a binding made on
    demand, or one whose address was removed, never becomes a permanent
    binding again). *)
Theorem bindings_immutable os s s' r b :
  heap s !! r = Some b -> run_ops os s = Ok (tt, s') ->
  exists b', heap s' !! r = Some b' /\ ep b' = ep b /\ nic b' = nic b
             /\ protocol b' = protocol b /\ linkCache b' = linkCache b
             /\ (holdsInsertRef b = false -> holdsInsertRef b' = false).
Proof.
  intros Hb E.
  assert (same_binding r b s') as (b' & Hb' & He & Hn & Hp & Hl & Hbit).
  { apply (built_run_ops (same_binding r b)) with (os := os) (s := s);
      [..|by exists b|done].
    - intros r' f Hf. apply preserves_modify.
      intros s0 (b0 & Hb0 & He & Hn & Hp & Hl & Hbit).
      unfold same_binding. simpl.
      destruct (heap s0 !! r') as [b1|] eqn:Hb1; [|by exists b0].
      destruct (decide (r' = r)) as [->|Hne].
      + rewrite Hb0 in Hb1. injection Hb1 as <-.
        destruct (Hf b0) as (He' & Hn' & Hp' & Hl' & Hbit').
        exists (f b0). split.
        * apply list_lookup_insert_eq. by eapply lookup_lt_Some.
        * split_and!; [congruence..|]. intros H. by apply Hbit, Hbit'.
      + exists b0. split; [|done]. simpl. by rewrite list_lookup_insert_ne.
    - intros b1 s0 (b0 & Hb0 & H). exists b0. split; [|done]. simpl.
      by apply lookup_app_l_Some.
    - intros n f _. apply preserves_modify. by intros s0 H.
    - by intros r' s0 H.
    - by intros f s0 H.
    - by intros e s0 H. }
  exists b'. split_and!; try done.
  intros Hf. destruct (holdsInsertRef b') eqn:Hb''; [|done].
  rewrite Hbit in Hf by done. done.
Qed.

(** After its teardown the address of binding 0 is taken again, by a
    binding made on demand and then by an attempt to add it. *)
Definition ex_again : list Op :=
  [OpSetPromiscuousMode 1 true;
   OpGetRef 1 IPv4ProtocolNumber ex_addr1;
   OpAddAddress 1 IPv4ProtocolNumber ex_addr1].

Lemma bindings_immutable_witness :
  exists b', heap (state_after ex_again ex_released) !! 0%nat = Some b'
             /\ ep b' = ex_addr1 /\ holdsInsertRef b' = false.
Proof.
  destruct (bindings_immutable ex_again ex_released
              (state_after ex_again ex_released)
              0%nat (mkRef 0 ex_addr1 1 IPv4ProtocolNumber false false))
    as (b' & Hb' & He & _ & _ & _ & Hbit);
    [vm_compute; reflexivity | vm_compute; reflexivity|].
  exists b'. split_and!; [exact Hb' | exact He | exact (Hbit eq_refl)].
Defined.

(** [ID] returns the identifier of the NIC. *)
Definition NIC_ID (n : NICID) : M NICID :=
  x ← getNIC n; mret (id x).

(** The NIC [n] is [x] up to its modes, its registry, its primacy lists
    and its subnets. *)
Definition same_nic (n : NICID) (x : NIC) (s : Stack) : Prop :=
  exists x', nics s !! n = Some x' /\ id x' = id x /\ name x' = name x
             /\ linkEP x' = linkEP x /\ demux x' = demux x.

(** X19.  No sequence of operations on the interface removes a NIC or
    changes its id, its name, its link endpoint or its demultiplexer: [ID]
    returns the same identifier before and after. *)
Theorem nic_identity os s s' n x :
  nics s !! n = Some x -> run_ops os s = Ok (tt, s') ->
  NIC_ID n s = Ok (id x, s) /\ NIC_ID n s' = Ok (id x, s')
  /\ exists x', nics s' !! n = Some x' /\ id x' = id x /\ name x' = name x
                /\ linkEP x' = linkEP x /\ demux x' = demux x.
Proof.
  intros Hx E.
  assert (same_nic n x s') as (x' & Hx' & Hi & Hrest).
  { apply (built_run_ops (same_nic n x)) with (os := os) (s := s);
      [..|by exists x|done].
    - intros r f _. apply preserves_modify. by intros s0 H.
    - by intros b s0 H.
    - intros m f Hf. apply preserves_modify.
      intros s0 (x0 & Hx0 & Hi & Hn & Hl & Hd). unfold same_nic. simpl.
      destruct (nics s0 !! m) as [x1|] eqn:Hx1; [|by exists x0].
      destruct (decide (m = n)) as [->|Hne].
      + rewrite Hx0 in Hx1. injection Hx1 as <-.
        destruct (Hf x0) as (Hi' & Hn' & Hl' & Hd').
        exists (f x0). rewrite lookup_insert_eq. split_and!; congruence.
      + exists x0. by rewrite lookup_insert_ne.
    - by intros r s0 H.
    - by intros f s0 H.
    - by intros e s0 H. }
  split_and!.
  - unfold NIC_ID. by rewrite (bind_Ok _ _ _ _ _ (getNIC_Ok _ _ _ Hx)).
  - unfold NIC_ID. rewrite (bind_Ok _ _ _ _ _ (getNIC_Ok _ _ _ Hx')).
    by rewrite Hi.
  - by exists x'.
Qed.

Lemma nic_identity_witness :
  NIC_ID 1 (state_after ex_again ex_released)
  = Ok (1, state_after ex_again ex_released).
Proof.
  destruct (nic_identity ex_again ex_released
              (state_after ex_again ex_released) 1 (ex_nic ex_released 1))
    as (_ & H & _); [vm_compute; reflexivity | vm_compute; reflexivity|].
  exact H.
Defined.

(** * A frame for an address made on demand *)

Lemma countIP_frame np s :
  heap (countIP np s) = heap s /\ nics (countIP np s) = nics s
  /\ cfg (countIP np s) = cfg s /\ trace (countIP np s) = trace s
  /\ (inv s -> inv (countIP np s)).
Proof.
  unfold countIP. destruct (bool_decide _); [|done].
  split_and!; try done. intros Hinv. by apply inv_set_stats.
Qed.

Lemma getRef_on_demand_run s n x p a np k :
  nics s !! n = Some x -> networkProtocols (cfg s) !! p = Some np ->
  np_NewEndpoint np (id x) a = inr k ->
  endpoints x !! a = None -> endpoints x !! k = None ->
  promiscuous x = true \/ (exists sn, sn ∈ subnets x /\ Contains sn a = true) ->
  getRef n p a s
  = Ok (Some (List.length (heap s)),
        temporary_state n p k CanBePrimaryEndpoint x s).
Proof.
  intros Hx Hp Hnew Ha Hk Hprom. unfold getRef.
  rewrite (bind_Ok _ _ _ _ _ (lookupLive_none _ _ _ _ Hx (or_introl Ha))).
  rewrite (bind_Ok _ _ _ _ _ (getNIC_Ok _ _ _ Hx)). cbv zeta.
  rewrite (accepts_any x a Hprom).
  rewrite (bind_Ok _ _ _ _ _ (lookupLive_none _ _ _ _ Hx (or_introl Ha))).
  by apply (temporary_run s n x p a _ np k).
Qed.

(** X20.  A frame of a known protocol, long enough, whose destination the
    registry does not have, arrives on a NIC that is promiscuous or has a
    subnet containing the destination: [DeliverNetworkPacket] makes a
    binding for the destination, calls [HandlePacket] of its endpoint once
    with the route built from the parsed addresses, and closes the endpoint
    right after.  Afterwards the registry and the primacy list are as
    before the frame, and the only counter that moved is the one of IP
    packets, when the protocol is an IP protocol. *)
Theorem DeliverNetworkPacket_on_demand s n x le rl ll p vv np k :
  inv s -> nics s !! n = Some x ->
  networkProtocols (cfg s) !! p = Some np ->
  ~ vlen (First vv) < np_MinimumPacketSize np ->
  np_NewEndpoint np (id x) (snd (np_ParseAddresses np (First vv))) = inr k ->
  endpoints x !! snd (np_ParseAddresses np (First vv)) = None ->
  endpoints x !! k = None ->
  promiscuous x = true
  \/ (exists sn, sn ∈ subnets x
                 /\ Contains sn (snd (np_ParseAddresses np (First vv))) = true) ->
  exists s',
    DeliverNetworkPacket n le rl ll p vv s = Ok (tt, s')
    /\ trace s'
       = trace s
         ++ [EvHandlePacket (List.length (heap s))
               (set_RemoteLinkAddress rl
                  (makeRoute p (snd (np_ParseAddresses np (First vv)))
                     (fst (np_ParseAddresses np (First vv)))
                     (le_LinkAddress le) (List.length (heap s))))
               vv;
             EvClose (List.length (heap s))]
    /\ nics s' = <[n := restored_nic p x]> (nics s)
    /\ stats s' = stats (countIP np s)
    /\ List.length (heap s') = S (List.length (heap s)).
Proof.
  intros Hinv Hx Hp Hlen Hnew Ha Hk Hprom.
  destruct (countIP_frame np s) as (Hh0 & Hn0 & Hc0 & Ht0 & Hinv0).
  set (s0 := countIP np s) in *.
  set (dst := snd (np_ParseAddresses np (First vv))) in *.
  set (src := fst (np_ParseAddresses np (First vv))).
  assert (nics s0 !! n = Some x) as Hx0 by by rewrite Hn0.
  assert (networkProtocols (cfg s0) !! p = Some np) as Hp0 by by rewrite Hc0.
  set (e := EvHandlePacket (List.length (heap s0))
              (set_RemoteLinkAddress rl
                 (makeRoute p dst src (le_LinkAddress le)
                    (List.length (heap s0)))) vv).
  set (s1 := temporary_state n p k CanBePrimaryEndpoint x s0).
  destruct (temporary_release s0 n x p k CanBePrimaryEndpoint (log e s1)
              (Hinv0 Hinv) Hx0 Hk eq_refl eq_refl)
    as (s2 & Ed & Hn2 & Hh2 & Ht2 & Hst2 & _).
  exists s2. split_and!.
  - rewrite (DeliverNetworkPacket_eq s n le rl ll p vv np Hp).
    rewrite bool_decide_eq_false_2 by done. unfold dispatchPacket.
    fold s0 dst src.
    rewrite (bind_Ok _ _ _ _ _
               (getRef_on_demand_run s0 n x p dst np k Hx0 Hp0 Hnew Ha Hk Hprom)).
    fold s1. rewrite (bind_Ok _ _ _ tt (log e s1)) by done. exact Ed.
  - rewrite Ht2. unfold e. simpl. rewrite Ht0, Hh0. by rewrite <- app_assoc.
  - by rewrite Hn2, Hn0.
  - by rewrite Hst2.
  - rewrite Hh2, length_app, Hh0. simpl. lia.
Qed.

Lemma DeliverNetworkPacket_on_demand_witness :
  exists s',
    DeliverNetworkPacket 1 ex_link1 (bytes [9]%N) (bytes [1]%N)
      IPv4ProtocolNumber (ex_frame Byte.x03) ex_listening = Ok (tt, s')
    /\ nics s'
       = <[1 := restored_nic IPv4ProtocolNumber (ex_nic ex_listening 1)]>
           (nics ex_listening)
    /\ stats s' = mkStats 0 0 1 0.
Proof.
  destruct (DeliverNetworkPacket_on_demand ex_listening 1
              (ex_nic ex_listening 1) ex_link1 (bytes [9]%N) (bytes [1]%N)
              IPv4ProtocolNumber (ex_frame Byte.x03) ex_ipv4 ex_addr3)
    as (s' & E & _ & Hn & Hst & _);
    [apply ex_inv | vm_compute; reflexivity | vm_compute; reflexivity
    | vm_compute; discriminate | vm_compute; reflexivity
    | vm_compute; reflexivity | vm_compute; reflexivity
    | left; vm_compute; reflexivity |].
  exists s'. split_and!; [exact E | exact Hn |].
  rewrite Hst. vm_compute. reflexivity.
Defined.

(** * Operations that manage the interface *)

(** The operations of nic.go that manage addresses, subnets, modes and
    references, as opposed to the delivery of packets and the routes. *)
Definition is_management (o : Op) : bool :=
  match o with
  | OpDeliverNetworkPacket _ _ _ _ _ _ => false
  | OpDeliverTransportPacket _ _ _ _ => false
  | OpDeliverTransportControlPacket _ _ _ _ _ _ _ _ => false
  | OpFindRoute _ _ _ _ => false
  | OpRelease _ => false
  | _ => true
  end.

Lemma silent_management o : is_management o = true -> silent (exec o).
Proof.
  intros Ho P HP.
  destruct o; try discriminate Ho; unfold exec, AddAddress, removeEndpoint;
    pres.
Qed.

(** X21.  The operations that manage addresses, subnets, modes and
    references never change a counter and never call a packet handler, a
    demultiplexer or a link driver: the only calls they make out of the
    file close endpoints.  They also keep the invariant. *)
Theorem management_calls_nothing o s s' :
  is_management o = true -> exec o s = Ok (tt, s') ->
  stats s' = stats s /\ cfg s' = cfg s
  /\ calls (trace s') = calls (trace s)
  /\ (inv s -> inv s').
Proof.
  intros Ho E.
  destruct (silent_frames (exec o) s tt s' (silent_management o Ho) E)
    as (Hc & Hst & Hcalls & Hinv).
  done.
Qed.

Lemma management_calls_nothing_witness :
  stats (state_after [OpRemoveAddress 1 ex_addr1] ex_added) = stats ex_added
  /\ calls (trace (state_after [OpRemoveAddress 1 ex_addr1] ex_added)) = [].
Proof.
  destruct (management_calls_nothing (OpRemoveAddress 1 ex_addr1) ex_added
              (state_after [OpRemoveAddress 1 ex_addr1] ex_added))
    as (Hst & _ & Hc & _); [reflexivity | vm_compute; reflexivity|].
  split; [exact Hst | exact Hc].
Defined.

(** * A new NIC, and its modes *)

Lemma rangeMap_empty {V} order : rangeMap order (∅ : gmap string V) = [].
Proof.
  unfold rangeMap. induction order as [|k order IH]; [done|].
  cbn [omap list_omap]. by rewrite lookup_empty.
Qed.

(** X22.  A NIC as [newNIC] makes it is not promiscuous and has no
    address and no subnet: it has no primary endpoint and no main address,
    no frame and no lookup resolves to a binding on it, no address can be
    removed from it, and [Addresses] and [Subnets] list nothing; none of
    these calls changes the state. *)
Theorem newNIC_empty s n i nm le dm p a peb order :
  nics s !! n = Some (newNIC i nm le dm) ->
  isPromiscuousMode n s = Ok (false, s)
  /\ primaryEndpoint n p s = Ok (None, s)
  /\ getRef n p a s = Ok (None, s)
  /\ findEndpoint n p a peb s = Ok (None, s)
  /\ RemoveAddress n a s = Ok (Some ErrBadLocalAddress, s)
  /\ getMainNICAddress n p order s
     = Ok ((EmptyString, zeroSubnet, Some ErrNoLinkAddress), s)
  /\ Addresses n order s = Ok ([], s)
  /\ Subnets n order s = Ok ([], s).
Proof.
  intros Hx.
  assert (lookupLive n a s = Ok (None, s)) as Hl.
  { apply (lookupLive_none _ _ _ _ Hx). left. apply lookup_empty. }
  split_and!.
  - unfold isPromiscuousMode. by rewrite (bind_Ok _ _ _ _ _ (getNIC_Ok _ _ _ Hx)).
  - unfold primaryEndpoint. rewrite (bind_Ok _ _ _ _ _ (getNIC_Ok _ _ _ Hx)).
    simpl. by rewrite lookup_empty.
  - unfold getRef. rewrite (bind_Ok _ _ _ _ _ Hl).
    by rewrite (bind_Ok _ _ _ _ _ (getNIC_Ok _ _ _ Hx)).
  - unfold findEndpoint. rewrite (bind_Ok _ _ _ _ _ Hl).
    by rewrite (bind_Ok _ _ _ _ _ (getNIC_Ok _ _ _ Hx)).
  - apply (RemoveAddress_bad _ _ _ _ Hx). left. apply lookup_empty.
  - unfold getMainNICAddress. rewrite (bind_Ok _ _ _ _ _ (getNIC_Ok _ _ _ Hx)).
    simpl primary. rewrite lookup_empty.
    rewrite (bind_Ok _ _ _ None s) by done.
    simpl endpoints. rewrite rangeMap_empty. done.
  - unfold Addresses. rewrite (bind_Ok _ _ _ _ _ (getNIC_Ok _ _ _ Hx)).
    rewrite (bind_Ok _ _ _ _ _ (eq_refl : get s = Ok (s, s))).
    simpl endpoints. by rewrite rangeMap_empty.
  - unfold Subnets. rewrite (bind_Ok _ _ _ _ _ (getNIC_Ok _ _ _ Hx)).
    simpl endpoints. by rewrite rangeMap_empty.
Qed.

Lemma newNIC_empty_witness :
  getRef 2 IPv4ProtocolNumber ex_addr1 ex_added = Ok (None, ex_added)
  /\ getMainNICAddress 2 IPv4ProtocolNumber [ex_addr1] ex_added
     = Ok ((EmptyString, zeroSubnet, Some ErrNoLinkAddress), ex_added).
Proof.
  destruct (newNIC_empty ex_added 2 2 "eth1" ex_link2 (ex_demux 9)
              IPv4ProtocolNumber ex_addr1 CanBePrimaryEndpoint [ex_addr1])
    as (_ & _ & H1 & _ & _ & H2 & _); [vm_compute; reflexivity|].
  split; [exact H1 | exact H2].
Defined.

(** X23.  [setPromiscuousMode] and [setSpoofing] set their own flag and
    nothing else: after [setPromiscuousMode n v], [isPromiscuousMode n]
    returns [v], also when [setSpoofing] ran in between; the registry, the
    primacy lists and the subnets of the NIC, the other NICs, the bindings,
    the counters and the trace are as before. *)
Theorem promiscuous_round_trip s n x v w :
  nics s !! n = Some x ->
  exists s1 s2,
    setPromiscuousMode n v s = Ok (tt, s1)
    /\ isPromiscuousMode n s1 = Ok (v, s1)
    /\ setSpoofing n w s1 = Ok (tt, s2)
    /\ isPromiscuousMode n s2 = Ok (v, s2)
    /\ nics s2 = <[n := set_spoofing w (set_promiscuous v x)]> (nics s)
    /\ heap s2 = heap s /\ stats s2 = stats s /\ trace s2 = trace s
    /\ cfg s2 = cfg s.
Proof.
  intros Hx.
  set (s1 := upd_nic n (set_promiscuous v x) s).
  set (s2 := upd_nic n (set_spoofing w (set_promiscuous v x)) s1).
  assert (nics s1 !! n = Some (set_promiscuous v x)) as Hx1
    by apply nics_upd_nic_eq.
  assert (nics s2 !! n = Some (set_spoofing w (set_promiscuous v x))) as Hx2
    by apply nics_upd_nic_eq.
  exists s1, s2. split_and!; try done.
  - unfold setPromiscuousMode. rewrite (bind_Ok _ _ _ _ _ (getNIC_Ok _ _ _ Hx)).
    by apply modNIC_Ok.
  - unfold isPromiscuousMode. by rewrite (bind_Ok _ _ _ _ _ (getNIC_Ok _ _ _ Hx1)).
  - unfold setSpoofing. rewrite (bind_Ok _ _ _ _ _ (getNIC_Ok _ _ _ Hx1)).
    by apply modNIC_Ok.
  - unfold isPromiscuousMode. by rewrite (bind_Ok _ _ _ _ _ (getNIC_Ok _ _ _ Hx2)).
  - simpl. by rewrite insert_insert_eq.
Qed.

Lemma promiscuous_round_trip_witness :
  exists s1, setPromiscuousMode 1 true ex_added = Ok (tt, s1)
             /\ isPromiscuousMode 1 s1 = Ok (true, s1).
Proof.
  destruct (promiscuous_round_trip ex_added 1 (ex_nic ex_added 1) true false)
    as (s1 & s2 & E1 & E2 & _); [vm_compute; reflexivity|].
  exists s1. split; [exact E1 | exact E2].
Defined.

(** X24.  [incRef] adds one to the count without looking at it.  On a
    binding whose count is not zero the [decRef] that follows restores the
    state exactly; on a binding whose count is zero it takes the count
    back to zero and runs the removal of the endpoint once more, which is
    why [incRef] is only for a caller that holds a reference. *)
Theorem incRef_then_decRef s r b :
  heap s !! r = Some b -> int32 (refs b) ->
  exists s1,
    incRef r s = Ok (tt, s1)
    /\ heap s1 !! r = Some (set_refs (wrap32 (refs b + 1)) b)
    /\ (refs b ≠ 0 -> decRef r s1 = Ok (tt, s))
    /\ (refs b = 0 -> decRef r s1 = removeEndpoint (nic b) r s).
Proof.
  intros Hb Hrange.
  set (b1 := set_refs (wrap32 (refs b + 1)) b).
  set (s1 := upd_heap r b1 s).
  assert (heap s1 !! r = Some b1) as Hb1 by by eapply heap_upd_heap_eq.
  assert (upd_heap r (set_refs (wrap32 (refs b1 - 1)) b1) s1 = s) as Hback.
  { unfold b1 at 1. simpl refs. rewrite wrap32_inc_dec by done.
    replace (set_refs (refs b) b1) with b by by destruct b.
    by apply upd_heap_back. }
  assert (wrap32 (refs b1 - 1) = refs b) as Hw.
  { unfold b1. simpl refs. by apply wrap32_inc_dec. }
  exists s1. split_and!.
  - unfold incRef. by rewrite (bind_Ok _ _ _ _ _ (atomicAddInt32_run _ _ _ 1 Hb)).
  - done.
  - intros Hz. rewrite (decRef_run _ _ _ Hb1). cbv zeta.
    rewrite Hback, Hw. by rewrite decide_False.
  - intros Hz. rewrite (decRef_run _ _ _ Hb1). cbv zeta.
    rewrite Hback, Hw. by rewrite decide_True.
Qed.

Lemma incRef_then_decRef_witness :
  exists s1, incRef 0%nat ex_added = Ok (tt, s1)
             /\ decRef 0%nat s1 = Ok (tt, ex_added).
Proof.
  destruct (incRef_then_decRef ex_added 0%nat
              (mkRef 1 ex_addr1 1 IPv4ProtocolNumber false true))
    as (s1 & E & _ & Ed & _);
    [vm_compute; reflexivity | unfold int32; simpl; lia |].
  exists s1. split; [exact E | apply Ed; discriminate].
Defined.

(** * References handed out, and the registry *)

(** X25.  In a state that satisfies the invariant, the reference that
    [getRef], [findEndpoint] or [primaryEndpoint] hands out can always be
    given back: the [decRef] returns, it never runs into the panic of a
    count that drops to zero under a registration bit, and the state after
    it satisfies the invariant. *)
Theorem handed_out_releasable s n p a peb r s' :
  inv s ->
  getRef n p a s = Ok (Some r, s')
  \/ findEndpoint n p a peb s = Ok (Some r, s')
  \/ primaryEndpoint n p s = Ok (Some r, s') ->
  exists s'', decRef r s' = Ok (tt, s'') /\ inv s''.
Proof.
  intros Hinv H.
  assert (inv s' /\ releasable s' r) as [Hinv' Hrel].
  { destruct H as [E|[E|E]].
    - split.
      + exact (post_elim _ _ _ _ _ (preserves_getRef _ inv_stable n p a s Hinv) E).
      + exact (post_elim _ _ _ _ _ (getRef_post s n p a Hinv) E r eq_refl).
    - split.
      + exact (post_elim _ _ _ _ _
                 (preserves_findEndpoint _ inv_stable n p a peb s Hinv) E).
      + exact (post_elim _ _ _ _ _ (findEndpoint_post s n p a peb Hinv) E
                 r eq_refl).
    - split.
      + exact (post_elim _ _ _ _ _
                 (preserves_primaryEndpoint _ inv_stable n p s Hinv) E).
      + exact (post_elim _ _ _ _ _ (primaryEndpoint_post s n p Hinv) E
                 r eq_refl). }
  destruct (decRef_total s' r Hinv' Hrel) as (s'' & b & Ed & _).
  exists s''. split; [done|].
  exact (post_elim _ _ _ _ _ (preserves_decRef _ inv_stable r s' Hinv') Ed).
Qed.

Lemma handed_out_releasable_witness :
  exists s'', decRef 0%nat (borrow 0%nat ex_added) = Ok (tt, s'') /\ inv s''.
Proof.
  apply (handed_out_releasable ex_added 1 IPv4ProtocolNumber ex_addr1
           CanBePrimaryEndpoint 0%nat (borrow 0%nat ex_added));
    [apply ex_inv | right; right; vm_compute; reflexivity].
Defined.

(** X26.  In every state reached from new NICs by the operations of the
    interface, a binding is registered at most once: if the registries of
    two NICs hold the same binding at two addresses, the NICs are the same
    and the addresses are the same; the address is the one of the binding
    and the NIC is the one the binding belongs to. *)
Theorem registry_injective s n1 n2 x1 x2 k1 k2 r :
  reachable s ->
  nics s !! n1 = Some x1 -> endpoints x1 !! k1 = Some r ->
  nics s !! n2 = Some x2 -> endpoints x2 !! k2 = Some r ->
  n1 = n2 /\ k1 = k2
  /\ exists b, heap s !! r = Some b /\ ep b = k1 /\ nic b = n1.
Proof.
  intros Hs Hx1 Hk1 Hx2 Hk2. apply reachable_inv in Hs as Hinv.
  destruct (inv_registry s Hinv n1 x1 k1 r Hx1 Hk1) as (b & Hb & He & Hn & _).
  destruct (inv_registry s Hinv n2 x2 k2 r Hx2 Hk2)
    as (b' & Hb' & He' & Hn' & _).
  rewrite Hb in Hb'. injection Hb' as <-.
  split_and!; [congruence..|]. by exists b.
Qed.

Lemma registry_injective_witness :
  exists b, heap ex_two !! 1%nat = Some b /\ ep b = ex_addr2 /\ nic b = 1.
Proof.
  destruct (registry_injective ex_two 1 1 ex_two_nic ex_two_nic
              ex_addr2 ex_addr2 1%nat) as (_ & _ & H);
    [apply ex_reachable | vm_compute; reflexivity | vm_compute; reflexivity
    | vm_compute; reflexivity | vm_compute; reflexivity | exact H].
Defined.
